(** * Content-Disposition filename extraction (src/core/network_util.js)

    A shallow embedding of [extractFilenameFromHeader] and of the helpers
    nested in [getFilenameFromContentDispositionHeader], with the part of
    the ECMAScript library the code calls: strings of UTF-16 code units,
    a backtracking regular-expression matcher, [unescape], [escape],
    [decodeURIComponent] and [String.prototype.replace]. *)

From Stdlib Require Import NArith String Ascii Lia Bool.
From stdpp Require Import base option list gmap.

Set Default Proof Using "Type".

(** ** JavaScript strings

    A string is the list of its UTF-16 code units. *)

Abbreviation jsstring := (list N).

Fixpoint str (s : string) : jsstring :=
  match s with
  | EmptyString => []
  | String a t => N_of_ascii a :: str t
  end.

(** The double quote, which a Rocq string literal holds only doubled. *)
Definition dquote : N := 34%N.

(** [s.indexOf(c)] for a one-character needle; [None] is JavaScript's -1. *)
Fixpoint indexOf (s : jsstring) (c : N) : option nat :=
  match s with
  | [] => None
  | x :: t => if (x =? c)%N then Some 0 else S <$> indexOf t c
  end.

(** [parts.join(sep)]. *)
Fixpoint join (sep : jsstring) (parts : list jsstring) : jsstring :=
  match parts with
  | [] => []
  | [p] => p
  | p :: rest => p ++ sep ++ join sep rest
  end.

(** [s.split(sep)] for a separator of two code units [a b]: the pieces
    between the occurrences of the separator, found from left to right. *)
Fixpoint split2 (a b : N) (s : jsstring) (cur : jsstring) : list jsstring :=
  match s with
  | [] => [rev cur]
  | x :: t =>
      match t with
      | y :: t' =>
          if ((x =? a) && (y =? b))%N then rev cur :: split2 a b t' []
          else split2 a b t (x :: cur)
      | [] => [rev (x :: cur)]
      end
  end.

(** The lower-case letter of an upper-case ASCII letter. *)
Definition lower (c : N) : N :=
  (if (65 <=? c) && (c <=? 90) then c + 32 else c)%N.

Definition is_digit (c : N) : bool := ((48 <=? c) && (c <=? 57))%N.

Definition is_hex (c : N) : bool :=
  (is_digit c || ((65 <=? c) && (c <=? 70)) || ((97 <=? c) && (c <=? 102)))%N.

Definition hex_val (c : N) : N :=
  (if is_digit c then c - 48
   else if (65 <=? c) && (c <=? 70) then c - 55
   else c - 87)%N.

Definition hex2 (h1 h2 : N) : N := (16 * hex_val h1 + hex_val h2)%N.

Definition hex_digit (v : N) : N := (if v <? 10 then 48 + v else 55 + v)%N.

(** ** Results of running JavaScript

    An evaluation returns a value or ends in an error: an exception that a
    [try] can catch, the fuel of a loop of the model running out, or a use
    of [undefined] that the model does not follow. *)

Inductive error : Type :=
| Exception
| NoFuel
| Unmodelled.

Inductive result (A : Type) : Type :=
| Ok (a : A)
| Err (e : error).
Arguments Ok {A} a.
Arguments Err {A} e.

(** ** Regular expressions *)

Module RegExp.

(** The syntax the patterns of the file use. [r+] is [Seq r (Star r)],
    [r?] is [Alt r Empty] and [r{2}] is [Seq r r]; quantifiers are
    greedy. [Class neg rs] is [[...]] ([[^...]] when [neg]) over the
    ranges [rs]. *)
Inductive regex : Type :=
| Empty
| Char (c : N)
| Class (neg : bool) (rs : list (N * N))
| Dot
| Bol
| Eol
| Seq (r1 r2 : regex)
| Alt (r1 r2 : regex)
| Star (r : regex)
| Group (i : nat) (r : regex)
| NegLook (r : regex).

Definition Plus (r : regex) : regex := Seq r (Star r).
Definition Opt (r : regex) : regex := Alt r Empty.

Fixpoint cat (rs : list regex) : regex :=
  match rs with
  | [] => Empty
  | [r] => r
  | r :: rest => Seq r (cat rest)
  end.

Definition lit (s : string) : regex := cat (Char <$> str s).

(** [\s], [\d] and [\w] as ranges. *)
Definition white_space : list (N * N) :=
  [(9, 13); (32, 32); (160, 160); (5760, 5760); (8192, 8202); (8232, 8233);
   (8239, 8239); (8287, 8287); (12288, 12288); (65279, 65279)]%N.
Definition digit : list (N * N) := [(48, 57)]%N.
Definition word : list (N * N) := [(48, 57); (65, 90); (95, 95); (97, 122)]%N.

Definition in_ranges (rs : list (N * N)) (x : N) : bool :=
  existsb (fun r => (fst r <=? x) && (x <=? snd r))%N rs.

Definition class_matches (neg : bool) (rs : list (N * N)) (x : N) : bool :=
  xorb neg (in_ranges rs x).

(** Canonicalize of the [i] flag (without [u]). Every literal of a
    pattern with the [i] flag in this file is ASCII; a code unit of 128
    or more never canonicalizes to an ASCII one, so it is left as it is,
    and the classes of those patterns hold no letter, so they match the
    same with and without the flag. *)
Definition canonicalize (ci : bool) (x : N) : N :=
  (if ci && (97 <=? x) && (x <=? 122) then x - 32 else x)%N.

Definition line_terminator (x : N) : bool :=
  ((x =? 10) || (x =? 13) || (x =? 8232) || (x =? 8233))%N.

(** The matcher's state: the index reached, the input from there on, and
    the captures so far ([None] is [undefined]). *)
Record state : Type := State {
  pos : nat;
  rest : jsstring;
  caps : list (option jsstring)
}.

Definition eat (s : state) (ok : N -> bool) (k : state -> option state)
  : option state :=
  match rest s with
  | x :: t => if ok x then k (State (S (pos s)) t (caps s)) else None
  | [] => None
  end.

Definition capture (i : nat) (s s1 : state) : state :=
  State (pos s1) (rest s1)
        (<[i := Some (take (pos s1 - pos s) (rest s))]> (caps s1)).

(** The iterations of a star whose body is matched by [m]: one more
    iteration that moves on, if what follows then matches, or else none.
    An iteration that matches the empty string is refused. [fuel] is the
    length of the input left, which no run of iterations outlasts. *)
Fixpoint star_loop (m : state -> (state -> option state) -> option state)
         (k : state -> option state) (fuel : nat) (s : state)
  : option state :=
  match fuel with
  | O => k s
  | S fuel' =>
      match m s (fun s1 => if Nat.ltb (pos s) (pos s1)
                           then star_loop m k fuel' s1 else None) with
      | Some e => Some e
      | None => k s
      end
  end.

(** The backtracking matcher, in the continuation style of the
    language definition: [rmatch ci r s k] matches [r] at [s] and hands
    every way of doing so to [k], first the preferred one, until [k]
    accepts. *)
Fixpoint rmatch (ci : bool) (r : regex) (s : state)
         (k : state -> option state) {struct r} : option state :=
  match r with
  | Empty => k s
  | Char c => eat s (fun x => canonicalize ci x =? canonicalize ci c)%N k
  | Class neg rs => eat s (class_matches neg rs) k
  | Dot => eat s (fun x => negb (line_terminator x)) k
  | Bol => if Nat.eqb (pos s) 0 then k s else None
  | Eol => match rest s with [] => k s | _ :: _ => None end
  | Seq r1 r2 => rmatch ci r1 s (fun s1 => rmatch ci r2 s1 k)
  | Alt r1 r2 =>
      match rmatch ci r1 s k with
      | Some e => Some e
      | None => rmatch ci r2 s k
      end
  | Star r1 => star_loop (rmatch ci r1) k (length (rest s)) s
  | Group i r1 => rmatch ci r1 s (fun s1 => k (capture i s s1))
  | NegLook r1 =>
      match rmatch ci r1 s Some with
      | Some _ => None
      | None => k s
      end
  end.

Fixpoint ngroups (r : regex) : nat :=
  match r with
  | Seq r1 r2 | Alt r1 r2 => ngroups r1 + ngroups r2
  | Star r1 | NegLook r1 => ngroups r1
  | Group _ r1 => S (ngroups r1)
  | _ => 0
  end.

(** A RegExp object: its pattern and its [i] flag. *)
Record t : Type := Make {
  pattern : regex;
  ignoreCase : bool
}.

(** The array [exec] returns: [index], the index after the match, and
    the captures, the whole match at 0. *)
Record match_result : Type := Match {
  index : nat;
  endIndex : nat;
  groups : list (option jsstring)
}.

(** [m[i]]. *)
Definition group (m : match_result) (i : nat) : option jsstring :=
  default None (groups m !! i).

Definition match_at (re : t) (i : nat) (l : jsstring) : option match_result :=
  match rmatch (ignoreCase re) (pattern re)
               (State i l (replicate (S (ngroups (pattern re))) None)) Some with
  | Some e => Some (Match i (pos e) (<[0 := Some (take (pos e - i) l)]> (caps e)))
  | None => None
  end.

(** The first index from [i] on, up to the end of the input, where the
    pattern matches; [l] is the input from [i] on. *)
Fixpoint search (re : t) (i : nat) (l : jsstring) : option match_result :=
  match match_at re i l with
  | Some m => Some m
  | None =>
      match l with
      | [] => None
      | _ :: t => search re (S i) t
      end
  end.

(** [re.exec(s)] with [re.lastIndex = lastIndex] (0 unless the [g] flag
    is set). *)
Definition exec (re : t) (s : jsstring) (lastIndex : nat) : option match_result :=
  if Nat.ltb (length s) lastIndex then None
  else search re lastIndex (drop lastIndex s).

(** [re.test(s)] for a pattern without the [g] flag. *)
Definition test (re : t) (s : jsstring) : bool :=
  bool_decide (is_Some (exec re s 0)).

(** All the matches [s.replace(re, ...)] finds for a pattern with the
    [g] flag: [exec] again and again, stepping over an empty match. *)
Fixpoint match_all_from (fuel : nat) (re : t) (s : jsstring) (from : nat)
  : option (list match_result) :=
  match fuel with
  | O => None
  | S fuel' =>
      match exec re s from with
      | None => Some []
      | Some m =>
          cons m <$> match_all_from fuel' re s
                       (if Nat.eqb (endIndex m) (index m)
                        then S (endIndex m) else endIndex m)
      end
  end.

Definition match_all (re : t) (s : jsstring) : option (list match_result) :=
  match_all_from (2 + length s) re s 0.

End RegExp.

Import RegExp.

(** ** The evaluation monad

    [needsEncodingFixup] is the one variable the nested functions share:
    a computation takes its value, and gives back a result and its new
    value. An error leaves the variable as the failing step left it. *)

Definition M (A : Type) : Type := bool -> result A * bool.

Definition ret {A} (a : A) : M A := fun f => (Ok a, f).

Definition fail {A} (e : error) : M A := fun f => (Err e, f).

Definition bind {A B} (m : M A) (k : A -> M B) : M B :=
  fun f =>
    match m f with
    | (Ok a, f') => k a f'
    | (Err e, f') => (Err e, f')
    end.

Notation "'let*' x ':=' m 'in' k" := (bind m (fun x => k))
  (at level 10, x name, m at level 100, k at level 200).

(** Reading and writing [needsEncodingFixup]. *)
Definition get_needsEncodingFixup : M bool := fun f => (Ok f, f).
Definition set_needsEncodingFixup (b : bool) : M unit := fun _ => (Ok tt, b).

(** [try { m } catch (e) { h }]: only an exception is caught. *)
Definition try_catch {A} (m : M A) (h : M A) : M A :=
  fun f =>
    match m f with
    | (Err Exception, f') => h f'
    | r => r
    end.

(** A library call that returns or throws. *)
Definition throwing {A} (o : option A) : M A :=
  match o with
  | Some a => ret a
  | None => fail Exception
  end.

(** A capture read as a string. Where JavaScript would go on with
    [undefined], the model stops with [Unmodelled]; the patterns of the
    file leave no capture that is read undefined. *)
Definition defined (o : option jsstring) : M jsstring :=
  match o with
  | Some s => ret s
  | None => fail Unmodelled
  end.

(** ** The ECMAScript library *)

(** [parseInt(s, radix)] on a non-empty string of digits of the radix,
    which is what the code passes; any other argument is [Unmodelled].
    The value is exact (a JavaScript number is, below 2^53). *)
Definition digits_value (radix : N) (s : jsstring) : N :=
  fold_left (fun acc c => radix * acc + hex_val c)%N s 0%N.

Definition parseInt (s : jsstring) (radix : N) : M N :=
  match s with
  | [] => fail Unmodelled
  | _ :: _ =>
      if forallb (fun c => is_hex c && (hex_val c <? radix)%N) s
      then ret (digits_value radix s)
      else fail Unmodelled
  end.

(** [String.fromCharCode(n)]. *)
Definition fromCharCode (n : N) : jsstring := [(n mod 65536)%N].

(** [unescape(s)]: [%uXXXX] and [%XX] with hexadecimal digits become the
    code unit they name; every other code unit stands for itself. *)
Fixpoint unescape (s : jsstring) : jsstring :=
  match s with
  | [] => []
  | c :: t =>
      if (c =? 37)%N then
        match t with
        | u :: a :: t2 =>
            let two :=
              if is_hex u && is_hex a then hex2 u a :: unescape t2
              else c :: unescape t in
            if (u =? 117)%N then
              match t2 with
              | b :: c' :: d :: t' =>
                  if is_hex a && is_hex b && is_hex c' && is_hex d
                  then (256 * hex2 a b + hex2 c' d)%N :: unescape t'
                  else two
              | _ => two
              end
            else two
        | _ => c :: unescape t
        end
      else c :: unescape t
  end.

(** [escape(s)]: the code units of [A-Za-z0-9@*_+-./] stand for
    themselves, another one below 256 becomes [%XX] and any other
    [%uXXXX], with upper-case digits. *)
Definition escape_unreserved (c : N) : bool :=
  in_ranges [(48, 57); (65, 90); (97, 122); (64, 64); (42, 43); (95, 95);
             (45, 47)]%N c.

Definition escape_char (c : N) : jsstring :=
  if escape_unreserved c then [c]
  else if (c <? 256)%N then [37; hex_digit (c / 16); hex_digit (c mod 16)]%N
  else [37; 117; hex_digit (c / 4096 mod 16); hex_digit (c / 256 mod 16);
        hex_digit (c / 16 mod 16); hex_digit (c mod 16)]%N.

Definition escape (s : jsstring) : jsstring := concat (escape_char <$> s).

(** The code units of a code point: itself, or a surrogate pair. *)
Definition utf16 (v : N) : jsstring :=
  (if v <? 65536 then [v]
   else [55296 + (v - 65536) / 1024; 56320 + (v - 65536) mod 1024])%N.

(** [decodeURIComponent(s)]. A code unit other than [%] stands for
    itself; [%XX] below 128 is that code unit; a larger [%XX] starts a
    UTF-8 sequence of [%XX] escapes, and the code point it encodes is
    written in UTF-16. [pending] counts the continuation bytes still to
    come, [acc] holds the bits read so far and [lo] is the least code
    point that needs a sequence of this length. [None] is the URIError
    of a malformed escape or sequence. *)
Fixpoint decode_from (s : jsstring) (pending : nat) (acc lo : N)
  : option jsstring :=
  match s with
  | [] => match pending with O => Some [] | S _ => None end
  | c :: t =>
      if (c =? 37)%N then
        match t with
        | h1 :: h2 :: t' =>
            if is_hex h1 && is_hex h2 then
              let b := hex2 h1 h2 in
              match pending with
              | O =>
                  if (b <? 128)%N then cons b <$> decode_from t' 0 0%N 0%N
                  else if (b <? 192)%N then None
                  else if (b <? 224)%N then decode_from t' 1 (b - 192)%N 128%N
                  else if (b <? 240)%N then decode_from t' 2 (b - 224)%N 2048%N
                  else if (b <? 248)%N then decode_from t' 3 (b - 240)%N 65536%N
                  else None
              | S p =>
                  if ((128 <=? b) && (b <? 192))%N then
                    let v := (64 * acc + (b - 128))%N in
                    match p with
                    | O =>
                        if ((lo <=? v) && (v <? 1114112)
                            && negb ((55296 <=? v) && (v <? 57344)))%N
                        then app (utf16 v) <$> decode_from t' 0 0%N 0%N
                        else None
                    | S _ => decode_from t' p v lo
                    end
                  else None
              end
            else None
        | _ => None
        end
      else
        match pending with
        | O => cons c <$> decode_from t 0 0%N 0%N
        | S _ => None
        end
  end.

Definition decodeURIComponent (s : jsstring) : option jsstring :=
  decode_from s 0 0%N 0%N.

(** [s.replace(re, f)] for a pattern with the [g] flag and a function
    [f]: every match is found first, then [f] is called on each, in
    order, and its result put in the place of the match. *)
Fixpoint splice (s : jsstring) (cur : nat) (ms : list match_result)
         (f : match_result -> M jsstring) : M jsstring :=
  match ms with
  | [] => ret (drop cur s)
  | m :: ms' =>
      let* r := f m in
      let* tail := splice s (endIndex m) ms' f in
      ret (take (index m - cur) (drop cur s) ++ r ++ tail)
  end.

Definition replace_all (re : RegExp.t) (f : match_result -> M jsstring)
           (s : jsstring) : M jsstring :=
  match match_all re s with
  | Some ms => splice s 0 ms f
  | None => fail NoFuel
  end.

(** [s.replace(re, f)] for a pattern without the [g] flag: the first
    match only. *)
Definition replace_first (re : RegExp.t) (f : match_result -> M jsstring)
           (s : jsstring) : M jsstring :=
  match exec re s 0 with
  | Some m =>
      let* r := f m in
      ret (take (index m) s ++ r ++ drop (endIndex m) s)
  | None => ret s
  end.

(** ** JavaScript arrays with holes

    [matches] of [rfc2231getparam] is written at any index. An array is
    the map of its properties and its [length], which a write at an array
    index (an integer below 2^32 - 1) at or past it moves just past that
    index; a write at another number only adds a property. Two numbers of
    2^53 or more may name the same property in JavaScript where the model
    keeps them apart: no such property is ever read, the reading loop
    stays below [length]. *)

Record jsarray (V : Type) : Type := Array {
  props : gmap N V;
  length_of : N
}.
Arguments Array {V} props length_of.
Arguments props {V} _.
Arguments length_of {V} _.

Definition array_empty {V} : jsarray V := Array ∅ 0%N.

(** [n in a]. *)
Definition array_has {V} (a : jsarray V) (n : N) : bool :=
  bool_decide (is_Some (props a !! n)).

(** [a[n] = v]. *)
Definition array_set {V} (a : jsarray V) (n : N) (v : V) : jsarray V :=
  Array (<[n := v]> (props a))
        (if (n <? 4294967295)%N then N.max (length_of a) (n + 1)
         else length_of a).

(** ** The patterns of the file *)

Definition ws : regex := Class false white_space.

(** [value = token | quoted-string], the capture of [toParamRegExp]:
    [[^Q;\s][^;\s]*|Q(?:[^Q\\]|\\Q?)+Q?], with Q for the double quote. *)
Definition value_pattern : regex :=
  Alt (Seq (Class true ((34, 34) :: (59, 59) :: white_space)%N)
           (Star (Class true ((59, 59)%N :: white_space))))
      (cat [Char 34; Plus (Alt (Class true [(34, 34); (92, 92)]%N)
                               (Seq (Char 92) (Opt (Char 34))));
            Opt (Char 34)]).

(** [toParamRegExp(attributePattern, flags)]; both calls pass the [i]
    flag, and the [g] flag of the second shows in how [exec] is called.
    The value is the group after those of [attributePattern]. *)
Definition toParamRegExp (attributePattern : regex) : RegExp.t :=
  Make (cat [Alt Bol (Char 59); Star ws; attributePattern; Star ws; Char 61;
             Star ws; Group (S (ngroups attributePattern)) value_pattern])
       true.

(** [filename\*] *)
Definition filename_star : regex := Seq (lit "filename") (Char 42).

(** [filename\*((?!0\d)\d+)(\*?)] *)
Definition filename_continuation : regex :=
  cat [lit "filename"; Char 42;
       Group 1 (Seq (NegLook (Seq (Char 48) (Class false digit)))
                    (Plus (Class false digit)));
       Group 2 (Opt (Char 42))].

(** [/^[\x00-\xFF]+$/] *)
Definition bytes_only : RegExp.t :=
  Make (cat [Bol; Plus (Class false [(0, 255)]%N); Eol]) false.

(** [/^utf-?8$/i] *)
Definition utf8_label : RegExp.t :=
  Make (cat [Bol; lit "utf"; Opt (Char 45); Char 56; Eol]) true.

(** [/[\x80-\xff]/] *)
Definition high_byte : RegExp.t := Make (Class false [(128, 255)]%N) false.

(** [/[\x00-\x19\x80-\xff]/] *)
Definition control_or_high : RegExp.t :=
  Make (Class false [(0, 25); (128, 255)]%N) false.

(** [/\\(.)/g] *)
Definition backslash_pair : RegExp.t := Make (Seq (Char 92) (Group 1 Dot)) false.

(** [/^[^']*'/] *)
Definition language_tag : RegExp.t :=
  Make (cat [Bol; Star (Class true [(39, 39)]%N); Char 39]) false.

(** [/=\?(C)\?([QqBb])\?(T)\?=/g] with [[\w-]*] for C and
    [(?:[^?]|\?(?!=))*] for T. *)
Definition encoded_word : RegExp.t :=
  Make (cat [Char 61; Char 63;
             Group 1 (Star (Class false ((45, 45)%N :: word)));
             Char 63;
             Group 2 (Class false [(81, 81); (113, 113); (66, 66); (98, 98)]%N);
             Char 63;
             Group 3 (Star (Alt (Class true [(63, 63)]%N)
                                (Seq (Char 63) (NegLook (Char 61)))));
             Char 63; Char 61])
       false.

(** [/_/g] *)
Definition underscore : RegExp.t := Make (Char 95) false.

(** [/=([0-9a-fA-F]{2})/g] *)
Definition hex_escape : RegExp.t :=
  Make (Seq (Char 61)
            (Group 1 (Seq (Class false [(48, 57); (97, 102); (65, 70)]%N)
                          (Class false [(48, 57); (97, 102); (65, 70)]%N))))
       false.

(** [/\.pdf$/i] *)
Definition pdf_suffix : RegExp.t :=
  Make (cat [Char 46; lit "pdf"; Eol]) true.

(** ** The program *)

(** A string in a condition: true unless empty. *)
Definition truthy (s : jsstring) : bool :=
  match s with [] => false | _ :: _ => true end.

Section Program.

(** The two calls into the browser. [TextDecoder_decode label bytes] is
    [new TextDecoder(label, {fatal: true}).decode(new Uint8Array(bytes))]
    and [atob] is the base64 decoder; [None] is an exception, whichever
    the cause (the label is unknown, the bytes are invalid, or the
    interface is not there). *)
Variable TextDecoder_decode : jsstring -> jsstring -> option jsstring.
Variable atob : jsstring -> option jsstring.

Definition textdecode (encoding value : jsstring) : M jsstring :=
  if truthy encoding then
    if negb (test bytes_only value) then ret value
    else
      try_catch
        (let* decoded := throwing (TextDecoder_decode encoding value) in
         let* _ := set_needsEncodingFixup false in
         ret decoded)
        (if test utf8_label encoding then
           try_catch
             (let* decoded := throwing (decodeURIComponent (escape value)) in
              let* _ := set_needsEncodingFixup false in
              ret decoded)
             (ret value)
         else ret value)
  else ret value.

Definition fixupEncoding (value : jsstring) : M jsstring :=
  let* needsEncodingFixup := get_needsEncodingFixup in
  if needsEncodingFixup && test high_byte value then
    let* value := textdecode (str "utf-8") value in
    let* needsEncodingFixup := get_needsEncodingFixup in
    if needsEncodingFixup then textdecode (str "iso-8859-1") value
    else ret value
  else ret value.

(** The replacement ['$1']: capture 1, or nothing when it is undefined. *)
Definition dollar1 (m : match_result) : M jsstring :=
  ret (default [] (group m 1)).

(** The loop of [rfc2616unquote] over the pieces that a backslash
    before a quote separates: a piece with a quote in it is cut there
    and is the last one. *)
Fixpoint unquote_parts (parts : list jsstring) : M (list jsstring) :=
  match parts with
  | [] => ret []
  | p :: rest =>
      match indexOf p dquote with
      | Some quotindex =>
          let* p := replace_all backslash_pair dollar1 (take quotindex p) in
          ret [p]
      | None =>
          let* p := replace_all backslash_pair dollar1 p in
          let* rest := unquote_parts rest in
          ret (p :: rest)
      end
  end.

Definition rfc2616unquote (value : jsstring) : M jsstring :=
  match value with
  | c :: after =>
      if (c =? dquote)%N then
        let* parts := unquote_parts (split2 92 34 after []) in
        ret (join [dquote] parts)
      else ret value
  | [] => ret value
  end.

Definition rfc5987decode (extvalue : jsstring) : M jsstring :=
  match indexOf extvalue 39%N with
  | None => ret extvalue
  | Some encodingend =>
      let encoding := take encodingend extvalue in
      let langvalue := drop (S encodingend) extvalue in
      let* value := replace_first language_tag (fun _ => ret []) langvalue in
      textdecode encoding value
  end.

(** The function [rfc2047decode] passes to [replace]. *)
Definition decode_word (m : match_result) : M jsstring :=
  let* charset := defined (group m 1) in
  let* encoding := defined (group m 2) in
  let* text := defined (group m 3) in
  if bool_decide (encoding = str "q") || bool_decide (encoding = str "Q") then
    let* text := replace_all underscore (fun _ => ret (str " ")) text in
    let* text :=
      replace_all hex_escape
        (fun m =>
           let* hex := defined (group m 1) in
           let* code := parseInt hex 16 in
           ret (fromCharCode code))
        text in
    textdecode charset text
  else
    let* text := try_catch (throwing (atob text)) (ret text) in
    textdecode charset text.

Definition rfc2047decode (value : jsstring) : M jsstring :=
  if negb (bool_decide (take 2 value = str "=?")) || test control_or_high value
  then ret value
  else replace_all encoded_word decode_word value.

(** The [while] loop of [rfc2231getparam]: [iter.exec] from
    [iter.lastIndex] until it finds nothing, or until a second index 0. *)
Fixpoint rfc2231_scan (fuel : nat) (contentDisposition : jsstring)
         (lastIndex : nat)
         (matches : jsarray (option jsstring * option jsstring))
  : M (jsarray (option jsstring * option jsstring)) :=
  match fuel with
  | O => fail NoFuel
  | S fuel' =>
      match exec (toParamRegExp filename_continuation)
                 contentDisposition lastIndex with
      | None => ret matches
      | Some m =>
          let* n := defined (group m 1) in
          let quot := group m 2 in
          let part := group m 3 in
          let* n := parseInt n 10 in
          if array_has matches n then
            if (n =? 0)%N then ret matches
            else rfc2231_scan fuel' contentDisposition (endIndex m) matches
          else rfc2231_scan fuel' contentDisposition (endIndex m)
                 (array_set matches n (quot, part))
      end
  end.

(** Its [for] loop, from index [n] on. *)
Fixpoint rfc2231_parts (fuel : nat)
         (matches : jsarray (option jsstring * option jsstring)) (n : N)
  : M (list jsstring) :=
  match fuel with
  | O => fail NoFuel
  | S fuel' =>
      if (n <? length_of matches)%N then
        match props matches !! n with
        | None => ret []
        | Some (quot, part) =>
            let* part := defined part in
            let* part := rfc2616unquote part in
            let* part :=
              if truthy (default [] quot) then
                let part := unescape part in
                if (n =? 0)%N then rfc5987decode part else ret part
              else ret part in
            let* parts := rfc2231_parts fuel' matches (n + 1) in
            ret (part :: parts)
        end
      else ret []
  end.

Definition rfc2231getparam (contentDisposition : jsstring) : M jsstring :=
  let* matches :=
    rfc2231_scan (2 + length contentDisposition) contentDisposition 0
                 array_empty in
  let* parts := rfc2231_parts (S (size (props matches))) matches 0 in
  ret (concat parts).

(** The third form and the final [return ''], which the first two forms
    fall through to. *)
Definition plain_form (contentDisposition : jsstring) : M jsstring :=
  match exec (toParamRegExp (lit "filename")) contentDisposition 0 with
  | Some tmp =>
      let* tmp := defined (group tmp 1) in
      let* filename := rfc2616unquote tmp in
      let* filename := rfc2047decode filename in
      fixupEncoding filename
  | None => ret []
  end.

Definition getFilenameFromContentDispositionHeader
           (contentDisposition : jsstring) : M jsstring :=
  let* _ := set_needsEncodingFixup true in
  match exec (toParamRegExp filename_star) contentDisposition 0 with
  | Some tmp =>
      let* tmp := defined (group tmp 1) in
      let* filename := rfc2616unquote tmp in
      let filename := unescape filename in
      let* filename := rfc5987decode filename in
      let* filename := rfc2047decode filename in
      fixupEncoding filename
  | None =>
      let* tmp := rfc2231getparam contentDisposition in
      if truthy tmp then
        let* filename := rfc2047decode tmp in
        fixupEncoding filename
      else plain_form contentDisposition
  end.

(** A call of a function that declares [needsEncodingFixup]: the
    variable does not outlive it. *)
Definition call {A} (m : M A) : result A := fst (m true).

(** [contentDisposition] is a string, or [None] when the caller has no
    header ([undefined] or [null]); the result is the filename, or
    [None] for [null]. *)
Definition extractFilenameFromHeader (contentDisposition : option jsstring)
  : result (option jsstring) :=
  match contentDisposition with
  | Some cd =>
      if truthy cd then
        match call (getFilenameFromContentDispositionHeader cd) with
        | Ok filename =>
            if test pdf_suffix filename then Ok (Some filename) else Ok None
        | Err e => Err e
        end
      else Ok None
  | None => Ok None
  end.

End Program.

(** ** A browser

    An instance of the two browser calls, for running the program: a
    [TextDecoder] that knows UTF-8 and windows-1252 (which the label
    [iso-8859-1] names) as the Encoding Standard defines them, and no
    other encoding, and the [atob] of HTML. *)

Module Browser.

(** The UTF-8 decoder in fatal mode. *)
Fixpoint utf8_from (bytes : jsstring) (pending : nat) (acc lo : N)
  : option jsstring :=
  match bytes with
  | [] => match pending with O => Some [] | S _ => None end
  | b :: t =>
      match pending with
      | O =>
          if (b <? 128)%N then cons b <$> utf8_from t 0 0%N 0%N
          else if (b <? 192)%N then None
          else if (b <? 224)%N then utf8_from t 1 (b - 192)%N 128%N
          else if (b <? 240)%N then utf8_from t 2 (b - 224)%N 2048%N
          else if (b <? 248)%N then utf8_from t 3 (b - 240)%N 65536%N
          else None
      | S p =>
          if ((128 <=? b) && (b <? 192))%N then
            let v := (64 * acc + (b - 128))%N in
            match p with
            | O =>
                if ((lo <=? v) && (v <? 1114112)
                    && negb ((55296 <=? v) && (v <? 57344)))%N
                then app (utf16 v) <$> utf8_from t 0 0%N 0%N
                else None
            | S _ => utf8_from t p v lo
            end
          else None
      end
  end.

(** [decode] drops a byte order mark at the start ([ignoreBOM] is
    false). *)
Definition utf8_decode (bytes : jsstring) : option jsstring :=
  match bytes with
  | 239 :: 187 :: 191 :: t => utf8_from t 0 0 0
  | _ => utf8_from bytes 0 0 0
  end%N.

Definition windows_1252_high : list N :=
  [8364; 129; 8218; 402; 8222; 8230; 8224; 8225; 710; 8240; 352; 8249; 338;
   141; 381; 143; 144; 8216; 8217; 8220; 8221; 8226; 8211; 8212; 732; 8482;
   353; 8250; 339; 157; 382; 376]%N.

Definition windows_1252_decode (bytes : jsstring) : option jsstring :=
  Some ((fun b =>
           if ((128 <=? b) && (b <? 160))%N
           then default b (windows_1252_high !! N.to_nat (b - 128))
           else b) <$> bytes).

Definition utf8_labels : list jsstring :=
  str <$> ["unicode-1-1-utf-8"; "unicode11utf8"; "unicode20utf8"; "utf-8";
           "utf8"; "x-unicode20utf8"]%string.

Definition windows_1252_labels : list jsstring :=
  str <$> ["ansi_x3.4-1968"; "ascii"; "cp1252"; "cp819"; "csisolatin1";
           "ibm819"; "iso-8859-1"; "iso-ir-100"; "iso8859-1"; "iso88591";
           "iso_8859-1"; "iso_8859-1:1987"; "l1"; "latin1"; "us-ascii";
           "windows-1252"; "x-cp1252"]%string.

Definition ascii_space (c : N) : bool :=
  in_ranges [(9, 10); (12, 13); (32, 32)]%N c.

Fixpoint trim_start (s : jsstring) : jsstring :=
  match s with
  | c :: t => if ascii_space c then trim_start t else s
  | [] => []
  end.

(** A label is matched without the white space around it, in either
    case. *)
Definition TextDecoder_decode (label bytes : jsstring) : option jsstring :=
  let label := lower <$> rev (trim_start (rev (trim_start label))) in
  if bool_decide (label ∈ utf8_labels) then utf8_decode bytes
  else if bool_decide (label ∈ windows_1252_labels)
       then windows_1252_decode bytes
  else None.

(** Forgiving base64: white space is dropped, padding is optional. *)
Definition base64_value (c : N) : option N :=
  (if (65 <=? c) && (c <=? 90) then Some (c - 65)
   else if (97 <=? c) && (c <=? 122) then Some (c - 71)
   else if (48 <=? c) && (c <=? 57) then Some (c + 4)
   else if c =? 43 then Some 62
   else if c =? 47 then Some 63
   else None)%N.

Fixpoint base64_groups (vs : list N) : option jsstring :=
  match vs with
  | a :: b :: c :: d :: t =>
      app [a * 4 + b / 16; (b mod 16) * 16 + c / 4; (c mod 4) * 64 + d]%N
      <$> base64_groups t
  | [a; b; c] => Some [a * 4 + b / 16; (b mod 16) * 16 + c / 4]%N
  | [a; b] => Some [a * 4 + b / 16]%N
  | [_] => None
  | [] => Some []
  end.

Definition strip_padding (s : jsstring) : jsstring :=
  if Nat.eqb (length s mod 4) 0 then
    match rev s with
    | 61 :: 61 :: t => rev t
    | 61 :: t => rev t
    | _ => s
    end%N
  else s.

Definition atob (s : jsstring) : option jsstring :=
  let s := filter (fun c => negb (ascii_space c)) s in
  vs ← mapM base64_value (strip_padding s);
  base64_groups vs.

End Browser.

(** ** The Continuation Reassembler as the specification words it

    The data model's [ContinuationPart] and the steps of section 4.2,
    to compare [rfc2231getparam] with. *)

Record ContinuationPart : Type := Part {
  part_index : N;
  is_extended : bool;
  raw_fragment : jsstring
}.

(** The part a match of the continuation pattern stands for. *)
Definition part_of_match (m : match_result) : ContinuationPart :=
  Part (digits_value 10 (default [] (group m 1)))
       (truthy (default [] (group m 2)))
       (default [] (group m 3)).

(** The parts in the order of the header: every match of the pattern
    ([match_all] always finds them, see [match_all_some]). *)
Definition continuation_parts (contentDisposition : jsstring)
  : list ContinuationPart :=
  part_of_match <$>
    default [] (match_all (toParamRegExp filename_continuation)
                          contentDisposition).

(** The parts that count: those before a second part of index 0. *)
Fixpoint until_second_zero (seen : bool) (ps : list ContinuationPart)
  : list ContinuationPart :=
  match ps with
  | [] => []
  | p :: rest =>
      if (part_index p =? 0)%N then
        if seen then [] else p :: until_second_zero true rest
      else p :: until_second_zero seen rest
  end.

(** Of the parts with one index the first counts. *)
Definition first_with_index (n : N) (ps : list ContinuationPart)
  : option ContinuationPart :=
  List.find (fun p => (part_index p =? n)%N) ps.

(** The parts of index [n], [n + 1], ... up to the first index that is
    missing; [k] parts at most. *)
Fixpoint contiguous_from (ps : list ContinuationPart) (n : N) (k : nat)
  : list ContinuationPart :=
  match k with
  | O => []
  | S k' =>
      match first_with_index n ps with
      | Some p => p :: contiguous_from ps (n + 1) k'
      | None => []
      end
  end.

Section Reassembler.

Variable TextDecoder_decode : jsstring -> jsstring -> option jsstring.

(** Unquote; if extended, percent-unescape, and at index 0 decode the
    charset and language prefix. *)
Definition decode_part (p : ContinuationPart) : M jsstring :=
  let* text := rfc2616unquote (raw_fragment p) in
  if is_extended p then
    let text := unescape text in
    if (part_index p =? 0)%N then rfc5987decode TextDecoder_decode text
    else ret text
  else ret text.

Fixpoint decode_parts (ps : list ContinuationPart) : M (list jsstring) :=
  match ps with
  | [] => ret []
  | p :: rest =>
      let* text := decode_part p in
      let* texts := decode_parts rest in
      ret (text :: texts)
  end.

Definition reassemble (ps : list ContinuationPart) : M jsstring :=
  let* texts := decode_parts (contiguous_from ps 0 (length ps)) in
  ret (concat texts).

End Reassembler.

(** *** The table [rfc2231getparam] builds *)

Abbreviation table := (jsarray (option jsstring * option jsstring)).

(** The [while] loop over the matches [exec] finds, one after the other. *)
Fixpoint collect (ms : list match_result) (matches : table) : table :=
  match ms with
  | [] => matches
  | m :: ms' =>
      let n := part_index (part_of_match m) in
      if array_has matches n then
        if (n =? 0)%N then matches else collect ms' matches
      else collect ms' (array_set matches n (group m 2, group m 3))
  end.

(** A match of the continuation pattern: index and fragment are there. *)
Definition continuation_match (m : match_result) : Prop :=
  (exists w, group m 1 = Some w /\
             parseInt w 10 = ret (digits_value 10 w)) /\
  (exists w, group m 3 = Some w).


(** ** The three forms, named *)

Section Forms.

Variable TextDecoder_decode : jsstring -> jsstring -> option jsstring.
Variable atob : jsstring -> option jsstring.

(** The first form, [filename*=], up to Encoding Fixup. *)
Definition extended_value (tmp : match_result) : M jsstring :=
  let* tmp := defined (group tmp 1) in
  let* filename := rfc2616unquote tmp in
  let filename := unescape filename in
  let* filename := rfc5987decode TextDecoder_decode filename in
  rfc2047decode TextDecoder_decode atob filename.

(** The first form, whole. *)
Definition extended_form (tmp : match_result) : M jsstring :=
  let* filename := extended_value tmp in
  fixupEncoding TextDecoder_decode filename.

(** The second form, on what [rfc2231getparam] returned. *)
Definition continuation_form (tmp : jsstring) : M jsstring :=
  let* filename := rfc2047decode TextDecoder_decode atob tmp in
  fixupEncoding TextDecoder_decode filename.

(** The operation as it would be with Encoding Fixup on the plain
    form only. *)
Definition fixup_on_plain_form_only (contentDisposition : jsstring)
  : M jsstring :=
  let* _ := set_needsEncodingFixup true in
  match exec (toParamRegExp filename_star) contentDisposition 0 with
  | Some tmp => extended_value tmp
  | None =>
      let* tmp := rfc2231getparam TextDecoder_decode contentDisposition in
      if truthy tmp then rfc2047decode TextDecoder_decode atob tmp
      else plain_form TextDecoder_decode atob contentDisposition
  end.

End Forms.

(** The number of parts of index 0. *)
Definition count_zero (ps : list ContinuationPart) : nat :=
  length (filter (fun p => part_index p = 0%N) ps).


(** ** Words of the claims *)

(** Ends in [.pdf], in either case. *)
Definition ends_with_pdf (filename : jsstring) : Prop :=
  exists stem ext, filename = stem ++ ext /\ lower <$> ext = str ".pdf".

(** The labels [/^utf-?8$/i] accepts. *)
Definition is_utf8_label (encoding : jsstring) : Prop :=
  lower <$> encoding = str "utf8" \/ lower <$> encoding = str "utf-8".

(** A code unit in 0x80-0xFF, and one in 0x00-0x19 or 0x80-0xFF. *)
Definition high (c : N) : Prop := (128 <= c <= 255)%N.
Definition control_or_high_unit (c : N) : Prop := (c <= 25)%N \/ high c.


(** ** What a match tells

    For a pattern [r]: the groups it may write, the groups every match
    writes, whether every match takes at least one code unit, and whether
    every code unit it takes satisfies a property [P]. *)

Module Footprint.

Fixpoint has_group (i : nat) (r : regex) : bool :=
  match r with
  | Seq r1 r2 | Alt r1 r2 => has_group i r1 || has_group i r2
  | Star r1 => has_group i r1
  | Group j r1 => Nat.eqb i j || has_group i r1
  | _ => false
  end.

Fixpoint sets (i : nat) (r : regex) : bool :=
  match r with
  | Seq r1 r2 => sets i r1 || sets i r2
  | Alt r1 r2 => sets i r1 && sets i r2
  | Group j r1 => Nat.eqb i j || sets i r1
  | _ => false
  end.

Fixpoint consumes (r : regex) : bool :=
  match r with
  | Char _ | Class _ _ | Dot => true
  | Seq r1 r2 => consumes r1 || consumes r2
  | Alt r1 r2 => consumes r1 && consumes r2
  | Group _ r1 => consumes r1
  | _ => false
  end.

Fixpoint only (P : N -> Prop) (ci : bool) (r : regex) : Prop :=
  match r with
  | Char c => forall x, canonicalize ci x = canonicalize ci c -> P x
  | Class neg rs => forall x, class_matches neg rs x = true -> P x
  | Dot => forall x, line_terminator x = false -> P x
  | Seq r1 r2 | Alt r1 r2 => only P ci r1 /\ only P ci r2
  | Star r1 | Group _ r1 => only P ci r1
  | _ => True
  end.

(** The body of group [i] when every match of [r] goes through it:
    the group stands in the sequence [r] is, and nothing after it
    writes it again. *)
Fixpoint spine (i : nat) (r : regex) : option regex :=
  match r with
  | Group j body => if Nat.eqb i j then Some body else None
  | Seq r1 r2 =>
      match spine i r2 with
      | Some body => Some body
      | None => if has_group i r2 then None else spine i r1
      end
  | _ => None
  end.

Section Extent.
Variable P : N -> Prop.

(** [s'] is what a match from [s] leads to. *)
Record ext (G S : nat -> bool) (c : bool) (o : Prop) (s s' : state)
  : Prop := Ext {
  ext_pos : pos s <= pos s';
  ext_rest : rest s' = drop (pos s' - pos s) (rest s);
  ext_len : pos s' - pos s <= length (rest s);
  ext_caps_len : length (caps s') = length (caps s);
  ext_keep : forall i, G i = false -> caps s' !! i = caps s !! i;
  ext_mono : forall i x, caps s !! i = Some (Some x) ->
                         exists y, caps s' !! i = Some (Some y);
  ext_sets : forall i, S i = true -> i < length (caps s) ->
                       exists y, caps s' !! i = Some (Some y);
  ext_consumes : c = true -> pos s < pos s';
  ext_only : o -> Forall P (take (pos s' - pos s) (rest s))
}.

Definition footprint (ci : bool) (r : regex) : state -> state -> Prop :=
  ext (fun i => has_group i r) (fun i => sets i r) (consumes r)
      (only P ci r).

(** What group [i] holds after a match: a string [w] the body matched. *)
Definition captured (ci : bool) (body : regex) (w : jsstring) : Prop :=
  (only P ci body -> Forall P w) /\ (consumes body = true -> w <> []).

(** What [exec] returns. *)
Record match_ok (re : RegExp.t) (s : jsstring) (from : nat)
       (m : match_result) : Prop := MatchOk {
  ok_from : from <= index m;
  ok_index : index m <= endIndex m;
  ok_end : endIndex m <= length s;
  ok_consumes : consumes (pattern re) = true -> index m < endIndex m;
  ok_sets : forall j, sets j (pattern re) = true -> 0 < j ->
                      j <= ngroups (pattern re) ->
                      exists w, group m j = Some w;
  ok_spine : forall j body, spine j (pattern re) = Some body -> 0 < j ->
                            j <= ngroups (pattern re) ->
                            exists w, group m j = Some w /\
                                      captured (ignoreCase re) body w
}.

End Extent.

End Footprint.

Import Footprint.

(** ** Definitions the proofs use *)

(** [s1] can follow [s] in a match: further on in the same input. *)
Definition follows (s s1 : state) : Prop :=
  pos s <= pos s1 /\ pos s1 + length (rest s1) = pos s + length (rest s).

(** A computation that returns, whatever the flag. *)
Definition returns {A} (m : M A) : Prop :=
  forall f, exists a f', m f = (Ok a, f').

(** The table [rfc2231getparam] builds. *)

Definition entry (m : match_result) : option jsstring * option jsstring :=
  (group m 2, group m 3).

(** The first match of index [n] before a second match of index 0. *)
Fixpoint first_match (n : N) (seen : bool) (ms : list match_result)
  : option match_result :=
  match ms with
  | [] => None
  | m :: ms' =>
      let i := part_index (part_of_match m) in
      if (i =? 0)%N then
        if seen then None
        else if (i =? n)%N then Some m else first_match n true ms'
      else if (i =? n)%N then Some m else first_match n seen ms'
  end.

(** An index in the table lies below [length]. *)
Definition wf_table (t : table) : Prop :=
  forall n, (n < 4294967295)%N -> is_Some (props t !! n) -> (n < length_of t)%N.


(** ** How a computation moves the flag *)

(** The flag a computation ends with is related by [R] to the one it
    started with. *)
Definition flag_moves (R : bool -> bool -> Prop) {A} (m : M A) : Prop :=
  forall f r f', m f = (r, f') -> R f f'.

(** A computation that may clear [needsEncodingFixup] and never sets
    it: the flag it ends with is the one it started with, or cleared. *)
Definition cleared (f f' : bool) : Prop := f' = f \/ f' = false.
Definition clears_only {A} (m : M A) : Prop := flag_moves cleared m.

(** A computation that leaves [needsEncodingFixup] alone. *)
Definition keeps_flag {A} (m : M A) : Prop :=
  flag_moves (fun f f' => f' = f) m.

(** ** Where a word stands in a string *)

(** [w] stands in [s] at index [i], in either case of its letters. *)
Definition stands_at (w s : jsstring) (i : nat) : Prop :=
  lower <$> take (length w) (drop i s) = lower <$> w.

Definition mentions (w s : jsstring) : Prop := exists i, stands_at w s i.

(** [w] is a part of [s] as it is written. *)
Definition holds (w s : jsstring) : Prop :=
  exists before after, s = before ++ w ++ after.

(** ** Replacing every match

    What [s.replace(re, ...)] with the [g] flag comes to when [lm]
    tells, for the input from an index on, how long the match at that
    index is and what is put in its place: the input is walked from left
    to right, a match is replaced and stepped over, any other code unit
    is kept. [fuel] bounds the steps. *)
Fixpoint substitute (lm : jsstring -> option (nat * jsstring)) (fuel : nat)
         (l : jsstring) : jsstring :=
  match fuel with
  | O => []
  | S fuel' =>
      match lm l with
      | Some (n, out) => out ++ substitute lm fuel' (drop n l)
      | None =>
          match l with
          | [] => []
          | x :: t => x :: substitute lm fuel' t
          end
      end
  end.

(** ** Quoted strings

    The quoted-string of RFC 2616 for a text: a backslash before each
    double quote and each backslash of the text, and double quotes
    around. *)
Definition quoted_pair (c : N) : jsstring :=
  if ((c =? 34) || (c =? 92))%N then [92%N; c] else [c].

Definition quoted_text (s : jsstring) : jsstring := concat (quoted_pair <$> s).

Definition quoted_string (s : jsstring) : jsstring :=
  dquote :: quoted_text s ++ [dquote].

(** The match of [/\\(.)/] at the start of [l] and its ['$1']. *)
Definition lm_backslash_pair (l : jsstring) : option (nat * jsstring) :=
  match l with
  | a :: x :: _ =>
      if (a =? 92)%N && negb (line_terminator x) then Some (2, [x]) else None
  | _ => None
  end.

(** [rfc2616unquote] after the opening quote, with the piece before the
    next separator begun as [cur] (in reverse). *)
Definition unquote_from (after cur : jsstring) : M jsstring :=
  let* parts := unquote_parts (split2 92 34 after cur) in
  ret (join [dquote] parts).

(** ** Encoded words

    The encoded word of RFC 2047 for a charset, an encoding letter and
    an encoded text, and the Q encoding of a string of bytes: a byte
    stands for itself when it is a letter, a digit or one of [!*+-/], a
    space is an underscore, and any other byte is [=XX]. *)
Definition encoded_word_of (charset : jsstring) (encoding : N)
           (text : jsstring) : jsstring :=
  str "=?" ++ charset ++ [63%N; encoding; 63%N] ++ text ++ str "?=".

Definition word_or_hyphen (c : N) : bool := in_ranges ((45, 45)%N :: word) c.

Definition q_safe (c : N) : bool :=
  in_ranges [(48, 57); (65, 90); (97, 122); (33, 33); (42, 43); (45, 45);
             (47, 47)]%N c.

Definition q_encode_byte (c : N) : jsstring :=
  if q_safe c then [c]
  else if (c =? 32)%N then [95%N]
  else [61%N; hex_digit (c / 16); hex_digit (c mod 16)].

Definition q_encode (bytes : jsstring) : jsstring :=
  concat (q_encode_byte <$> bytes).

(** The matches of [/_/] and of [/=([0-9a-fA-F]{2})/] at the start of
    [l], and what [rfc2047decode] puts in their place. *)
Definition lm_underscore (l : jsstring) : option (nat * jsstring) :=
  match l with
  | a :: _ => if (a =? 95)%N then Some (1, [32%N]) else None
  | [] => None
  end.

Definition lm_hex_escape (l : jsstring) : option (nat * jsstring) :=
  match l with
  | a :: h1 :: h2 :: _ =>
      if (a =? 61)%N && is_hex h1 && is_hex h2
      then Some (3, fromCharCode (hex2 h1 h2)) else None
  | _ => None
  end.

(** ** Headers *)

(** White space, [\s]. *)
Definition is_space (c : N) : bool := in_ranges white_space c.

(** A code unit that is neither [;] nor [=]: what a disposition type
    before the first parameter is made of. *)
Definition not_separator (c : N) : Prop := c <> 59%N /\ c <> 61%N.

(** A code unit of a token of a header as the theorems take it: a
    printable ASCII character that is no space and no [;]. *)
Definition token_char (c : N) : Prop := (33 <= c <= 126)%N /\ c <> 59%N.

(** A pattern that matches a parameter name only where [filename*]
    stands. *)
Definition needs_star (attr : regex) : Prop :=
  forall s k e,
    rmatch true attr s k = Some e ->
    lower <$> take 8 (rest s) = str "filename" /\
    head (drop 8 (rest s)) = Some 42%N.

(** What may follow a token: nothing, a [;] or white space. *)
Definition ends_token (post : jsstring) : Prop :=
  match post with
  | [] => True
  | c :: _ => c = 59%N \/ is_space c = true
  end.

(** ** Continuation parameters as they are written

    [; filename*n=value], or [; filename*n*=value] for an extended
    one: white space or none after the [;], the name in any case of its
    letters, the index as it is written in digits, and the value. *)
Record Continuation : Type := Written {
  spaces_of : jsstring;
  name_of : jsstring;
  digits_of : jsstring;
  extended : bool;
  value_of : jsstring
}.

Definition mark_of (p : Continuation) : jsstring :=
  if extended p then [42%N] else [].

Definition indexed_name (p : Continuation) : jsstring :=
  name_of p ++ 42%N :: digits_of p ++ mark_of p.

Definition written (p : Continuation) : jsstring :=
  59%N :: spaces_of p ++ indexed_name p ++ 61%N :: value_of p.

(** An index in decimal digits: the pattern [(?!0\d)\d+] takes [0] and
    the digit strings that do not begin with [0]. With 15 digits at
    most its number is below 2^53, where [parseInt] is exact. *)
Definition index_digits (d : jsstring) : Prop :=
  d <> [] /\ Forall (fun c => is_digit c = true) d /\
  (head d = Some 48%N -> d = [48%N]) /\
  length d <= 15.

(** A token: printable ASCII without [;], not begun by a double quote. *)
Definition is_token (value : jsstring) : Prop :=
  value <> [] /\ Forall token_char value /\ head value <> Some dquote.

(** A value: a token, or a quoted string of a text without double quote
    and backslash. *)
Definition is_value (value : jsstring) : Prop :=
  is_token value \/
  exists text, text <> [] /\ Forall (fun c => c <> 34%N /\ c <> 92%N) text /\
               value = quoted_string text.

Definition well_written (p : Continuation) : Prop :=
  Forall (fun c => is_space c = true) (spaces_of p) /\
  lower <$> name_of p = str "filename" /\
  index_digits (digits_of p) /\
  is_value (value_of p).

(** The part of the data model a written parameter stands for. *)
Definition part_written (p : Continuation) : ContinuationPart :=
  Part (digits_value 10 (digits_of p)) (extended p) (value_of p).

(** The captures the name of a continuation parameter fills: the
    digits of its index and its mark. *)
Definition found_in (par : Continuation) (c : list (option jsstring))
  : list (option jsstring) :=
  <[2 := Some (mark_of par)]> (<[1 := Some (digits_of par)]> c).

(** Parts whose indices are their places in the list. *)
Definition in_order (ps : list ContinuationPart) : Prop :=
  forall i p, ps !! i = Some p -> part_index p = N.of_nat i.

(** ** Headers of parameters of the three forms

    A header as it is written: a disposition type and parameters, each
    a [;], white space or none, the name [filename] in any case of its
    letters, what makes the form ([*] for the extended one, [*n] or
    [*n*] for a continuation, nothing for the plain one), [=] and a
    value. *)
Inductive form : Type :=
| ExtendedForm
| ContinuationForm (digits : jsstring) (extended : bool)
| PlainForm.

Record header_parameter : Type := HeaderParameter {
  hp_form : form;
  hp_spaces : jsstring;
  hp_name : jsstring;
  hp_value : jsstring
}.

Definition suffix_of (fm : form) : jsstring :=
  match fm with
  | ExtendedForm => [42%N]
  | ContinuationForm digits extended =>
      42%N :: digits ++ (if extended then [42%N] else [])
  | PlainForm => []
  end.

Definition written_as (p : header_parameter) : jsstring :=
  59%N :: hp_spaces p ++ (hp_name p ++ suffix_of (hp_form p))
       ++ 61%N :: hp_value p.

(** A value that every stage leaves as it is: a token without [%] and
    ['], not begun by a double quote or by [=]. *)
Definition simple_char (c : N) : Prop :=
  token_char c /\ c <> 37%N /\ c <> 39%N.

Definition simple_value (value : jsstring) : Prop :=
  value <> [] /\ Forall simple_char value /\
  head value <> Some dquote /\ head value <> Some 61%N.

Definition well_formed (p : header_parameter) : Prop :=
  Forall (fun c => is_space c = true) (hp_spaces p) /\
  lower <$> hp_name p = str "filename" /\
  simple_value (hp_value p) /\
  match hp_form p with
  | ContinuationForm digits _ => index_digits digits
  | _ => True
  end.

(** What a parameter is to each of the three forms. *)
Definition extended_value_of (p : header_parameter) : option jsstring :=
  match hp_form p with ExtendedForm => Some (hp_value p) | _ => None end.

Definition part_of (p : header_parameter) : option ContinuationPart :=
  match hp_form p with
  | ContinuationForm digits extended =>
      Some (Part (digits_value 10 digits) extended (hp_value p))
  | _ => None
  end.

Definition plain_value_of (p : header_parameter) : option jsstring :=
  match hp_form p with PlainForm => Some (hp_value p) | _ => None end.

(** The fragments of the parts that count, in the order of their
    indices: those scanned before a second part of index 0, from index
    0 up to the first index that is missing. *)
Definition fragments_in_order (parts : list ContinuationPart) : jsstring :=
  let scanned := until_second_zero false parts in
  concat (raw_fragment <$> contiguous_from scanned 0 (length scanned)).

(** The filename of a header of such parameters, by the priority of
    the forms: the value of the first extended parameter; without one,
    the continuations together unless that is empty; then the value of
    the first plain parameter; the empty string when there is none. *)
Definition by_priority (ps : list header_parameter) : jsstring :=
  match omap extended_value_of ps with
  | value :: _ => value
  | [] =>
      match fragments_in_order (omap part_of ps) with
      | [] => default [] (head (omap plain_value_of ps))
      | c :: filename => c :: filename
      end
  end.

(** The captures after the whole match that a pattern of
    [toParamRegExp] leaves at a parameter, [None] where it does not
    match, and the first match among parameters written one after the
    other from index [i] on. *)
Definition found_star (p : header_parameter) : option (list (option jsstring)) :=
  match hp_form p with
  | ExtendedForm => Some [Some (hp_value p)]
  | _ => None
  end.

Definition found_continuation (p : header_parameter)
  : option (list (option jsstring)) :=
  match hp_form p with
  | ContinuationForm digits extended =>
      Some [Some digits; Some (if extended then [42%N] else []);
            Some (hp_value p)]
  | _ => None
  end.

Definition found_plain (p : header_parameter) : option (list (option jsstring)) :=
  match hp_form p with
  | PlainForm => Some [Some (hp_value p)]
  | _ => None
  end.

Fixpoint first_found (found : header_parameter -> option (list (option jsstring)))
         (i : nat) (ps : list header_parameter) : option match_result :=
  match ps with
  | [] => None
  | p :: ps' =>
      match found p with
      | Some captures =>
          Some (Match i (i + length (written_as p))
                      (Some (written_as p) :: captures))
      | None => first_found found (i + length (written_as p)) ps'
      end
  end.

(** A pattern of [toParamRegExp] that matches at the parameters [found]
    tells, with those captures, and at no other. *)
Definition matches_as (attr : regex)
           (found : header_parameter -> option (list (option jsstring)))
  : Prop :=
  forall p rest i,
    well_formed p -> ends_token rest ->
    match_at (toParamRegExp attr) i (written_as p ++ rest)
    = match found p with
      | Some captures =>
          Some (Match i (i + length (written_as p))
                      (Some (written_as p) :: captures))
      | None => None
      end.

(** ** What a fragment is written to say

    The raw fragment of a continuation part is a token, or a quoted
    string of RFC 2616 with a backslash before each double quote and
    each backslash of its text. *)
Inductive fragment : Type :=
| TokenFragment (text : jsstring)
| QuotedFragment (text : jsstring).

Definition fragment_of (fr : fragment) : jsstring :=
  match fr with
  | TokenFragment text => text
  | QuotedFragment text => quoted_string text
  end.

Definition said_by (fr : fragment) : jsstring :=
  match fr with TokenFragment text | QuotedFragment text => text end.

(** A token does not begin with a double quote; the text of a quoted
    string may be any that does not end in a backslash (see
    [rfc2616unquote] on those). *)
Definition well_quoted (fr : fragment) : Prop :=
  match fr with
  | TokenFragment text => head text <> Some dquote
  | QuotedFragment text => last text <> Some 92%N
  end.

(** ** The reassembler as claim C5 words it

    Every part of the header counts, also those after a second one of
    index 0, and part 0 is decoded by its charset prefix whether it is
    marked extended or not. *)
Section AsClaimed.

Variable TextDecoder_decode : jsstring -> jsstring -> option jsstring.

Definition decode_part_as_claimed (p : ContinuationPart) : M jsstring :=
  let* text := rfc2616unquote (raw_fragment p) in
  let text := if is_extended p then unescape text else text in
  if (part_index p =? 0)%N then rfc5987decode TextDecoder_decode text
  else ret text.

Fixpoint decode_parts_as_claimed (ps : list ContinuationPart)
  : M (list jsstring) :=
  match ps with
  | [] => ret []
  | p :: rest =>
      let* text := decode_part_as_claimed p in
      let* texts := decode_parts_as_claimed rest in
      ret (text :: texts)
  end.

Definition reassemble_as_claimed (ps : list ContinuationPart) : M jsstring :=
  let* texts :=
    decode_parts_as_claimed (contiguous_from ps 0 (length ps)) in
  ret (concat texts).

End AsClaimed.

(** * Facts *)

(** ** Matches *)

Section FootprintFacts.

Variable P : N -> Prop.

Local Abbreviation ext := (Footprint.ext P).
Local Abbreviation footprint := (Footprint.footprint P).
Local Abbreviation captured := (Footprint.captured P).
Local Abbreviation match_ok := (Footprint.match_ok P).

Lemma ext_refl G o s : ext G (fun _ => false) false o s s.
Proof.
  split; try done.
  - by rewrite Nat.sub_diag.
  - rewrite Nat.sub_diag. lia.
  - eauto.
  - intros _. rewrite Nat.sub_diag. constructor.
Qed.

Lemma ext_weaken G S c (o : Prop) G' S' c' (o' : Prop) s s' :
  ext G S c o s s' ->
  (forall i, G' i = false -> G i = false) ->
  (forall i, S' i = true -> S i = true) ->
  (c' = true -> c = true) ->
  (o' -> o) ->
  ext G' S' c' o' s s'.
Proof.
  intros [] HG HS Hc Ho. split; eauto.
Qed.

Lemma ext_trans G1 S1 c1 (o1 : Prop) G2 S2 c2 (o2 : Prop) s s1 s2 :
  ext G1 S1 c1 o1 s s1 ->
  ext G2 S2 c2 o2 s1 s2 ->
  ext (fun i => G1 i || G2 i) (fun i => S1 i || S2 i) (c1 || c2)
      (o1 /\ o2) s s2.
Proof.
  intros [p1 r1 l1 n1 k1 m1 t1 q1 f1] [p2 r2 l2 n2 k2 m2 t2 q2 f2].
  assert (Hsum : pos s2 - pos s = (pos s1 - pos s) + (pos s2 - pos s1)) by lia.
  split.
  - lia.
  - rewrite r2, r1, drop_drop. f_equal. lia.
  - rewrite r1, length_drop in l2. lia.
  - congruence.
  - intros i Hi. apply orb_false_iff in Hi as [H1 H2].
    rewrite k2, k1; done.
  - intros i x Hx. destruct (m1 i x Hx) as [y Hy]. eauto.
  - intros i Hi Hlt. apply orb_true_iff in Hi as [Hi|Hi].
    + destruct (t1 i Hi Hlt) as [y Hy]. eauto.
    + apply t2; [done | lia].
  - intros Hc. apply orb_true_iff in Hc as [Hc|Hc].
    + specialize (q1 Hc). lia.
    + specialize (q2 Hc). lia.
  - intros [H1 H2]. rewrite Hsum, <- take_take_drop.
    apply Forall_app. split; [auto |]. rewrite <- r1. auto.
Qed.

Lemma eat_inv s (ok : N -> bool) k e G :
  eat s ok k = Some e ->
  exists s', k s' = Some e /\
             ext G (fun _ => false) true (forall x, ok x = true -> P x) s s'.
Proof.
  unfold eat. destruct s as [p l c]; simpl.
  destruct l as [|x t]; [done |].
  destruct (ok x) eqn:Hok; [| done].
  intros Hk. eexists. split; [exact Hk |].
  assert (H1 : S p - p = 1) by lia.
  split; simpl; rewrite ?H1; simpl; rewrite ?take_0; eauto; try lia.
Qed.


Lemma star_loop_inv ci r k e :
  (forall s k e, rmatch ci r s k = Some e ->
                 exists s', k s' = Some e /\ footprint ci r s s') ->
  forall fuel s,
    star_loop (rmatch ci r) k fuel s = Some e ->
    exists s', k s' = Some e /\ footprint ci (Star r) s s'.
Proof.
  intros IH. induction fuel as [|fuel IHfuel]; intros s H; simpl in H.
  - exists s. split; [done |]. apply ext_refl.
  - destruct (rmatch ci r s _) as [e0|] eqn:E.
    + injection H as ->.
      apply IH in E as (s1 & Hs1 & He1).
      destruct (pos s <? pos s1); [| done].
      apply IHfuel in Hs1 as (s' & Hk & He2).
      exists s'. split; [done |].
      eapply ext_weaken; [exact (ext_trans _ _ _ _ _ _ _ _ _ _ _ He1 He2) | ..];
        simpl; intros; rewrite ?orb_diag in *; tauto || done.
    + exists s. split; [done |]. apply ext_refl.
Qed.

(** Every match of [r] hands its continuation a state that extends the
    one it started from as [r] allows. *)
Lemma rmatch_inv ci r : forall s k e,
  rmatch ci r s k = Some e ->
  exists s', k s' = Some e /\ footprint ci r s s'.
Proof.
  induction r as [| c | neg rs | | | | r1 IH1 r2 IH2 | r1 IH1 r2 IH2
                  | r1 IH1 | j r1 IH1 | r1 IH1];
    intros s k e H; simpl in H.
  - exists s. split; [done |]. apply ext_refl.
  - apply (eat_inv _ _ _ _ (fun _ => false)) in H as (s' & Hk & He).
    exists s'. split; [done |].
    eapply ext_weaken; [exact He | ..]; simpl; auto.
    intros Ho x Hx. apply Ho. by apply N.eqb_eq.
  - apply (eat_inv _ _ _ _ (fun _ => false)) in H as (s' & Hk & He).
    exists s'. split; [done |].
    eapply ext_weaken; [exact He | ..]; simpl; auto.
  - apply (eat_inv _ _ _ _ (fun _ => false)) in H as (s' & Hk & He).
    exists s'. split; [done |].
    eapply ext_weaken; [exact He | ..]; simpl; auto.
    intros Ho x Hx. apply Ho. by apply negb_true_iff.
  - destruct (pos s =? 0)%nat; [| done].
    exists s. split; [done |]. apply ext_refl.
  - destruct (rest s); [| done].
    exists s. split; [done |]. apply ext_refl.
  - apply IH1 in H as (s1 & H & He1).
    apply IH2 in H as (s2 & H & He2).
    exists s2. split; [done |]. exact (ext_trans _ _ _ _ _ _ _ _ _ _ _ He1 He2).
  - destruct (rmatch ci r1 s k) as [e0|] eqn:E.
    + injection H as ->. apply IH1 in E as (s1 & H & He1).
      exists s1. split; [done |].
      eapply ext_weaken; [exact He1 | ..]; simpl; intros;
        rewrite ?orb_false_iff, ?andb_true_iff in *; tauto.
    + apply IH2 in H as (s1 & H & He1).
      exists s1. split; [done |].
      eapply ext_weaken; [exact He1 | ..]; simpl; intros;
        rewrite ?orb_false_iff, ?andb_true_iff in *; tauto.
  - eapply star_loop_inv; eauto.
  - apply IH1 in H as (s1 & H & [p r l n kp m t q f]).
    exists (capture j s s1). split; [done |].
    split; simpl; auto.
    + by rewrite length_insert.
    + intros i Hi. apply orb_false_iff in Hi as [Hij Hi].
      apply Nat.eqb_neq in Hij.
      rewrite list_lookup_insert_ne by done. auto.
    + intros i x Hx. destruct (decide (i = j)) as [->|Hne].
      * rewrite list_lookup_insert_eq; [eauto |].
        rewrite n. by apply lookup_lt_Some in Hx.
      * rewrite list_lookup_insert_ne by done. eauto.
    + intros i Hi Hlt. destruct (decide (i = j)) as [->|Hne].
      * rewrite list_lookup_insert_eq; [eauto | lia].
      * rewrite list_lookup_insert_ne by done. apply t; [| done].
        apply orb_true_iff in Hi as [Hi|Hi]; [| done].
        by apply Nat.eqb_eq in Hi.
  - destruct (rmatch ci r1 s Some); [done |].
    exists s. split; [done |]. apply ext_refl.
Qed.


Lemma spine_inv ci i r : forall body s k e,
  spine i r = Some body ->
  i < length (caps s) ->
  rmatch ci r s k = Some e ->
  exists s' w, k s' = Some e /\ caps s' !! i = Some (Some w) /\
               length (caps s') = length (caps s) /\
               captured ci body w.
Proof.
  induction r as [| | | | | | r1 IH1 r2 IH2 | | | j r1 IH1 |];
    intros body s k e Hsp Hlt H; simpl in Hsp; try done.
  - simpl in H. destruct (spine i r2) as [b2|] eqn:E2.
    + injection Hsp as ->.
      apply rmatch_inv in H as (s1 & H & He1).
      apply (IH2 body) in H as (s' & w & Hk & Hw & Hlen & Hc); [| done |].
      * exists s', w. repeat split; try done; try apply Hc.
        rewrite Hlen. apply He1.
      * rewrite (ext_caps_len _ _ _ _ _ _ _ He1). done.
    + destruct (has_group i r2) eqn:Hg; [done |].
      apply (IH1 body) in H as (s1 & w & H & Hw & Hlen & Hc); [| done..].
      apply rmatch_inv in H as (s' & Hk & He2).
      exists s', w. repeat split; try done; try apply Hc.
      * rewrite (ext_keep _ _ _ _ _ _ _ He2) by done. done.
      * rewrite (ext_caps_len _ _ _ _ _ _ _ He2). done.
  - destruct (Nat.eqb_spec i j) as [->|]; [| done]. injection Hsp as ->.
    simpl in H. apply rmatch_inv in H as (s1 & Hk & He).
    exists (capture j s s1), (take (pos s1 - pos s) (rest s)).
    pose proof (ext_caps_len _ _ _ _ _ _ _ He) as Hlen.
    repeat split; try done.
    + simpl. apply list_lookup_insert_eq. lia.
    + simpl. by rewrite length_insert.
    + apply He.
    + intros Hc Hnil. apply (ext_consumes _ _ _ _ _ _ _ He) in Hc.
      pose proof (ext_len _ _ _ _ _ _ _ He).
      apply (f_equal length) in Hnil. rewrite length_take in Hnil.
      simpl in Hnil. lia.
Qed.

Lemma group_insert_0 (c : list (option jsstring)) x j :
  0 < j -> default None (<[0 := x]> c !! j) = default None (c !! j).
Proof. intros. by rewrite list_lookup_insert_ne by lia. Qed.

Lemma match_at_ok re i l m :
  match_at re i l = Some m ->
  index m = i /\ match_ok re (replicate i 0%N ++ l) i m.
Proof.
  unfold match_at.
  destruct (rmatch _ _ _ _) as [e|] eqn:E; [| done].
  intros [= <-]. split; [done |].
  pose proof E as E'.
  apply rmatch_inv in E' as (s' & [= ->] & He).
  pose proof (ext_pos _ _ _ _ _ _ _ He) as Hp.
  pose proof (ext_len _ _ _ _ _ _ _ He) as Hl.
  pose proof (ext_caps_len _ _ _ _ _ _ _ He) as Hc.
  simpl in *. rewrite length_replicate in Hc.
  split; simpl; try lia.
  - rewrite length_app, length_replicate. lia.
  - intros Hcons. apply (ext_consumes _ _ _ _ _ _ _ He Hcons).
  - intros j Hj H0 Hn. unfold group; simpl.
    rewrite group_insert_0 by done.
    destruct (ext_sets _ _ _ _ _ _ _ He j Hj) as [y Hy].
    { simpl. rewrite length_replicate. lia. }
    rewrite Hy. eauto.
  - intros j body Hsp H0 Hn. unfold group; simpl.
    rewrite group_insert_0 by done.
    eapply spine_inv in E as (s' & w & [= ->] & Hw & _ & Hcap); [| done |].
    + rewrite Hw. eauto.
    + simpl. rewrite length_replicate. lia.
Qed.

Lemma match_ok_shift re x l i m :
  match_ok re (replicate (S i) 0%N ++ l) (S i) m ->
  match_ok re (replicate i 0%N ++ x :: l) i m.
Proof.
  intros []. split; auto; try lia.
  rewrite length_app, length_replicate in *. simpl in *. lia.
Qed.

Lemma search_ok re : forall l i m,
  search re i l = Some m -> match_ok re (replicate i 0%N ++ l) i m.
Proof.
  induction l as [|x l IH]; intros i m H; simpl in H.
  - destruct (match_at re i []) eqn:E; [| done].
    injection H as ->. by apply match_at_ok in E as [_ ?].
  - destruct (match_at re i (x :: l)) eqn:E.
    + injection H as ->. by apply match_at_ok in E as [_ ?].
    + apply IH in H. by apply match_ok_shift.
Qed.

Lemma exec_ok re s from m :
  exec re s from = Some m -> match_ok re s from m.
Proof.
  unfold exec. destruct (Nat.ltb_spec (length s) from) as [|Hle]; [done |].
  intros Hs%search_ok. destruct Hs as [? ? He ? ? ?]. split; auto.
  rewrite length_app, length_replicate, length_drop in He. lia.
Qed.

End FootprintFacts.

(** ** The fuel of a star

    The matcher gives a star as many iterations as code units are left;
    more would change nothing. *)

Lemma follows_refl s : follows s s.
Proof. by split. Qed.

Lemma follows_trans s s1 s2 : follows s s1 -> follows s1 s2 -> follows s s2.
Proof. unfold follows. lia. Qed.

Lemma eat_ext s ok k1 k2 :
  (forall s1, follows s s1 -> k1 s1 = k2 s1) -> eat s ok k1 = eat s ok k2.
Proof.
  intros H. unfold eat. destruct s as [p [|x t] c]; simpl; [done |].
  destruct (ok x); [| done]. apply H. split; simpl; lia.
Qed.

Lemma star_loop_ext m k1 k2 :
  (forall s k1 k2, (forall s1, follows s s1 -> k1 s1 = k2 s1) ->
                   m s k1 = m s k2) ->
  forall fuel s,
    (forall s1, follows s s1 -> k1 s1 = k2 s1) ->
    star_loop m k1 fuel s = star_loop m k2 fuel s.
Proof.
  intros Hm. induction fuel as [|fuel IH]; intros s H; simpl.
  - apply H, follows_refl.
  - rewrite (H s (follows_refl s)).
    rewrite (Hm s _ (fun s1 => if (pos s <? pos s1)%nat
                               then star_loop m k2 fuel s1 else None));
      [done |].
    intros s1 Hs1. destruct (pos s <? pos s1)%nat; [| done].
    apply IH. intros s2 Hs2. apply H. by eapply follows_trans.
Qed.

(** The matcher calls its continuation on states that follow only. *)
Lemma rmatch_ext ci r : forall s k1 k2,
  (forall s1, follows s s1 -> k1 s1 = k2 s1) ->
  rmatch ci r s k1 = rmatch ci r s k2.
Proof.
  induction r as [| c | neg rs | | | | r1 IH1 r2 IH2 | r1 IH1 r2 IH2
                  | r1 IH1 | j r1 IH1 | r1 IH1];
    intros s k1 k2 H; simpl; try (by apply eat_ext).
  - apply H, follows_refl.
  - by rewrite (H s (follows_refl s)).
  - by rewrite (H s (follows_refl s)).
  - apply IH1. intros s1 Hs1. apply IH2. intros s2 Hs2.
    apply H. by eapply follows_trans.
  - by rewrite (IH1 s k1 k2 H), (IH2 s k1 k2 H).
  - by apply star_loop_ext.
  - apply IH1. intros s1 Hs1. apply H. by destruct Hs1.
  - by rewrite (H s (follows_refl s)).
Qed.

Lemma rmatch_refused ci r s : rmatch ci r s (fun _ => None) = None.
Proof.
  destruct (rmatch ci r s (fun _ => None)) as [e|] eqn:E; [| done].
  by apply (rmatch_inv (fun _ => True)) in E as (s' & ? & _).
Qed.

Lemma star_loop_fuel ci r k : forall fuel1 fuel2 s,
  length (rest s) <= fuel1 -> length (rest s) <= fuel2 ->
  star_loop (rmatch ci r) k fuel1 s = star_loop (rmatch ci r) k fuel2 s.
Proof.
  assert (Hend : forall fuel s,
             length (rest s) = 0 -> star_loop (rmatch ci r) k fuel s = k s).
  { intros [|fuel] s Hs; simpl; [done |].
    rewrite (rmatch_ext ci r s _ (fun _ => None)), rmatch_refused; [done |].
    intros s1 [? ?]. destruct (Nat.ltb_spec (pos s) (pos s1)); [lia | done]. }
  induction fuel1 as [|fuel1 IH]; intros fuel2 s H1 H2.
  { rewrite !Hend by lia. done. }
  destruct fuel2 as [|fuel2]; [rewrite !Hend by lia; done |].
  simpl.
  rewrite (rmatch_ext ci r s _
             (fun s1 => if (pos s <? pos s1)%nat
                        then star_loop (rmatch ci r) k fuel2 s1 else None));
    [done |].
  intros s1 [? ?]. destruct (Nat.ltb_spec (pos s) (pos s1)); [| done].
  apply IH; lia.
Qed.

(** A star as the matcher runs it is the star with any more fuel. *)
Lemma rmatch_star_fuel ci r s k fuel :
  length (rest s) <= fuel ->
  rmatch ci (Star r) s k = star_loop (rmatch ci r) k fuel s.
Proof. intros H. simpl. by apply star_loop_fuel. Qed.

(** ** Computations that return *)


#[global] Arguments exec : simpl never.
#[global] Arguments test : simpl never.

Lemma returns_ret {A} (a : A) : returns (ret a).
Proof. intros f. by exists a, f. Qed.

Lemma returns_bind {A B} (m : M A) (k : A -> M B) :
  returns m -> (forall a, returns (k a)) -> returns (bind m k).
Proof.
  intros Hm Hk f. unfold bind.
  destruct (Hm f) as (a & f' & ->). apply Hk.
Qed.

(** A bind whose first part is known to return some value with a
    property. *)
Lemma returns_bind_with {A B} (Q : A -> Prop) (m : M A) (k : A -> M B) :
  (forall f, exists a f', m f = (Ok a, f') /\ Q a) ->
  (forall a, Q a -> returns (k a)) -> returns (bind m k).
Proof.
  intros Hm Hk f. unfold bind.
  destruct (Hm f) as (a & f' & -> & Ha). by apply Hk.
Qed.

Lemma returns_try_throwing {A} (o : option A) (k : A -> M A) (h : M A) :
  (forall a, returns (k a)) -> returns h ->
  returns (try_catch (bind (throwing o) k) h).
Proof.
  intros Hk Hh f. unfold try_catch, bind, throwing.
  destruct o as [a|]; simpl.
  - destruct (Hk a f) as (b & f' & ->). eauto.
  - apply Hh.
Qed.

Lemma returns_defined (w : jsstring) : returns (defined (Some w)).
Proof. apply returns_ret. Qed.

Create HintDb returns.
#[local] Hint Resolve returns_ret returns_bind returns_defined : returns.

(** ** [String.prototype.replace] returns *)

Lemma match_all_from_some re s : forall fuel from,
  from <= length s + 1 -> length s + 2 <= fuel + from ->
  exists ms, match_all_from fuel re s from = Some ms /\
             length ms < fuel /\
             Forall (fun m => exists from', exec re s from' = Some m) ms.
Proof.
  induction fuel as [|fuel IH]; intros from Hf Hfuel; [lia |].
  simpl. destruct (exec re s from) as [m|] eqn:E.
  - pose proof (exec_ok (fun _ => True) _ _ _ _ E) as [? ? ? _ _ _].
    set (from' := if (endIndex m =? index m)%nat then S (endIndex m) else endIndex m).
    assert (from < from' /\ from' <= length s + 1) as [? ?].
    { unfold from'. destruct (Nat.eqb_spec (endIndex m) (index m)); lia. }
    destruct (IH from') as (ms & -> & Hlen & Hms); [lia.. |].
    exists (m :: ms). simpl. repeat split; [lia |].
    constructor; eauto.
  - exists []. repeat split; [simpl; lia | constructor].
Qed.

Lemma match_all_some re s :
  exists ms, match_all re s = Some ms /\ length ms <= S (length s) /\
             Forall (fun m => exists from, exec re s from = Some m) ms.
Proof.
  destruct (match_all_from_some re s (2 + length s) 0) as (ms & H & Hl & HF);
    [lia.. |].
  exists ms. repeat split; [done | simpl in Hl; lia | done].
Qed.

Lemma splice_returns s (f : match_result -> M jsstring) : forall ms cur,
  Forall (fun m => returns (f m)) ms -> returns (splice s cur ms f).
Proof.
  induction ms as [|m ms IH]; intros cur H; simpl.
  - apply returns_ret.
  - inversion H; subst. repeat (apply returns_bind; [auto |]; intros).
    apply returns_ret.
Qed.

Lemma replace_all_returns re (f : match_result -> M jsstring) s :
  (forall m from, exec re s from = Some m -> returns (f m)) ->
  returns (replace_all re f s).
Proof.
  intros Hf. unfold replace_all.
  destruct (match_all_some re s) as (ms & -> & _ & Hms).
  apply splice_returns. eapply Forall_impl; [exact Hms |].
  intros m [from Hm]. eauto.
Qed.

Lemma replace_first_returns re (f : match_result -> M jsstring) s :
  (forall m, exec re s 0 = Some m -> returns (f m)) ->
  returns (replace_first re f s).
Proof.
  intros Hf. unfold replace_first. destruct (exec re s 0) eqn:E.
  - apply returns_bind; [eauto |]. intros. apply returns_ret.
  - apply returns_ret.
Qed.

(** ** The program returns *)

Ltac split_leb :=
  repeat match goal with
         | |- context [N.leb ?a ?b] => destruct (N.leb_spec a b)
         | |- context [N.ltb ?a ?b] => destruct (N.ltb_spec a b)
         end.

Lemma hex_class_digit x :
  class_matches false [(48, 57); (97, 102); (65, 70)]%N x = true ->
  (is_hex x && (hex_val x <? 16)%N) = true.
Proof.
  unfold class_matches, in_ranges, is_hex, hex_val, is_digit; simpl.
  split_leb; simpl in *; try done; lia.
Qed.

Lemma digit_class_digit x :
  class_matches false digit x = true ->
  (is_hex x && (hex_val x <? 10)%N) = true.
Proof.
  unfold class_matches, in_ranges, is_hex, hex_val, is_digit; simpl.
  split_leb; simpl in *; try done; lia.
Qed.

Lemma parseInt_returns w radix :
  w <> [] ->
  Forall (fun c => (is_hex c && (hex_val c <? radix)%N) = true) w ->
  parseInt w radix = ret (digits_value radix w).
Proof.
  intros Hne HF. unfold parseInt. destruct w; [done |].
  rewrite (proj2 (forallb_forall _ _)); [done |].
  intros x Hx. rewrite Forall_forall in HF. apply HF.
  by apply list_elem_of_In.
Qed.

Section ProgramFacts.

Variable TextDecoder_decode : jsstring -> jsstring -> option jsstring.
Variable atob : jsstring -> option jsstring.

Lemma textdecode_returns encoding value :
  returns (textdecode TextDecoder_decode encoding value).
Proof.
  unfold textdecode.
  destruct (truthy encoding); [| apply returns_ret].
  destruct (negb _); [apply returns_ret |].
  apply returns_try_throwing.
  - intros a. apply returns_bind; [by intros f; eexists _, _ |].
    intros. apply returns_ret.
  - destruct (test utf8_label encoding); [| apply returns_ret].
    apply returns_try_throwing; [| apply returns_ret].
    intros a. apply returns_bind; [by intros f; eexists _, _ |].
    intros. apply returns_ret.
Qed.

Lemma fixupEncoding_returns value :
  returns (fixupEncoding TextDecoder_decode value).
Proof.
  unfold fixupEncoding.
  apply returns_bind; [by intros f; eexists _, _ |]. intros b.
  destruct (b && _); [| apply returns_ret].
  apply returns_bind; [apply textdecode_returns |]. intros v.
  apply returns_bind; [by intros f; eexists _, _ |]. intros b'.
  destruct b'; [apply textdecode_returns | apply returns_ret].
Qed.

Lemma unquote_parts_returns parts : returns (unquote_parts parts).
Proof.
  induction parts as [|p parts IH]; simpl; [apply returns_ret |].
  destruct (indexOf p dquote).
  - apply returns_bind; [| intros; apply returns_ret].
    apply replace_all_returns. intros. apply returns_ret.
  - apply returns_bind.
    + apply replace_all_returns. intros. apply returns_ret.
    + intros. apply returns_bind; [done |]. intros. apply returns_ret.
Qed.

Lemma rfc2616unquote_returns value : returns (rfc2616unquote value).
Proof.
  unfold rfc2616unquote. destruct value as [|c after]; [apply returns_ret |].
  destruct (c =? dquote)%N; [| apply returns_ret].
  apply returns_bind; [apply unquote_parts_returns |].
  intros. apply returns_ret.
Qed.

Lemma rfc5987decode_returns extvalue :
  returns (rfc5987decode TextDecoder_decode extvalue).
Proof.
  unfold rfc5987decode. destruct (indexOf extvalue 39%N); [| apply returns_ret].
  apply returns_bind.
  - apply replace_first_returns. intros. apply returns_ret.
  - intros. apply textdecode_returns.
Qed.

Lemma hex_escape_returns text m from :
  exec hex_escape text from = Some m ->
  returns (let* hex := defined (group m 1) in
           let* code := parseInt hex 16 in
           ret (fromCharCode code)).
Proof.
  intros E.
  apply (exec_ok (fun c => (is_hex c && (hex_val c <? 16)%N) = true)) in E.
  destruct (ok_spine _ _ _ _ _ E 1 _ eq_refl) as (w & -> & Hw & Hne);
    [lia | simpl; lia |].
  change (returns (let* code := parseInt w 16 in ret (fromCharCode code))).
  rewrite parseInt_returns; [apply returns_ret | by apply Hne |].
  apply Hw. split; intros x; apply hex_class_digit.
Qed.

Lemma decode_word_returns value m from :
  exec encoded_word value from = Some m ->
  returns (decode_word TextDecoder_decode atob m).
Proof.
  intros E. apply (exec_ok (fun _ => True)) in E.
  destruct (ok_sets _ _ _ _ _ E 1 eq_refl) as [charset Hc]; [lia | simpl; lia |].
  destruct (ok_sets _ _ _ _ _ E 2 eq_refl) as [encoding He]; [lia | simpl; lia |].
  destruct (ok_sets _ _ _ _ _ E 3 eq_refl) as [text Ht]; [lia | simpl; lia |].
  unfold decode_word. rewrite Hc, He, Ht.
  repeat (apply returns_bind; [apply returns_ret |]; intros ?).
  destruct (_ || _).
  - apply returns_bind.
    { apply replace_all_returns. intros. apply returns_ret. }
    intros t1. apply returns_bind; [| intros; apply textdecode_returns].
    apply replace_all_returns. intros. eapply hex_escape_returns; eauto.
  - apply returns_bind; [| intros; apply textdecode_returns].
    intros f. unfold try_catch, throwing.
    destruct (atob _); by eexists _, _.
Qed.

Lemma rfc2047decode_returns value :
  returns (rfc2047decode TextDecoder_decode atob value).
Proof.
  unfold rfc2047decode. destruct (_ || _); [apply returns_ret |].
  apply replace_all_returns. intros. eapply decode_word_returns; eauto.
Qed.

End ProgramFacts.

(** ** The continuations *)

Lemma continuation_exec cd from m :
  exec (toParamRegExp filename_continuation) cd from = Some m ->
  continuation_match m /\ from < endIndex m /\ index m < endIndex m /\
  endIndex m <= length cd.
Proof.
  intros E.
  apply (exec_ok (fun c => (is_hex c && (hex_val c <? 10)%N) = true)) in E.
  destruct (ok_spine _ _ _ _ _ E 1 _ eq_refl) as (w & Hw & HP & Hne);
    [lia | simpl; lia |].
  destruct (ok_sets _ _ _ _ _ E 3 eq_refl) as [w3 Hw3]; [lia | simpl; lia |].
  pose proof (ok_consumes _ _ _ _ _ E eq_refl).
  pose proof (ok_from _ _ _ _ _ E). pose proof (ok_end _ _ _ _ _ E).
  repeat split; try lia; [| eauto].
  exists w. split; [done |].
  apply parseInt_returns; [by apply Hne |].
  apply HP. simpl. repeat split; try done; intros x; apply digit_class_digit.
Qed.

Lemma bind_ret_l {A B} (a : A) (k : A -> M B) f : bind (ret a) k f = k a f.
Proof. done. Qed.

Lemma part_index_of m w :
  group m 1 = Some w -> part_index (part_of_match m) = digits_value 10 w.
Proof. unfold part_of_match. by intros ->. Qed.

Lemma scan_collect cd : forall fuel from (matches : table),
  from <= length cd + 1 -> length cd + 2 <= fuel + from ->
  exists ms,
    match_all_from fuel (toParamRegExp filename_continuation) cd from = Some ms /\
    Forall continuation_match ms /\
    forall f, rfc2231_scan fuel cd from matches f = (Ok (collect ms matches), f).
Proof.
  induction fuel as [|fuel IH]; intros from matches Hf Hfuel; [lia |].
  cbn [rfc2231_scan match_all_from].
  destruct (exec _ cd from) as [m|] eqn:E.
  - destruct (continuation_exec _ _ _ E) as (Hm & ? & ? & ?).
    replace (endIndex m =? index m)%nat with false
      by (symmetry; apply Nat.eqb_neq; lia).
    destruct (IH (endIndex m) matches) as (ms & Hms & HF & Hscan); [lia.. |].
    destruct (IH (endIndex m)
                 (array_set matches (part_index (part_of_match m))
                            (group m 2, group m 3)))
      as (ms' & Hms' & _ & Hscan'); [lia.. |].
    rewrite Hms in Hms'. injection Hms' as <-.
    exists (m :: ms). rewrite Hms. repeat split; [by constructor |].
    intros f. destruct Hm as [(w & Hw & Hp) _].
    cbn [collect]. rewrite (part_index_of _ _ Hw) in *.
    rewrite Hw. change (defined (Some w)) with (ret w).
    rewrite bind_ret_l. cbv zeta. rewrite Hp, bind_ret_l.
    destruct (array_has matches (digits_value 10 w)) eqn:Hhas.
    + destruct (digits_value 10 w =? 0)%N; [done | apply Hscan].
    + apply Hscan'.
  - exists []. repeat split; constructor.
Qed.
Lemma first_match_spec n : forall ms seen,
  part_of_match <$> first_match n seen ms =
  first_with_index n (until_second_zero seen (part_of_match <$> ms)).
Proof.
  induction ms as [|m ms IH]; intros seen; [done |].
  cbn [first_match fmap list_fmap until_second_zero].
  unfold first_with_index in *.
  destruct (part_index (part_of_match m) =? 0)%N eqn:E0.
  - destruct seen; [done |]. cbn [List.find].
    destruct (part_index (part_of_match m) =? n)%N; [done | apply IH].
  - cbn [List.find].
    destruct (part_index (part_of_match m) =? n)%N; [done | apply IH].
Qed.

Lemma first_match_elem n : forall ms seen m,
  first_match n seen ms = Some m ->
  m ∈ ms /\ part_index (part_of_match m) = n.
Proof.
  induction ms as [|m0 ms IH]; intros seen m; [done |].
  cbn [first_match].
  destruct (part_index (part_of_match m0) =? 0)%N eqn:E0;
    [destruct seen; [done |] |];
    (destruct (part_index (part_of_match m0) =? n)%N eqn:En;
     [intros [= <-]; split; [left | by apply N.eqb_eq]
     | intros [? ?]%IH; split; [by right | done]]).
Qed.

Lemma array_has_spec {V} (t : jsarray V) n :
  array_has t n = true <-> is_Some (props t !! n).
Proof. unfold array_has. by rewrite bool_decide_eq_true. Qed.

Lemma array_has_false {V} (t : jsarray V) n :
  array_has t n = false <-> props t !! n = None.
Proof.
  unfold array_has. rewrite bool_decide_eq_false, eq_None_not_Some. done.
Qed.

Lemma array_has_set {V} (t : jsarray V) i v n :
  array_has (array_set t i v) n = (i =? n)%N || array_has t n.
Proof.
  apply eq_true_iff_eq. rewrite orb_true_iff, !array_has_spec, N.eqb_eq.
  unfold array_set; simpl. rewrite lookup_insert_is_Some.
  destruct (decide (i = n)); tauto.
Qed.

Lemma collect_lookup ms : forall (t : table) n,
  props (collect ms t) !! n =
  match props t !! n with
  | Some v => Some v
  | None => entry <$> first_match n (array_has t 0) ms
  end.
Proof.
  induction ms as [|m ms IH]; intros t n.
  { simpl. by destruct (props t !! n). }
  cbn [collect first_match].
  set (i := part_index (part_of_match m)).
  destruct (array_has t i) eqn:Hi.
  - destruct (N.eqb_spec i 0) as [E0|E0].
    + rewrite E0 in Hi. rewrite Hi. by destruct (props t !! n).
    + rewrite IH. destruct (props t !! n) eqn:Hn; [done |].
      destruct (N.eqb_spec i n) as [->|]; [| done].
      apply array_has_spec in Hi. rewrite Hn in Hi. by destruct Hi.
  - rewrite IH, array_has_set. unfold array_set at 1; simpl.
    pose proof Hi as Hi'. apply array_has_false in Hi'.
    destruct (N.eqb_spec i n) as [->|Hne].
    + rewrite lookup_insert_eq, Hi'.
      destruct (N.eqb_spec n 0) as [->|]; [by rewrite Hi | done].
    + rewrite lookup_insert_ne by done.
      destruct (props t !! n); [done |].
      destruct (N.eqb_spec i 0) as [E0|E0]; [| done].
      rewrite E0 in Hi. by rewrite Hi.
Qed.

Lemma wf_table_set (t : table) i v : wf_table t -> wf_table (array_set t i v).
Proof.
  intros Hwf n Hn. unfold array_set; simpl.
  rewrite lookup_insert_is_Some. intros [<-|[Hne Hs]].
  - destruct (N.ltb_spec i 4294967295); lia.
  - specialize (Hwf n Hn Hs). destruct (i <? 4294967295)%N; lia.
Qed.

Lemma wf_table_collect ms : forall t, wf_table t -> wf_table (collect ms t).
Proof.
  induction ms as [|m ms IH]; intros t Hwf; [done |]. cbn [collect].
  destruct (array_has t _); [destruct (_ =? 0)%N |]; auto using wf_table_set.
Qed.

Lemma size_array_set {V} (t : jsarray V) i v :
  props t !! i = None -> size (props (array_set t i v)) = S (size (props t)).
Proof. intros. unfold array_set; simpl. by apply map_size_insert_None. Qed.

Lemma size_collect ms : forall t : table,
  size (props (collect ms t)) <=
  size (props t) +
  length (until_second_zero (array_has t 0) (part_of_match <$> ms)).
Proof.
  induction ms as [|m ms IH]; intros t; [simpl; lia |].
  cbn [collect fmap list_fmap until_second_zero].
  set (i := part_index (part_of_match m)).
  destruct (array_has t i) eqn:Hi.
  - destruct (N.eqb_spec i 0) as [E0|E0].
    + rewrite E0 in Hi. rewrite Hi. simpl. lia.
    + specialize (IH t). simpl. fold (@fmap list _ _ _ part_of_match ms). lia.
  - specialize (IH (array_set t i (group m 2, group m 3))).
    apply array_has_false in Hi as Hi'.
    rewrite array_has_set, size_array_set in IH by done.
    destruct (i =? 0)%N eqn:E0.
    + apply N.eqb_eq in E0. rewrite E0 in Hi. rewrite Hi.
      cbn [orb length] in *. lia.
    + cbn [orb length] in *. lia.
Qed.

Lemma length_until_second_zero ps : forall seen,
  length (until_second_zero seen ps) <= length ps.
Proof.
  induction ps as [|p ps IH]; intros seen; simpl; [lia |].
  pose proof (IH true). pose proof (IH seen).
  destruct (_ =? 0)%N; [destruct seen |]; simpl; lia.
Qed.

(** Indices 0 to [j - 1] in a map make it hold [j] entries or more. *)
Lemma size_contiguous {V} j : forall m : gmap N V,
  (forall i, i < j -> is_Some (m !! N.of_nat i)) -> j <= size m.
Proof.
  induction j as [|j IH]; intros m H; [lia |].
  destruct (H j) as [v Hv]; [lia |].
  rewrite <- (insert_delete_id m (N.of_nat j) v) by done.
  rewrite map_size_insert_None by apply lookup_delete_eq.
  apply le_n_S, IH. intros i Hi.
  rewrite lookup_delete_ne by lia. apply H. lia.
Qed.

(** *** The code against the specification's reassembler *)

Lemma bind_assoc {A B C} (m : M A) (k : A -> M B) (h : B -> M C) f :
  bind (bind m k) h f = bind m (fun a => bind (k a) h) f.
Proof. unfold bind. by destruct (m f) as [[a|e] f']. Qed.

Lemma bind_ext {A B} (m : M A) (k1 k2 : A -> M B) f :
  (forall a f', k1 a f' = k2 a f') -> bind m k1 f = bind m k2 f.
Proof. intros H. unfold bind. destruct (m f) as [[a|e] f']; [apply H | done]. Qed.

Lemma bind_ext_l {A B} (m1 m2 : M A) (k : A -> M B) f :
  (forall f', m1 f' = m2 f') -> bind m1 k f = bind m2 k f.
Proof. intros H. unfold bind. by rewrite H. Qed.

Lemma array_empty_lookup {V} n : props (@array_empty V) !! n = None.
Proof. apply lookup_empty. Qed.

Lemma wf_table_empty : wf_table array_empty.
Proof. intros n _ [v Hv]. by rewrite array_empty_lookup in Hv. Qed.

Section Refinement.

Variable TextDecoder_decode : jsstring -> jsstring -> option jsstring.

Lemma parts_loop ms :
  Forall continuation_match ms ->
  (N.of_nat (length ms) < 4294967295)%N ->
  forall fuel k j,
    (forall i, i < j ->
               is_Some (props (collect ms array_empty) !! N.of_nat i)) ->
    size (props (collect ms array_empty)) < fuel + j ->
    size (props (collect ms array_empty)) <= k + j ->
    forall f,
      rfc2231_parts TextDecoder_decode fuel (collect ms array_empty)
                    (N.of_nat j) f =
      decode_parts TextDecoder_decode
        (contiguous_from (until_second_zero false (part_of_match <$> ms))
                         (N.of_nat j) k) f.
Proof.
  intros Hms Hlen.
  set (t := collect ms array_empty).
  set (ps := until_second_zero false (part_of_match <$> ms)).
  assert (Hsize : size (props t) <= length ms).
  { pose proof (size_collect ms array_empty) as H.
    pose proof (length_until_second_zero (part_of_match <$> ms) false) as H'.
    change (array_has (@array_empty (option jsstring * option jsstring)) 0)
      with false in H.
    rewrite length_fmap in H'. unfold t.
    change (size (props (@array_empty (option jsstring * option jsstring))))
      with 0 in H. lia. }
  assert (Hlookup : forall n,
             props t !! n = entry <$> first_match n false ms).
  { intros n. unfold t. rewrite collect_lookup, array_empty_lookup. done. }
  assert (Hfirst : forall n,
             first_with_index n ps = part_of_match <$> first_match n false ms).
  { intros n. by rewrite first_match_spec. }
  induction fuel as [|fuel IH]; intros k j Hall Hfuel Hk f.
  { pose proof (size_contiguous j _ Hall). lia. }
  cbn [rfc2231_parts].
  destruct (props t !! N.of_nat j) as [[quot part]|] eqn:Hj.
  - assert (S j <= size (props t)) as Hsz.
    { apply size_contiguous. intros i Hi.
      destruct (decide (i = j)) as [->|]; [by rewrite Hj | apply Hall; lia]. }
    assert ((N.of_nat j <? length_of t)%N = true) as ->.
    { apply N.ltb_lt. apply (wf_table_collect ms _ wf_table_empty); [lia |].
      fold t. by rewrite Hj. }
    rewrite Hlookup in Hj.
    destruct (first_match (N.of_nat j) false ms) as [m|] eqn:Hm; [| done].
    injection Hj as <- <-.
    destruct (first_match_elem _ _ _ _ Hm) as [Hin Hidx].
    rewrite Forall_forall in Hms.
    destruct (Hms m Hin) as [_ [w Hw]].
    destruct k as [|k]; [lia |].
    cbn [contiguous_from]. rewrite Hfirst, Hm. cbn [fmap option_fmap option_map].
    cbn [decode_parts]. unfold decode_part.
    assert (raw_fragment (part_of_match m) = w) as ->
        by (unfold part_of_match; simpl; by rewrite Hw).
    change (is_extended (part_of_match m))
      with (truthy (default [] (group m 2))).
    rewrite Hidx, Hw.
    change (defined (Some w)) with (ret w). rewrite bind_ret_l.
    rewrite bind_assoc.
    apply bind_ext. intros text f1. apply bind_ext. intros text' f2.
    apply bind_ext_l. intros f3.
    replace (N.of_nat j + 1)%N with (N.of_nat (S j)) by lia.
    apply IH; [| lia..].
    intros i Hi. destruct (decide (i = j)) as [->|]; [| apply Hall; lia].
    rewrite Hlookup, Hm. done.
  - assert (decode_parts TextDecoder_decode
              (contiguous_from ps (N.of_nat j) k) f = ret [] f) as ->.
    { destruct k as [|k]; [done |]. cbn [contiguous_from].
      rewrite Hfirst. rewrite Hlookup in Hj.
      by destruct (first_match (N.of_nat j) false ms). }
    by destruct (N.of_nat j <? length_of t)%N.
Qed.

(** [rfc2231getparam] is the reassembler of the specification on the
    parts before a second one of index 0. *)
Lemma rfc2231getparam_reassemble contentDisposition f :
  (N.of_nat (length (continuation_parts contentDisposition))
   < 4294967295)%N ->
  rfc2231getparam TextDecoder_decode contentDisposition f =
  reassemble TextDecoder_decode
    (until_second_zero false (continuation_parts contentDisposition)) f.
Proof.
  unfold rfc2231getparam, continuation_parts, match_all.
  destruct (scan_collect contentDisposition (2 + length contentDisposition)
                         0 array_empty)
    as (ms & Hall & Hms & Hscan); [lia.. |].
  rewrite Hall. cbn [default]. unfold id. rewrite length_fmap. intros Hlen.
  unfold bind at 1. rewrite Hscan. unfold reassemble.
  apply bind_ext_l. intros f'.
  pose proof (size_collect ms array_empty) as Hsz.
  change (size (props (@array_empty (option jsstring * option jsstring))))
    with 0 in Hsz.
  change (array_has (@array_empty (option jsstring * option jsstring)) 0)
    with false in Hsz.
  apply (parts_loop ms Hms) with (j := 0); [lia | intros; lia | lia | lia].
Qed.

End Refinement.

(** *** The whole operation returns *)

Lemma collect_defined ms :
  Forall continuation_match ms ->
  forall n quot part,
    props (collect ms array_empty) !! n = Some (quot, part) ->
    exists w, part = Some w.
Proof.
  intros Hms n quot part. rewrite collect_lookup, array_empty_lookup.
  destruct (first_match n _ ms) as [m|] eqn:Hm; [| done].
  intros [= <- <-]. apply first_match_elem in Hm as [Hin _].
  rewrite Forall_forall in Hms. by destruct (Hms m Hin) as [_ ?].
Qed.

Section Returns.

Variable TextDecoder_decode : jsstring -> jsstring -> option jsstring.
Variable atob : jsstring -> option jsstring.

Lemma rfc2231_parts_returns (t : table) :
  (forall n quot part,
      props t !! n = Some (quot, part) -> exists w, part = Some w) ->
  forall fuel j,
    (forall i, i < j -> is_Some (props t !! N.of_nat i)) ->
    size (props t) < fuel + j ->
    returns (rfc2231_parts TextDecoder_decode fuel t (N.of_nat j)).
Proof.
  intros Hdef. induction fuel as [|fuel IH]; intros j Hall Hfuel.
  { pose proof (size_contiguous j _ Hall). lia. }
  cbn [rfc2231_parts].
  destruct (_ <? _)%N; [| apply returns_ret].
  destruct (props t !! N.of_nat j) as [[quot part]|] eqn:Hj;
    [| apply returns_ret].
  destruct (Hdef _ _ _ Hj) as [w ->].
  apply returns_bind; [apply returns_ret |]. intros part.
  apply returns_bind; [apply rfc2616unquote_returns |]. intros part'.
  apply returns_bind.
  { destruct (truthy _); [| apply returns_ret].
    destruct (_ =? 0)%N; [apply rfc5987decode_returns | apply returns_ret]. }
  intros part''. apply returns_bind; [| intros; apply returns_ret].
  replace (N.of_nat j + 1)%N with (N.of_nat (S j)) by lia.
  apply IH; [| lia].
  intros i Hi. destruct (decide (i = j)) as [->|]; [| apply Hall; lia].
  by rewrite Hj.
Qed.

Lemma rfc2231getparam_returns contentDisposition :
  returns (rfc2231getparam TextDecoder_decode contentDisposition).
Proof.
  unfold rfc2231getparam.
  destruct (scan_collect contentDisposition (2 + length contentDisposition)
                         0 array_empty)
    as (ms & _ & Hms & Hscan); [lia.. |].
  intros f. unfold bind at 1. rewrite Hscan.
  apply returns_bind; [| intros; apply returns_ret].
  apply (rfc2231_parts_returns _ (collect_defined ms Hms)) with (j := 0);
    [intros; lia | lia].
Qed.

Lemma value_defined attributePattern contentDisposition tmp :
  exec (toParamRegExp attributePattern) contentDisposition 0 = Some tmp ->
  exists w, group tmp (S (ngroups attributePattern)) = Some w.
Proof.
  intros E. apply (exec_ok (fun _ => True)) in E.
  apply (ok_sets _ _ _ _ _ E); [| lia |].
  - simpl. rewrite Nat.eqb_refl. by rewrite !orb_true_r.
  - simpl. lia.
Qed.

Lemma plain_form_returns contentDisposition :
  returns (plain_form TextDecoder_decode atob contentDisposition).
Proof.
  unfold plain_form.
  destruct (exec _ contentDisposition 0) as [tmp|] eqn:E;
    [| apply returns_ret].
  destruct (value_defined _ _ _ E) as [w Hw]. simpl in Hw. rewrite Hw.
  apply returns_bind; [apply returns_ret |]. intros ?.
  apply returns_bind; [apply rfc2616unquote_returns |]. intros ?.
  apply returns_bind; [apply rfc2047decode_returns |]. intros ?.
  apply fixupEncoding_returns.
Qed.

Lemma getFilename_returns contentDisposition :
  returns (getFilenameFromContentDispositionHeader
             TextDecoder_decode atob contentDisposition).
Proof.
  unfold getFilenameFromContentDispositionHeader.
  apply returns_bind; [by intros f; eexists _, _ |]. intros _.
  destruct (exec _ contentDisposition 0) as [tmp|] eqn:E.
  - destruct (value_defined _ _ _ E) as [w Hw]. simpl in Hw. rewrite Hw.
    apply returns_bind; [apply returns_ret |]. intros ?.
    apply returns_bind; [apply rfc2616unquote_returns |]. intros ?.
    apply returns_bind; [apply rfc5987decode_returns |]. intros ?.
    apply returns_bind; [apply rfc2047decode_returns |]. intros ?.
    apply fixupEncoding_returns.
  - apply returns_bind; [apply rfc2231getparam_returns |]. intros tmp.
    destruct (truthy tmp); [| apply plain_form_returns].
    apply returns_bind; [apply rfc2047decode_returns |]. intros ?.
    apply fixupEncoding_returns.
Qed.

End Returns.

(** ** What the tests of the file decide *)

Lemma test_search re s : test re s = bool_decide (is_Some (search re 0 s)).
Proof. unfold test, exec. simpl. by rewrite drop_0. Qed.

(** A pattern that is one class matches where the string has a code unit
    of the class. *)
Lemma search_class rs ci : forall l i,
  is_Some (search (Make (Class false rs) ci) i l) <->
  existsb (in_ranges rs) l = true.
Proof.
  induction l as [|x l IH]; intros i.
  - simpl. split; [by intros [? ?] | done].
  - cbn [search existsb]. unfold match_at at 1. cbn.
    unfold class_matches. cbn [xorb].
    destruct (in_ranges rs x); [split; eauto |].
    cbn [orb]. apply IH.
Qed.

Lemma test_class rs ci s :
  test (Make (Class false rs) ci) s = existsb (in_ranges rs) s.
Proof.
  rewrite test_search. apply eq_true_iff_eq.
  by rewrite bool_decide_eq_true, search_class.
Qed.

(** A pattern that starts with [^] matches at index 0 only. *)
Lemma search_bol re r :
  pattern re = Seq Bol r ->
  forall l i, 0 < i -> search re i l = None.
Proof.
  intros Hre.
  assert (Hat : forall l i, 0 < i -> match_at re i l = None).
  { intros l i Hi. unfold match_at. rewrite Hre. cbn.
    destruct i; [lia | done]. }
  induction l as [|x l IH]; intros i Hi; cbn [search]; rewrite Hat by done;
    [done | apply IH; lia].
Qed.

(** A star of a class before the end of the input: every code unit left
    has to be of the class. *)
Lemma star_class_eol ci neg rs : forall l fuel p c,
  length l <= fuel ->
  is_Some (star_loop (rmatch ci (Class neg rs))
                     (fun s => rmatch ci Eol s Some) fuel (State p l c)) <->
  forallb (class_matches neg rs) l = true.
Proof.
  induction l as [|x l IH]; intros fuel p c Hfuel.
  - destruct fuel; cbn; split; eauto.
  - destruct fuel as [|fuel]; [simpl in Hfuel; lia |].
    cbn [star_loop forallb]. cbn [rmatch]. unfold eat at 1. cbn [rest pos caps].
    destruct (class_matches neg rs x); cbn [andb].
    + replace (p <? S p)%nat with true by (symmetry; apply Nat.ltb_lt; lia).
      rewrite <- (IH fuel (S p) c) by (simpl in Hfuel; lia).
      destruct (star_loop _ _ fuel _); [split; eauto |].
      cbn. split; [by intros [? ?] | by intros [? ?]].
    + cbn. split; [by intros [? ?] | done].
Qed.

Lemma bytes_only_spec value :
  test bytes_only value = true <->
  value <> [] /\ Forall (fun c => (c <= 255)%N) value.
Proof.
  rewrite test_search, bool_decide_eq_true.
  destruct value as [|x l].
  { cbn. split; [by intros [? ?] | by intros [? _]]. }
  cbn [search]. unfold match_at. cbn [pattern ignoreCase bytes_only cat].
  cbn [rmatch pos Nat.eqb]. unfold Plus. cbn [rmatch]. unfold eat at 1.
  cbn [rest pos caps]. rewrite (search_bol bytes_only _ eq_refl) by lia.
  assert (Hin : forall c, class_matches false [(0, 255)%N] c = true <-> (c <= 255)%N).
  { intros c. unfold class_matches, in_ranges. simpl.
    rewrite orb_false_r, andb_true_iff, !N.leb_le. lia. }
  destruct (class_matches false [(0, 255)%N] x) eqn:Hx.
  - pose proof (star_class_eol false false [(0, 255)%N] l (length l) 1
                  (replicate 1 None)) as Hstar.
    cbn [length rest] in *.
    destruct (star_loop _ _ _ _) as [e|].
    + split; [intros _ | eauto]. split; [done |].
      constructor; [by apply Hin |].
      apply Forall_forall. intros c Hc.
      apply Hin. destruct Hstar as [Hstar _]; [lia |].
      specialize (Hstar ltac:(eauto)).
      rewrite forallb_forall in Hstar. apply Hstar. by apply list_elem_of_In.
    + split; [by intros [? ?] |]. intros [_ HF]. inversion HF; subst.
      exfalso. destruct (Hstar ltac:(lia)) as [_ Hb].
      destruct Hb as [e He]; [| done].
      apply forallb_forall. intros c Hc.
      apply Hin. rewrite Forall_forall in H2. apply H2. by apply list_elem_of_In.
  - split; [by intros [? ?] |]. intros [_ HF]. inversion HF; subst.
    apply Hin in H1. congruence.
Qed.

Lemma canon_lower a c :
  (canonicalize true a =? canonicalize true c)%N = (lower a =? lower c)%N.
Proof.
  unfold canonicalize, lower. cbn [andb]. apply eq_true_iff_eq.
  rewrite !N.eqb_eq.
  destruct (N.leb_spec 97 a), (N.leb_spec a 122), (N.leb_spec 65 a),
    (N.leb_spec a 90), (N.leb_spec 97 c), (N.leb_spec c 122),
    (N.leb_spec 65 c), (N.leb_spec c 90); cbn [andb]; lia.
Qed.

Lemma match_at_pdf i l :
  is_Some (match_at pdf_suffix i l) <-> lower <$> l = str ".pdf".
Proof.
  unfold match_at.
  change (pattern pdf_suffix)
    with (Seq (Char 46) (Seq (Seq (Char 112) (Seq (Char 100) (Char 102))) Eol)).
  change (str ".pdf") with [46; 112; 100; 102]%N.
  cbn [rmatch ignoreCase pdf_suffix]. unfold eat. cbn [rest pos caps].
  destruct l as [|a [|b [|c [|d [|e l]]]]]; cbn [rest pos caps];
    rewrite ?canon_lower;
    change (lower 46) with 46%N; change (lower 112) with 112%N;
    change (lower 100) with 100%N; change (lower 102) with 102%N;
    cbn [fmap list_fmap];
    repeat match goal with
           | |- context [(lower ?x =? ?n)%N] => destruct (N.eqb_spec (lower x) n)
           end;
    (split; [intros [? ?]; try done; congruence | intros [= ]; try done; eauto]).
Qed.

Lemma search_pdf : forall l i,
  is_Some (search pdf_suffix i l) <-> ends_with_pdf l.
Proof.
  unfold ends_with_pdf.
  induction l as [|x l IH]; intros i; cbn [search].
  - pose proof (match_at_pdf i []) as H.
    destruct (match_at pdf_suffix i []).
    + destruct H as [H _]. by specialize (H ltac:(eauto)).
    + split; [by intros [? ?] |].
      intros (stem & ext & Hl & He). symmetry in Hl.
      apply app_eq_nil in Hl as [-> ->]. done.
  - pose proof (match_at_pdf i (x :: l)) as H.
    destruct (match_at pdf_suffix i (x :: l)).
    + split; [| eauto]. intros _. exists [], (x :: l). split; [done |].
      apply H. eauto.
    + rewrite IH. split.
      * intros (stem & ext & -> & He). by exists (x :: stem), ext.
      * intros (stem & ext & Hl & He). destruct stem as [|y stem].
        -- simpl in Hl. subst ext. apply H in He. by destruct He.
        -- injection Hl as -> ->. eauto.
Qed.

Lemma pdf_suffix_spec filename :
  test pdf_suffix filename = true <-> ends_with_pdf filename.
Proof. by rewrite test_search, bool_decide_eq_true, search_pdf. Qed.

Lemma utf8_label_spec encoding :
  test utf8_label encoding = true <-> is_utf8_label encoding.
Proof.
  rewrite test_search, bool_decide_eq_true. unfold is_utf8_label.
  change (str "utf8") with [117; 116; 102; 56]%N.
  change (str "utf-8") with [117; 116; 102; 45; 56]%N.
  assert (Hat : is_Some (match_at utf8_label 0 encoding) <->
                is_Some (search utf8_label 0 encoding)).
  { destruct encoding; cbn [search];
      [by destruct (match_at _ _ _) |].
    rewrite (search_bol utf8_label _ eq_refl) by lia.
    by destruct (match_at _ _ _). }
  rewrite <- Hat. unfold match_at.
  change (pattern utf8_label)
    with (Seq Bol (Seq (Seq (Char 117) (Seq (Char 116) (Char 102)))
                       (Seq (Alt (Char 45) Empty) (Seq (Char 56) Eol)))).
  cbn [rmatch ignoreCase utf8_label pos Nat.eqb]. unfold eat. cbn [rest pos caps].
  destruct encoding as [|a [|b [|c [|d [|e [|g l]]]]]]; cbn [rest pos caps];
    rewrite ?canon_lower;
    change (lower 117) with 117%N; change (lower 116) with 116%N;
    change (lower 102) with 102%N; change (lower 45) with 45%N;
    change (lower 56) with 56%N;
    cbn [fmap list_fmap];
    repeat match goal with
           | |- context [(lower ?x =? ?n)%N] => destruct (N.eqb_spec (lower x) n)
           end;
    (split; [intros [? ?]; try done; (left; congruence) || (right; congruence)
            | intros [[= ]|[= ]]; try done; try lia; eauto]).
Qed.


Lemma existsb_in_ranges rs (P : N -> Prop) value :
  (forall c, P c -> in_ranges rs c = true) ->
  Exists P value -> existsb (in_ranges rs) value = true.
Proof.
  intros HP Hex. apply Exists_exists in Hex as (c & Hc & Hp).
  apply existsb_exists. exists c. split; [by apply list_elem_of_In | auto].
Qed.

Lemma not_existsb_in_ranges rs (P : N -> Prop) value :
  (forall c, in_ranges rs c = true -> P c) ->
  Forall (fun c => ~ P c) value -> existsb (in_ranges rs) value = false.
Proof.
  intros HP Hall. apply not_true_is_false. intros Hex.
  apply existsb_exists in Hex as (c & Hc & Hin).
  rewrite Forall_forall in Hall. apply (Hall c); [by apply list_elem_of_In | auto].
Qed.

Lemma high_in_ranges c : in_ranges [(128, 255)]%N c = true <-> high c.
Proof.
  unfold in_ranges, high. simpl.
  rewrite orb_false_r, andb_true_iff, !N.leb_le. done.
Qed.

Lemma control_or_high_in_ranges c :
  in_ranges [(0, 25); (128, 255)]%N c = true <-> control_or_high_unit c.
Proof.
  unfold in_ranges, control_or_high_unit, high. simpl.
  rewrite orb_false_r, orb_true_iff, !andb_true_iff, !N.leb_le. lia.
Qed.

Section FixupFacts.

Variable TextDecoder_decode : jsstring -> jsstring -> option jsstring.

Lemma fixupEncoding_no_high value f :
  Forall (fun c => ~ high c) value ->
  fixupEncoding TextDecoder_decode value f = (Ok value, f).
Proof.
  intros Hall. unfold fixupEncoding, bind, get_needsEncodingFixup, high_byte.
  rewrite test_class.
  rewrite (not_existsb_in_ranges _ _ _
             (fun c => proj1 (high_in_ranges c)) Hall).
  by rewrite andb_false_r.
Qed.

End FixupFacts.

Lemma until_second_zero_seen ps :
  count_zero ps = 0 -> forall seen, until_second_zero seen ps = ps.
Proof.
  unfold count_zero.
  induction ps as [|p ps IH]; intros H seen; [done |].
  rewrite filter_cons in H. cbn [until_second_zero].
  destruct (decide (part_index p = 0%N)) as [E|E]; [done |].
  apply N.eqb_neq in E. rewrite E. f_equal. by apply IH.
Qed.

Lemma until_second_zero_id ps :
  count_zero ps <= 1 -> until_second_zero false ps = ps.
Proof.
  unfold count_zero.
  induction ps as [|p ps IH]; intros H; [done |].
  rewrite filter_cons in H. cbn [until_second_zero].
  destruct (decide (part_index p = 0%N)) as [E|E].
  - rewrite (proj2 (N.eqb_eq _ _) E). f_equal.
    apply until_second_zero_seen. unfold count_zero. simpl in H. lia.
  - rewrite (proj2 (N.eqb_neq _ _) E). f_equal. by apply IH.
Qed.

Lemma until_second_zero_cut before p after :
  part_index p = 0%N ->
  forall seen,
    count_zero before = (if seen : bool then 0 else 1) ->
    until_second_zero seen (before ++ p :: after) = before.
Proof.
  intros Hp. unfold count_zero.
  induction before as [|q before IH]; intros seen H.
  - destruct seen; [| done]. simpl. by rewrite (proj2 (N.eqb_eq _ _) Hp).
  - rewrite filter_cons in H. cbn [app until_second_zero].
    destruct (decide (part_index q = 0%N)) as [E|E].
    + rewrite (proj2 (N.eqb_eq _ _) E). destruct seen; [done |].
      f_equal. apply IH. simpl in H. lia.
    + rewrite (proj2 (N.eqb_neq _ _) E). f_equal. by apply IH.
Qed.

Section Branches.

Variable TextDecoder_decode : jsstring -> jsstring -> option jsstring.
Variable atob : jsstring -> option jsstring.

Lemma getFilename_extended contentDisposition tmp f :
  exec (toParamRegExp filename_star) contentDisposition 0 = Some tmp ->
  getFilenameFromContentDispositionHeader TextDecoder_decode atob
    contentDisposition f
  = extended_form TextDecoder_decode atob tmp true.
Proof.
  intros E. unfold getFilenameFromContentDispositionHeader.
  unfold bind at 1, set_needsEncodingFixup. rewrite E.
  unfold extended_form, extended_value.
  rewrite bind_assoc. apply bind_ext. intros v1 f1.
  rewrite bind_assoc. apply bind_ext. intros v2 f2.
  by rewrite bind_assoc.
Qed.

Lemma getFilename_continuation contentDisposition f tmp f1 :
  exec (toParamRegExp filename_star) contentDisposition 0 = None ->
  rfc2231getparam TextDecoder_decode contentDisposition true = (Ok tmp, f1) ->
  getFilenameFromContentDispositionHeader TextDecoder_decode atob
    contentDisposition f
  = if truthy tmp then continuation_form TextDecoder_decode atob tmp f1
    else plain_form TextDecoder_decode atob contentDisposition f1.
Proof.
  intros E H. unfold getFilenameFromContentDispositionHeader.
  unfold bind at 1, set_needsEncodingFixup. rewrite E.
  unfold bind at 1. rewrite H. by destruct (truthy tmp).
Qed.

Lemma no_parts_reassemble contentDisposition f :
  continuation_parts contentDisposition = [] ->
  rfc2231getparam TextDecoder_decode contentDisposition f = (Ok [], f).
Proof.
  intros H. rewrite rfc2231getparam_reassemble; rewrite H; [done |].
  simpl. lia.
Qed.

End Branches.


(** * Facts on values and headers as they are written *)

(** ** Where a pattern matches *)

Lemma exec_0 re s : exec re s 0 = search re 0 s.
Proof. unfold exec. simpl. by rewrite drop_0. Qed.

Lemma search_at re i l m : match_at re i l = Some m -> search re i l = Some m.
Proof. intros H. destruct l; simpl; by rewrite H. Qed.

(** No match at any index from [i] on: the search finds nothing. *)
Lemma search_none re : forall l i,
  (forall j, j <= length l -> match_at re (i + j) (drop j l) = None) ->
  search re i l = None.
Proof.
  induction l as [|x l IH]; intros i H; cbn [search].
  - specialize (H 0 ltac:(simpl; lia)). rewrite Nat.add_0_r, drop_0 in H.
    by rewrite H.
  - pose proof (H 0 ltac:(simpl; lia)) as H0. rewrite Nat.add_0_r, drop_0 in H0.
    rewrite H0. apply IH. intros j Hj.
    specialize (H (S j)). rewrite Nat.add_succ_r in H. apply H. simpl. lia.
Qed.

(** No match in the first part of the input: the search goes on after
    it. *)
Lemma search_skip re b : forall a i,
  (forall j, j < length a -> match_at re (i + j) (drop j (a ++ b)) = None) ->
  search re i (a ++ b) = search re (i + length a) b.
Proof.
  induction a as [|x a IH]; intros i H.
  - simpl. by rewrite Nat.add_0_r.
  - cbn [app search]. pose proof (H 0 ltac:(simpl; lia)) as H0.
    rewrite Nat.add_0_r, drop_0 in H0. cbn [app] in H0.
    rewrite H0. rewrite IH.
    + f_equal. simpl. lia.
    + intros j Hj. specialize (H (S j)). rewrite Nat.add_succ_r in H.
      apply H. simpl. lia.
Qed.

(** What the search finds matches at some index. *)
Lemma search_found re : forall l i m,
  search re i l = Some m ->
  exists j, j <= length l /\ match_at re (i + j) (drop j l) = Some m.
Proof.
  induction l as [|x l IH]; intros i m; cbn [search].
  - destruct (match_at re i []) eqn:E; [| done]. intros [= ->].
    exists 0. by rewrite Nat.add_0_r.
  - destruct (match_at re i (x :: l)) eqn:E.
    + intros [= ->]. exists 0. rewrite Nat.add_0_r. split; [lia | done].
    + intros (j & Hj & Hm)%IH. exists (S j). rewrite Nat.add_succ_r.
      split; [simpl; lia | done].
Qed.

(** A star that takes every code unit of [l] and stops before [t]: what
    follows the star is tried first where [l] ends, and when it matches
    there that is the match. *)
Lemma star_greedy (m : state -> (state -> option state) -> option state)
      (k : state -> option state) c t :
  (forall p k', m (State p t c) k' = None) ->
  forall l,
    (forall x, x ∈ l -> forall p l' k',
          m (State p (x :: l') c) k' = k' (State (S p) l' c)) ->
    forall fuel p,
      length l <= fuel ->
      is_Some (k (State (p + length l) t c)) ->
      star_loop m k fuel (State p (l ++ t) c) = k (State (p + length l) t c).
Proof.
  intros Hstop. induction l as [|x l IH]; intros Hm fuel p Hfuel Hk.
  - simpl in *. rewrite Nat.add_0_r in *.
    destruct fuel; simpl; [done |]. by rewrite Hstop.
  - destruct fuel as [|fuel]; [simpl in Hfuel; lia |].
    cbn [star_loop app]. rewrite Hm by left. cbn [pos].
    replace (p <? S p)%nat with true by (symmetry; apply Nat.ltb_lt; lia).
    replace (p + length (x :: l)) with (S p + length l) in * by (simpl; lia).
    rewrite IH; [| intros; apply Hm; by right | simpl in Hfuel; lia | done].
    by destruct Hk as [e ->].
Qed.

Lemma rmatch_seq ci r1 r2 s k :
  rmatch ci (Seq r1 r2) s k = rmatch ci r1 s (fun s1 => rmatch ci r2 s1 k).
Proof. done. Qed.

(** A literal matches the code units that are its own up to case. *)
Lemma rmatch_chars ci : forall w l,
  canonicalize ci <$> l = canonicalize ci <$> w ->
  forall p t c k,
    rmatch ci (cat (Char <$> w)) (State p (l ++ t) c) k
    = k (State (p + length w) t c).
Proof.
  induction w as [|x w IH]; intros [|y l] H p t c k; try done.
  - simpl. by rewrite Nat.add_0_r.
  - injection H as Hy Hl.
    assert (Hstep : forall k', rmatch ci (Char x) (State p ((y :: l) ++ t) c) k'
                               = k' (State (S p) (l ++ t) c)).
    { intros k'. cbn. by rewrite Hy, N.eqb_refl. }
    destruct w as [|x' w].
    + destruct l; [| done]. change (cat (Char <$> [x])) with (Char x).
      rewrite Hstep. simpl. by rewrite Nat.add_1_r.
    + change (cat (Char <$> x :: x' :: w))
        with (Seq (Char x) (cat (Char <$> x' :: w))).
      rewrite rmatch_seq, Hstep.
      rewrite (IH l Hl). f_equal. f_equal. simpl. lia.
Qed.

(** ** The flag *)

Section FlagFacts.

Variable R : bool -> bool -> Prop.
Hypothesis R_refl : forall f, R f f.
Hypothesis R_trans : forall f1 f2 f3, R f1 f2 -> R f2 f3 -> R f1 f3.

Local Abbreviation moves := (flag_moves R).

Lemma moves_ret {A} (a : A) : moves (ret a).
Proof using R_refl. intros f r f' [= <- <-]. apply R_refl. Qed.

Lemma moves_fail {A} e : moves (@fail A e).
Proof using R_refl. intros f r f' [= <- <-]. apply R_refl. Qed.

Lemma moves_bind {A B} (m : M A) (k : A -> M B) :
  moves m -> (forall a, moves (k a)) -> moves (bind m k).
Proof using R_trans.
  intros Hm Hk f r f'. unfold bind.
  destruct (m f) as [[a|e] f1] eqn:E.
  - intros H. eapply R_trans; [exact (Hm _ _ _ E) | exact (Hk _ _ _ _ H)].
  - intros [= <- <-]. exact (Hm _ _ _ E).
Qed.

Lemma moves_try_catch {A} (m h : M A) :
  moves m -> moves h -> moves (try_catch m h).
Proof using R_trans.
  intros Hm Hh f r f'. unfold try_catch.
  destruct (m f) as [[a|[]] f1] eqn:E;
    try (intros [= <- <-]; exact (Hm _ _ _ E)).
  intros H. eapply R_trans; [exact (Hm _ _ _ E) | exact (Hh _ _ _ H)].
Qed.

Lemma moves_splice s (g : match_result -> M jsstring) :
  (forall m, moves (g m)) -> forall ms cur, moves (splice s cur ms g).
Proof using R_refl R_trans.
  intros Hg. induction ms as [|m ms IH]; intros cur; cbn [splice].
  - apply moves_ret.
  - apply moves_bind; [done |]. intros r.
    apply moves_bind; [done |]. intros tail. apply moves_ret.
Qed.

Lemma moves_replace_all re (g : match_result -> M jsstring) s :
  (forall m, moves (g m)) -> moves (replace_all re g s).
Proof using R_refl R_trans.
  intros Hg. unfold replace_all.
  destruct (match_all re s); [by apply moves_splice | apply moves_fail].
Qed.

Lemma moves_replace_first re (g : match_result -> M jsstring) s :
  (forall m, moves (g m)) -> moves (replace_first re g s).
Proof using R_refl R_trans.
  intros Hg. unfold replace_first. destruct (exec re s 0); [| apply moves_ret].
  apply moves_bind; [done |]. intros. apply moves_ret.
Qed.

Lemma moves_defined o : moves (defined o).
Proof using R_refl. destruct o; [apply moves_ret | apply moves_fail]. Qed.

Lemma moves_throwing {A} (o : option A) : moves (throwing o).
Proof using R_refl. destruct o; [apply moves_ret | apply moves_fail]. Qed.

Lemma moves_parseInt w radix : moves (parseInt w radix).
Proof using R_refl.
  unfold parseInt. destruct w; [apply moves_fail |].
  destruct (forallb _ _); [apply moves_ret | apply moves_fail].
Qed.

Lemma moves_unquote_parts parts : moves (unquote_parts parts).
Proof using R_refl R_trans.
  induction parts as [|p parts IH]; cbn [unquote_parts]; [apply moves_ret |].
  destruct (indexOf p dquote).
  - apply moves_bind; [| intros; apply moves_ret].
    apply moves_replace_all. intros. apply moves_ret.
  - apply moves_bind; [apply moves_replace_all; intros; apply moves_ret |].
    intros. apply moves_bind; [done |]. intros. apply moves_ret.
Qed.

Lemma moves_rfc2616unquote value : moves (rfc2616unquote value).
Proof using R_refl R_trans.
  unfold rfc2616unquote. destruct value as [|c after]; [apply moves_ret |].
  destruct (c =? dquote)%N; [| apply moves_ret].
  apply moves_bind; [apply moves_unquote_parts |]. intros. apply moves_ret.
Qed.

End FlagFacts.

Lemma cleared_refl f : cleared f f.
Proof. by left. Qed.

Lemma cleared_trans f1 f2 f3 : cleared f1 f2 -> cleared f2 f3 -> cleared f1 f3.
Proof. unfold cleared. intros [->| ->] [->| ->]; auto. Qed.

Section FlagOfProgram.

Variable TextDecoder_decode : jsstring -> jsstring -> option jsstring.
Variable atob : jsstring -> option jsstring.

Ltac flag_ret := apply (moves_ret cleared cleared_refl).
Ltac flag_fail := apply (moves_fail cleared cleared_refl).
Ltac flag_bind := apply (moves_bind cleared cleared_trans).
Ltac flag_try := apply (moves_try_catch cleared cleared_trans).
Ltac flag_replace_all :=
  apply (moves_replace_all cleared cleared_refl cleared_trans).

Lemma clears_only_set : clears_only (set_needsEncodingFixup false).
Proof. intros f r f' [= <- <-]. by right. Qed.

Lemma clears_only_get : clears_only get_needsEncodingFixup.
Proof. intros f r f' [= <- <-]. by left. Qed.

Lemma textdecode_clears_only encoding value :
  clears_only (textdecode TextDecoder_decode encoding value).
Proof.
  unfold textdecode.
  destruct (truthy encoding); [| flag_ret].
  destruct (negb _); [flag_ret |].
  flag_try.
  - flag_bind; [apply (moves_throwing cleared cleared_refl) |]. intros.
    flag_bind; [apply clears_only_set |]. intros. flag_ret.
  - destruct (test utf8_label encoding); [| flag_ret].
    flag_try; [| flag_ret].
    flag_bind; [apply (moves_throwing cleared cleared_refl) |]. intros.
    flag_bind; [apply clears_only_set |]. intros. flag_ret.
Qed.

Lemma fixupEncoding_clears_only value :
  clears_only (fixupEncoding TextDecoder_decode value).
Proof.
  unfold fixupEncoding.
  flag_bind; [apply clears_only_get |]. intros b.
  destruct (b && _); [| flag_ret].
  flag_bind; [apply textdecode_clears_only |]. intros v.
  flag_bind; [apply clears_only_get |]. intros b'.
  destruct b'; [apply textdecode_clears_only | flag_ret].
Qed.

Lemma rfc5987decode_clears_only extvalue :
  clears_only (rfc5987decode TextDecoder_decode extvalue).
Proof.
  unfold rfc5987decode.
  destruct (indexOf extvalue 39%N); [| flag_ret].
  flag_bind; [| intros; apply textdecode_clears_only].
  apply (moves_replace_first cleared cleared_refl cleared_trans).
  intros. flag_ret.
Qed.

Lemma decode_word_clears_only m :
  clears_only (decode_word TextDecoder_decode atob m).
Proof.
  unfold decode_word.
  flag_bind; [apply (moves_defined cleared cleared_refl) |]. intros charset.
  flag_bind; [apply (moves_defined cleared cleared_refl) |]. intros encoding.
  flag_bind; [apply (moves_defined cleared cleared_refl) |]. intros text.
  destruct (_ || _).
  - flag_bind.
    { flag_replace_all. intros. flag_ret. }
    intros t1. flag_bind; [| intros; apply textdecode_clears_only].
    flag_replace_all.
    intros m'. flag_bind; [apply (moves_defined cleared cleared_refl) |].
    intros hex.
    flag_bind; [apply (moves_parseInt cleared cleared_refl) |]. intros.
    flag_ret.
  - flag_bind; [| intros; apply textdecode_clears_only].
    flag_try; [| flag_ret].
    apply (moves_throwing cleared cleared_refl).
Qed.

Lemma rfc2047decode_clears_only value :
  clears_only (rfc2047decode TextDecoder_decode atob value).
Proof.
  unfold rfc2047decode. destruct (_ || _); [flag_ret |].
  flag_replace_all. apply decode_word_clears_only.
Qed.

Lemma rfc2231_parts_clears_only (t : table) : forall fuel n,
  clears_only (rfc2231_parts TextDecoder_decode fuel t n).
Proof.
  induction fuel as [|fuel IH]; intros n; cbn [rfc2231_parts]; [flag_fail |].
  destruct (_ <? _)%N; [| flag_ret].
  destruct (props t !! n) as [[quot part]|]; [| flag_ret].
  flag_bind; [apply (moves_defined cleared cleared_refl) |]. intros p1.
  flag_bind;
    [apply (moves_rfc2616unquote cleared cleared_refl cleared_trans) |].
  intros p2. flag_bind.
  { destruct (truthy _); [| flag_ret].
    destruct (_ =? 0)%N; [apply rfc5987decode_clears_only | flag_ret]. }
  intros p3. flag_bind; [apply IH |]. intros. flag_ret.
Qed.

Lemma rfc2231getparam_clears_only contentDisposition :
  clears_only (rfc2231getparam TextDecoder_decode contentDisposition).
Proof.
  unfold rfc2231getparam.
  destruct (scan_collect contentDisposition (2 + length contentDisposition)
                         0 array_empty)
    as (ms & _ & _ & Hscan); [lia.. |].
  flag_bind.
  - intros f r f'. rewrite Hscan. intros [= <- <-]. by left.
  - intros matches. flag_bind; [apply rfc2231_parts_clears_only |].
    intros. flag_ret.
Qed.

End FlagOfProgram.

Lemma rfc2616unquote_keeps_flag value : keeps_flag (rfc2616unquote value).
Proof.
  intros f r f' H. symmetry.
  apply (moves_rfc2616unquote eq) in H; [done | done |].
  intros ? ? ? -> ->. done.
Qed.

(** ** The recovery of UTF-8 *)

Lemma hex_digit_hex v : (v < 16)%N -> is_hex (hex_digit v) = true.
Proof.
  intros H. unfold is_hex, is_digit, hex_digit.
  destruct (N.ltb_spec v 10); split_leb; simpl; try done; lia.
Qed.

Lemma hex_val_digit v : (v < 16)%N -> hex_val (hex_digit v) = v.
Proof.
  intros H. unfold hex_val, is_digit, hex_digit.
  destruct (N.ltb_spec v 10); split_leb; simpl; lia.
Qed.

Lemma hex2_digits b :
  (b < 256)%N -> hex2 (hex_digit (b / 16)) (hex_digit (b mod 16)) = b.
Proof.
  intros H. unfold hex2.
  assert (b / 16 < 16)%N by (apply N.Div0.div_lt_upper_bound; lia).
  assert (b mod 16 < 16)%N by (apply N.mod_lt; lia).
  rewrite !hex_val_digit by done.
  rewrite (N.div_mod b 16) at 3 by lia. lia.
Qed.

Lemma escape_unreserved_ascii c :
  escape_unreserved c = true -> (c < 128)%N /\ c <> 37%N.
Proof.
  unfold escape_unreserved, in_ranges. simpl.
  rewrite !orb_true_iff, !andb_true_iff, !N.leb_le. lia.
Qed.

(** [decodeURIComponent(escape(value))] on a string of bytes is the
    UTF-8 decoder on those bytes, from any state of the decoder. *)
Lemma decode_escape : forall value pending acc lo,
  Forall (fun c => (c <= 255)%N) value ->
  decode_from (escape value) pending acc lo
  = Browser.utf8_from value pending acc lo.
Proof.
  induction value as [|b value IH]; intros pending acc lo Hall; [done |].
  inversion Hall as [|? ? Hb Hrest]; subst.
  unfold escape. cbn [fmap list_fmap concat]. fold (escape value).
  unfold escape_char.
  destruct (escape_unreserved b) eqn:Hu.
  - apply escape_unreserved_ascii in Hu as [H128 H37].
    cbn [app decode_from Browser.utf8_from].
    rewrite (proj2 (N.eqb_neq _ _) H37).
    destruct pending as [|p].
    + rewrite (proj2 (N.ltb_lt _ _) H128). by rewrite IH.
    + replace (128 <=? b)%N with false by (symmetry; apply N.leb_gt; lia).
      done.
  - replace (b <? 256)%N with true by (symmetry; apply N.ltb_lt; lia).
    cbn [app decode_from Browser.utf8_from]. cbn [N.eqb Pos.eqb].
    assert (b / 16 < 16)%N by (apply N.Div0.div_lt_upper_bound; lia).
    assert (b mod 16 < 16)%N by (apply N.mod_lt; lia).
    rewrite !hex_digit_hex by done. cbn [andb].
    rewrite hex2_digits by lia.
    destruct pending as [|p].
    + repeat (destruct (_ <? _)%N; [by rewrite ?IH |]). done.
    + destruct (_ && _); [| done]. destruct p; [| by rewrite IH].
      destruct (_ && _); [by rewrite IH | done].
Qed.

(** ** What a match must have found *)

(** A match leads to a state further on in the same input. *)
Lemma rmatch_on ci r s k e :
  rmatch ci r s k = Some e ->
  exists s' n, k s' = Some e /\ rest s' = drop n (rest s)
               /\ pos s' = pos s + n /\ n <= length (rest s)
               /\ length (caps s') = length (caps s).
Proof.
  intros H. apply (rmatch_inv (fun _ => True)) in H as (s' & Hk & He).
  exists s', (pos s' - pos s).
  pose proof (ext_pos _ _ _ _ _ _ _ He).
  repeat split; [done | apply He | lia | apply He | apply He].
Qed.

(** The same, in an input [l] the match runs in. *)
Lemma rmatch_in (l : jsstring) ci r s k e :
  (exists n, rest s = drop n l) ->
  rmatch ci r s k = Some e ->
  exists s', k s' = Some e /\ exists n, rest s' = drop n l.
Proof.
  intros [n Hn] (s' & n' & Hk & Hr & _)%rmatch_on.
  exists s'. split; [done |]. exists (n + n').
  by rewrite Hr, Hn, drop_drop.
Qed.

Ltac peel l E Hin :=
  rewrite rmatch_seq in E;
  apply (rmatch_in l _ _ _ _ _ Hin) in E; clear Hin;
  destruct E as (? & E & Hin).

Lemma canon_lower_eq a c :
  canonicalize true a = canonicalize true c <-> lower a = lower c.
Proof. by rewrite <- !N.eqb_eq, canon_lower. Qed.

Lemma canon_lower_fmap : forall l w : jsstring,
  canonicalize true <$> l = canonicalize true <$> w <-> lower <$> l = lower <$> w.
Proof.
  induction l as [|a l IH]; intros [|c w]; try done.
  cbn [fmap list_fmap]. split; intros [= H1 H2].
  - f_equal; [by apply canon_lower_eq | by apply IH].
  - f_equal; [by apply canon_lower_eq | by apply IH].
Qed.

(** A literal that matched found its code units, up to case. *)
Lemma rmatch_chars_inv ci : forall w s k e,
  rmatch ci (cat (Char <$> w)) s k = Some e ->
  canonicalize ci <$> take (length w) (rest s) = canonicalize ci <$> w.
Proof.
  assert (Hone : forall x s k e,
             rmatch ci (Char x) s k = Some e ->
             exists y t, rest s = y :: t /\ canonicalize ci y = canonicalize ci x
                         /\ k (State (S (pos s)) t (caps s)) = Some e).
  { intros x [p [|y t] c] k e; cbn; [done |].
    destruct (N.eqb_spec (canonicalize ci y) (canonicalize ci x)); [| done].
    eauto. }
  induction w as [|x w IH]; intros s k e H; [done |].
  destruct w as [|x' w].
  - apply Hone in H as (y & t & -> & Hy & _). cbn. by rewrite Hy.
  - change (cat (Char <$> x :: x' :: w))
      with (Seq (Char x) (cat (Char <$> x' :: w))) in H.
    rewrite rmatch_seq in H. apply Hone in H as (y & t & -> & Hy & H).
    apply IH in H. cbn [rest] in H.
    change (length (x :: x' :: w)) with (S (length (x' :: w))).
    cbn [take fmap list_fmap]. f_equal; [done |]. exact H.
Qed.

(** No [filename] parameter without the word [filename]. *)
Lemma param_mentions attr :
  (forall s k e, rmatch true attr s k = Some e ->
                 lower <$> take 8 (rest s) = str "filename") ->
  forall cd from m,
    exec (toParamRegExp attr) cd from = Some m ->
    mentions (str "filename") cd.
Proof.
  intros Hattr cd from m. unfold exec.
  destruct (length cd <? from)%nat; [done |].
  intros (j & _ & H)%search_found. unfold match_at in H.
  destruct (rmatch _ _ _ _) as [e|] eqn:E; [| done]. clear H.
  cbn [toParamRegExp pattern ignoreCase cat] in E.
  assert (Hin : exists n, rest (State (from + j) (drop j (drop from cd))
                                       (replicate (S (ngroups
                                          (pattern (toParamRegExp attr)))) None))
                          = drop n cd).
  { exists (from + j). cbn [rest]. by rewrite drop_drop. }
  cbn [toParamRegExp pattern ignoreCase cat] in E, Hin.
  do 2 peel cd E Hin.
  rewrite rmatch_seq in E. apply Hattr in E.
  destruct Hin as [n Hn]. rewrite Hn in E. by exists n.
Qed.

Lemma lit_filename_found s k e :
  rmatch true (lit "filename") s k = Some e ->
  lower <$> take 8 (rest s) = str "filename".
Proof.
  intros H. apply rmatch_chars_inv in H. by apply canon_lower_fmap in H.
Qed.

Lemma filename_star_found s k e :
  rmatch true filename_star s k = Some e ->
  lower <$> take 8 (rest s) = str "filename".
Proof. unfold filename_star. rewrite rmatch_seq. apply lit_filename_found. Qed.

Lemma filename_continuation_found s k e :
  rmatch true filename_continuation s k = Some e ->
  lower <$> take 8 (rest s) = str "filename".
Proof.
  unfold filename_continuation. cbn [cat]. rewrite rmatch_seq.
  apply lit_filename_found.
Qed.

(** Nothing to replace: the string is returned as it is. *)
Lemma replace_all_none re (g : match_result -> M jsstring) s :
  exec re s 0 = None -> replace_all re g s = ret s.
Proof.
  intros H. unfold replace_all, match_all.
  change (2 + length s) with (S (S (length s))). cbn [match_all_from].
  rewrite H. cbn [splice]. by rewrite drop_0.
Qed.

Lemma no_continuation cd :
  exec (toParamRegExp filename_continuation) cd 0 = None ->
  continuation_parts cd = [].
Proof.
  intros H. unfold continuation_parts, match_all.
  change (2 + length cd) with (S (S (length cd))). cbn [match_all_from].
  by rewrite H.
Qed.

(** An encoded word ends in [?=]. *)
Lemma encoded_word_found i l m :
  match_at encoded_word i l = Some m -> holds [63; 61]%N l.
Proof.
  unfold match_at. destruct (rmatch _ _ _ _) as [e|] eqn:E; [| done].
  intros _.
  assert (Hin : exists n, rest (State i l (replicate (S (ngroups
                                  (pattern encoded_word))) None))
                          = drop n l) by by exists 0.
  cbn [encoded_word pattern ignoreCase cat] in E, Hin.
  do 7 peel l E Hin.
  destruct Hin as [n Hn].
  match type of E with
  | rmatch _ _ ?s _ = _ => destruct s as [p [|a [|b t]] c]
  end; cbn in E; cbn [rest] in *; try done.
  - by destruct (a =? 63)%N.
  - destruct (N.eqb_spec a 63) as [->|]; [| done].
    destruct (N.eqb_spec b 61) as [->|]; [| done].
    exists (take n l), t. rewrite <- (take_drop n l) at 1. by rewrite <- Hn.
Qed.

(** The language tag of an extended value. *)
Lemma language_tag_found lang value :
  Forall (fun c => c <> 39%N) lang ->
  exec language_tag (lang ++ 39%N :: value) 0
  = Some (Match 0 (S (length lang)) [Some (lang ++ [39%N])]).
Proof.
  intros Hlang. rewrite exec_0. apply search_at. unfold match_at.
  cbn [language_tag pattern ignoreCase cat ngroups Nat.add replicate].
  rewrite rmatch_seq. cbn [rmatch pos Nat.eqb].
  fold (rmatch false (Class true [(39, 39)%N])). cbn [rest].
  rewrite star_greedy.
  - cbn. replace (S (length lang)) with (length lang + 1) at 2 by lia.
    by rewrite take_app_add.
  - done.
  - intros x Hx p l' k'. cbn. unfold class_matches, in_ranges. cbn.
    rewrite Forall_forall in Hlang. specialize (Hlang x Hx).
    destruct (N.leb_spec 39 x), (N.leb_spec x 39); cbn; try done. lia.
  - rewrite length_app. lia.
  - cbn. eauto.
Qed.

Lemma language_tag_none value :
  Forall (fun c => c <> 39%N) value -> exec language_tag value 0 = None.
Proof.
  intros Hvalue. rewrite exec_0.
  assert (Hat : match_at language_tag 0 value = None).
  { unfold match_at. destruct (rmatch _ _ _ _) as [e|] eqn:E; [| done].
    exfalso.
    assert (Hin : exists n, rest (State 0 value (replicate (S (ngroups
                                    (pattern language_tag))) None))
                            = drop n value) by by exists 0.
    cbn [language_tag pattern ignoreCase cat] in E, Hin.
    do 2 peel value E Hin.
    destruct Hin as [n Hn].
    match type of E with
    | rmatch _ _ ?s _ = _ => destruct s as [p [|a t] c]
    end; cbn in E; cbn [rest] in *; [done |].
    destruct (N.eqb_spec a 39) as [->|]; [| done].
    rewrite Forall_forall in Hvalue. apply (Hvalue 39%N); [| done].
    rewrite <- (take_drop n value), <- Hn.
    apply elem_of_app. right. left. }
  destruct value; cbn [search]; rewrite Hat; [done |].
  apply (search_bol language_tag _ eq_refl). lia.
Qed.

Lemma indexOf_none c : forall s,
  Forall (fun x => x <> c) s -> indexOf s c = None.
Proof.
  induction s as [|x s IH]; intros H; [done |].
  inversion H; subst. cbn. rewrite (proj2 (N.eqb_neq _ _)) by done.
  by rewrite IH.
Qed.

Lemma indexOf_app c b : forall a,
  Forall (fun x => x <> c) a -> indexOf (a ++ c :: b) c = Some (length a).
Proof.
  induction a as [|x a IH]; intros H.
  - cbn. by rewrite N.eqb_refl.
  - inversion H; subst. cbn. rewrite (proj2 (N.eqb_neq _ _)) by done.
    by rewrite IH.
Qed.

Lemma drop_after (c : N) (b : jsstring) : forall a,
  drop (S (length a)) (a ++ c :: b) = b.
Proof. induction a as [|x a IH]; [done | exact IH]. Qed.

(** ** [String.prototype.replace], match by match *)

Lemma match_all_from_first fuel re s from m ms :
  match_all_from fuel re s from = Some (m :: ms) -> from <= index m.
Proof.
  destruct fuel as [|fuel]; [done |]. cbn [match_all_from].
  destruct (exec re s from) as [m0|] eqn:E; [| done].
  destruct (match_all_from fuel re s _); [| done].
  intros [= <- _]. by apply (exec_ok (fun _ => True)) in E as [? _ _ _ _ _].
Qed.

Section ReplaceAll.

Variable re : RegExp.t.
Variable g : match_result -> M jsstring.
Variable lm : jsstring -> option (nat * jsstring).

Hypothesis lm_none : forall i l, lm l = None -> match_at re i l = None.
Hypothesis lm_some : forall i l n out,
    lm l = Some (n, out) ->
    0 < n /\ exists m, match_at re i l = Some m /\ index m = i /\
                       endIndex m = i + n /\ g m = ret out.

Lemma replace_from s : forall k fuel cur,
  length s - cur < k -> cur <= length s -> length s + 2 <= fuel + cur ->
  forall f,
    match match_all_from fuel re s cur with
    | Some ms => splice s cur ms g
    | None => fail NoFuel
    end f = (Ok (substitute lm k (drop cur s)), f).
Proof using lm_none lm_some.
  induction k as [|k IH]; intros fuel cur Hk Hcur Hfuel f; [lia |].
  destruct fuel as [|fuel]; [lia |].
  cbn [substitute].
  assert (Hexec : exec re s cur = search re cur (drop cur s)).
  { unfold exec. by destruct (Nat.ltb_spec (length s) cur); [lia |]. }
  destruct (lm (drop cur s)) as [[n out]|] eqn:Hlm.
  - destruct (lm_some cur _ _ _ Hlm) as (Hn & m & Hm & Hi & He & Hg).
    cbn [match_all_from]. rewrite Hexec, (search_at _ _ _ _ Hm).
    assert (endIndex m <= length s).
    { pose proof (search_at _ _ _ _ Hm) as Hs. rewrite <- Hexec in Hs.
      by apply (exec_ok (fun _ => True)) in Hs as [_ _ ? _ _ _]. }
    replace (endIndex m =? index m)%nat with false
      by (symmetry; apply Nat.eqb_neq; lia).
    specialize (IH fuel (endIndex m) ltac:(lia) ltac:(lia) ltac:(lia)).
    destruct (match_all_from fuel re s (endIndex m)) as [ms|];
      [| by specialize (IH f)].
    cbn [fmap option_fmap option_map splice]. unfold bind at 1.
    rewrite Hg. unfold ret at 1. unfold bind at 1. rewrite IH.
    unfold ret. rewrite Hi, Nat.sub_diag, take_0. cbn [app].
    by rewrite He, drop_drop.
  - pose proof (lm_none cur _ Hlm) as Hat.
    destruct (drop cur s) as [|x t] eqn:Hl.
    + cbn [match_all_from]. rewrite Hexec. cbn [search]. rewrite Hat.
      cbn [splice]. by rewrite Hl.
    + assert (cur < length s).
      { destruct (Nat.lt_ge_cases cur (length s)); [done |].
        by rewrite drop_ge in Hl by lia. }
      assert (Ht : drop (S cur) s = t).
      { change (S cur) with (1 + cur). rewrite <- Nat.add_comm.
        rewrite <- drop_drop, Hl. done. }
      assert (Hsame : match_all_from (S fuel) re s cur
                      = match_all_from (S fuel) re s (S cur)).
      { cbn [match_all_from]. rewrite Hexec. cbn [search]. rewrite Hat.
        replace (search re (S cur) t) with (exec re s (S cur)); [done |].
        unfold exec. destruct (Nat.ltb_spec (length s) (S cur)); [lia |].
        by rewrite Ht. }
      rewrite Hsame.
      specialize (IH (S fuel) (S cur) ltac:(lia) ltac:(lia) ltac:(lia) f).
      rewrite Ht in IH.
      destruct (match_all_from (S fuel) re s (S cur)) as [[|m ms]|] eqn:Hms;
        [| | done].
      * cbn [splice] in *. rewrite Hl. rewrite Ht in IH.
        unfold ret in *. by injection IH as <-.
      * apply match_all_from_first in Hms.
        cbn [splice] in *. rewrite Hl. rewrite Ht in IH.
        replace (index m - cur) with (S (index m - S cur)) by lia.
        cbn [take]. unfold bind in *.
        destruct (g m f) as [[r|e] f1]; [| done].
        destruct (splice s (endIndex m) ms g f1) as [[tail|e] f2]; [| done].
        unfold ret in *. by injection IH as <- <-.
Qed.

(** [s.replace(re, g)] walks [s] once. *)
Lemma replace_all_substitute s f :
  replace_all re g s f = (Ok (substitute lm (S (length s)) s), f).
Proof using lm_none lm_some.
  unfold replace_all, match_all.
  rewrite (replace_from s (S (length s)) (2 + length s) 0) by lia.
  by rewrite drop_0.
Qed.

End ReplaceAll.

(** ** Unquoting *)

Lemma substitute_fuel lm :
  (forall l n out, lm l = Some (n, out) -> 0 < n <= length l) ->
  forall k1 k2 l,
    length l < k1 -> length l < k2 -> substitute lm k1 l = substitute lm k2 l.
Proof.
  intros Hpos. induction k1 as [|k1 IH]; intros k2 l H1 H2; [lia |].
  destruct k2 as [|k2]; [lia |]. cbn [substitute].
  destruct (lm l) as [[n out]|] eqn:E.
  - apply Hpos in E. f_equal. apply IH; rewrite length_drop; lia.
  - destruct l as [|x t]; [done |]. f_equal. apply IH; simpl in *; lia.
Qed.

Lemma lm_backslash_pair_pos l n out :
  lm_backslash_pair l = Some (n, out) -> 0 < n <= length l.
Proof.
  destruct l as [|a [|x t]]; try done. cbn.
  destruct (_ && _); [| done]. intros [= <- _]. lia.
Qed.

Lemma backslash_pair_none i l :
  lm_backslash_pair l = None -> match_at backslash_pair i l = None.
Proof.
  unfold match_at. destruct l as [|a [|x t]]; cbn.
  - done.
  - by destruct (a =? 92)%N.
  - destruct (a =? 92)%N; [| done]. cbn [andb].
    by destruct (line_terminator x).
Qed.

Lemma backslash_pair_some i l n out :
  lm_backslash_pair l = Some (n, out) ->
  0 < n /\ exists m, match_at backslash_pair i l = Some m /\ index m = i /\
                     endIndex m = i + n /\ dollar1 m = ret out.
Proof.
  unfold match_at. destruct l as [|a [|x t]]; try done. cbn.
  destruct (a =? 92)%N; [| done]. cbn [andb].
  destruct (line_terminator x); [done |]. cbn [negb].
  intros [= <- <-]. split; [lia |]. eexists. split; [reflexivity |].
  unfold capture. cbn [index endIndex pos rest caps].
  repeat split; [lia |].
  unfold dollar1, group. cbn [groups].
  replace (S (S i) - S i) with 1 by lia. done.
Qed.

(** [replace(/\\(.)/g, '$1')] walks the string once. *)
Lemma unbackslash s f :
  replace_all backslash_pair dollar1 s f
  = (Ok (substitute lm_backslash_pair (S (length s)) s), f).
Proof.
  apply replace_all_substitute;
    [apply backslash_pair_none | apply backslash_pair_some].
Qed.

Lemma quoted_text_cons c s : quoted_text (c :: s) = quoted_pair c ++ quoted_text s.
Proof. done. Qed.

Lemma quoted_text_app s1 s2 :
  quoted_text (s1 ++ s2) = quoted_text s1 ++ quoted_text s2.
Proof. unfold quoted_text. by rewrite fmap_app, concat_app. Qed.

(** Unescaping the escaped text of a piece gives the text back. *)
Lemma unbackslash_quoted_text b : forall seg k,
  Forall (fun c => c <> 34%N) seg ->
  length (quoted_text seg ++ b) < k ->
  substitute lm_backslash_pair k (quoted_text seg ++ b)
  = seg ++ substitute lm_backslash_pair (S (length b)) b.
Proof.
  induction seg as [|c seg IH]; intros k Hseg Hk.
  - apply (substitute_fuel _ lm_backslash_pair_pos); simpl in *; lia.
  - inversion Hseg as [|? ? Hc Hrest]; subst.
    rewrite quoted_text_cons in *. unfold quoted_pair in *.
    rewrite (proj2 (N.eqb_neq _ _) Hc) in *. cbn [orb] in *.
    destruct k as [|k]; [lia |].
    destruct (N.eqb_spec c 92) as [->|Hne].
    + cbn [app substitute lm_backslash_pair]. cbn [N.eqb Pos.eqb andb].
      change (line_terminator 92) with false. cbn [negb drop app].
      f_equal. apply IH; [done |]. simpl in Hk. lia.
    + cbn [app substitute].
      assert (lm_backslash_pair (c :: quoted_text seg ++ b) = None) as ->.
      { cbn. destruct (quoted_text seg ++ b); [done |].
        by rewrite (proj2 (N.eqb_neq _ _) Hne). }
      f_equal. apply IH; [done |]. simpl in Hk. lia.
Qed.

Lemma unbackslash_text seg tail f :
  Forall (fun c => c <> 34%N) seg ->
  tail = [] \/ tail = [92%N] ->
  replace_all backslash_pair dollar1 (quoted_text seg ++ tail) f
  = (Ok (seg ++ tail), f).
Proof.
  intros Hseg Htail. rewrite unbackslash.
  rewrite unbackslash_quoted_text by (done || lia).
  by destruct Htail as [-> | ->].
Qed.

Lemma quoted_text_no_quote seg :
  Forall (fun c => c <> 34%N) seg -> Forall (fun c => c <> 34%N) (quoted_text seg).
Proof.
  induction 1 as [|c seg Hc _ IH]; [constructor |].
  rewrite quoted_text_cons. apply Forall_app. split; [| done].
  unfold quoted_pair. destruct (_ || _); repeat constructor; done.
Qed.

(** *** The pieces *)

Lemma split2_cons2 a b x y t cur :
  split2 a b (x :: y :: t) cur
  = if ((x =? a) && (y =? b))%N then rev cur :: split2 a b t []
    else split2 a b (y :: t) (x :: cur).
Proof. done. Qed.

Lemma split2_step x t cur :
  (x = 92%N -> head t <> Some 34%N) ->
  split2 92 34 (x :: t) cur = split2 92 34 t (x :: cur).
Proof.
  intros H. destruct t as [|y t]; [done |]. rewrite split2_cons2.
  destruct (N.eqb_spec x 92) as [->|]; [| done].
  destruct (N.eqb_spec y 34) as [->|]; [| done].
  by destruct H.
Qed.

Lemma split2_first : forall l cur,
  exists first more, split2 92 34 l cur = (rev cur ++ first) :: more.
Proof.
  induction l as [|x l IH]; intros cur.
  - exists [], []. simpl. by rewrite app_nil_r.
  - destruct l as [|y l].
    + exists [x], []. done.
    + rewrite split2_cons2. destruct (_ && _).
      * exists [], (split2 92 34 l []). by rewrite app_nil_r.
      * destruct (IH (x :: cur)) as (first & more & ->).
        exists (x :: first), more. cbn [rev]. by rewrite <- app_assoc.
Qed.

Lemma unquote_parts_nonempty parts f r f' :
  parts <> [] -> unquote_parts parts f = (Ok r, f') -> r <> [].
Proof.
  destruct parts as [|p parts]; [done |]. intros _. cbn [unquote_parts].
  destruct (indexOf p dquote); unfold bind, ret.
  - destruct (replace_all _ _ _ f) as [[? | ?] ?]; [| done]. by intros [= <- _].
  - destruct (replace_all _ _ _ f) as [[? | ?] ?]; [| done].
    destruct (unquote_parts parts _) as [[? | ?] ?]; [| done].
    by intros [= <- _].
Qed.

Lemma split2_nonempty : forall l cur, split2 92 34 l cur <> [].
Proof. intros l cur. by destruct (split2_first l cur) as (? & ? & ->). Qed.

Lemma join_cons (sep p : jsstring) parts :
  parts <> [] -> join sep (p :: parts) = p ++ sep ++ join sep parts.
Proof. by destruct parts. Qed.

(** At a separator the piece begun is done, and the rest is unquoted
    from a fresh piece. *)
Lemma unquote_from_separator seg rest f text f' :
  Forall (fun c => c <> 34%N) seg ->
  unquote_from rest [] f = (Ok text, f') ->
  unquote_from (92%N :: 34%N :: rest) (rev (quoted_text seg)) f
  = (Ok (seg ++ [dquote] ++ text), f').
Proof.
  intros Hseg. unfold unquote_from. rewrite split2_cons2.
  cbn [N.eqb Pos.eqb andb].
  rewrite rev_involutive. cbn [unquote_parts].
  rewrite indexOf_none by (by apply quoted_text_no_quote).
  assert (Hrep : forall f0, replace_all backslash_pair dollar1 (quoted_text seg) f0
                            = (Ok seg, f0)).
  { intros f0. pose proof (unbackslash_text seg [] f0 Hseg (or_introl eq_refl)) as H.
    by rewrite !app_nil_r in H. }
  unfold bind. rewrite Hrep.
  destruct (unquote_parts (split2 92 34 rest []) f) as [[parts|e] f1] eqn:E;
    [| done].
  unfold ret. intros [= <- <-].
  rewrite join_cons; [done |].
  eapply unquote_parts_nonempty; [apply split2_nonempty | exact E].
Qed.

(** Walking over the escaped text [s] of a quoted string, up to what
    follows it, [tl]: when the text before [tl] in its piece comes back
    with [T] after it, so does the whole text. *)
Lemma unquote_walk tl T :
  (forall seg f,
      Forall (fun c => c <> 34%N) seg ->
      (last seg = Some 92%N -> head tl <> Some 34%N) ->
      unquote_from tl (rev (quoted_text seg)) f = (Ok (seg ++ T), f)) ->
  forall s pre f,
    Forall (fun c => c <> 34%N) pre ->
    (last (pre ++ s) = Some 92%N -> head tl <> Some 34%N) ->
    unquote_from (quoted_text s ++ tl) (rev (quoted_text pre)) f
    = (Ok (pre ++ s ++ T), f).
Proof.
  intros Htl. induction s as [|c s IH]; intros pre f Hpre Hlast.
  - rewrite app_nil_r in Hlast. cbn [quoted_text fmap list_fmap concat app].
    by apply Htl.
  - rewrite quoted_text_cons. unfold quoted_pair.
    assert (Hhead : head (quoted_text s ++ tl) = Some 34%N -> s = [] /\ head tl = Some 34%N).
    { destruct s as [|c' s]; [done |]. rewrite quoted_text_cons.
      unfold quoted_pair.
      destruct (N.eqb_spec c' 34) as [->|]; [done |]. cbn [orb].
      destruct (c' =? 92)%N; cbn; congruence. }
    destruct (N.eqb_spec c 34) as [->|Hc]; cbn [orb].
    + cbn [app].
      rewrite (unquote_from_separator pre _ f (s ++ T) f); [| done |].
      * done.
      * apply (IH [] f); [constructor |]. cbn [app]. intros Hs.
        apply Hlast. rewrite last_app. destruct s as [|c' s]; [done |].
        rewrite last_cons_cons. by rewrite Hs.
    + assert (Hpre' : Forall (fun c => c <> 34%N) (pre ++ [c])).
      { apply Forall_app. split; [done | by repeat constructor]. }
      assert (Hlast' : last ((pre ++ [c]) ++ s) = Some 92%N -> head tl <> Some 34%N)
        by by rewrite <- app_assoc.
      specialize (IH (pre ++ [c]) f Hpre' Hlast').
      rewrite quoted_text_app, rev_app_distr in IH.
      rewrite <- !app_assoc in IH. cbn [app] in IH |- *. rewrite <- IH.
      unfold unquote_from.
      destruct (N.eqb_spec c 92) as [->|Hne].
      * change (quoted_text [92%N]) with [92%N; 92%N]. cbn [rev app].
        rewrite split2_step by done.
        rewrite split2_step; [done |]. intros _ Hh.
        apply Hhead in Hh as [-> Hh]. revert Hh. apply Hlast.
        rewrite app_nil_r || idtac. by rewrite last_snoc.
      * assert (quoted_text [c] = [c]) as ->.
        { unfold quoted_text, quoted_pair. cbn.
          by rewrite (proj2 (N.eqb_neq _ _) Hc), (proj2 (N.eqb_neq _ _) Hne). }
        cbn [rev app]. by rewrite split2_step.
Qed.

(** What follows the text of a quoted string: nothing, *)
Lemma unquote_from_end seg f :
  Forall (fun c => c <> 34%N) seg ->
  unquote_from [] (rev (quoted_text seg)) f = (Ok (seg ++ []), f).
Proof.
  intros Hseg. unfold unquote_from. cbn [split2]. rewrite rev_involutive.
  cbn [unquote_parts]. rewrite indexOf_none by (by apply quoted_text_no_quote).
  pose proof (unbackslash_text seg [] f Hseg (or_introl eq_refl)) as H.
  rewrite app_nil_r in H. unfold bind. by rewrite H.
Qed.

(** the closing quote and anything after it, *)
Lemma unquote_from_quote junk seg f :
  Forall (fun c => c <> 34%N) seg ->
  unquote_from (34%N :: junk) (rev (quoted_text seg)) f = (Ok (seg ++ []), f).
Proof.
  intros Hseg. unfold unquote_from. rewrite split2_step by done.
  destruct (split2_first junk (34%N :: rev (quoted_text seg)))
    as (first & more & ->).
  cbn [rev]. rewrite rev_involutive, <- app_assoc. cbn [app unquote_parts].
  rewrite indexOf_app by (by apply quoted_text_no_quote).
  rewrite take_app_length.
  pose proof (unbackslash_text seg [] f Hseg (or_introl eq_refl)) as H.
  rewrite app_nil_r in H. unfold bind. by rewrite H.
Qed.

(** or an escaped backslash before the closing quote. *)
Lemma unquote_from_backslash seg f :
  Forall (fun c => c <> 34%N) seg ->
  unquote_from [92; 92; 34]%N (rev (quoted_text seg)) f
  = (Ok (seg ++ [92; 34]%N), f).
Proof.
  intros Hseg. unfold unquote_from. rewrite split2_cons2.
  cbn [N.eqb Pos.eqb andb]. rewrite split2_cons2. cbn [N.eqb Pos.eqb andb split2 rev].
  rewrite rev_involutive. cbn [unquote_parts].
  assert (Hno : Forall (fun c => c <> 34%N) (quoted_text seg ++ [92%N])).
  { apply Forall_app. split; [by apply quoted_text_no_quote |].
    by repeat constructor. }
  rewrite indexOf_none by done. cbn [indexOf].
  pose proof (unbackslash_text seg [92%N] f Hseg (or_intror eq_refl)) as H1.
  pose proof (unbackslash_text [] [] f (Forall_nil_2 _) (or_introl eq_refl)) as H2.
  unfold bind. rewrite H1. cbn [quoted_text fmap list_fmap concat app] in H2.
  rewrite H2. unfold ret. cbn [join]. by rewrite <- app_assoc.
Qed.

(** ** Encoded words *)

Lemma rmatch_group ci i r s k :
  rmatch ci (Group i r) s k = rmatch ci r s (fun s1 => k (capture i s s1)).
Proof. done. Qed.

Lemma rmatch_star ci r s k :
  rmatch ci (Star r) s k = star_loop (rmatch ci r) k (length (rest s)) s.
Proof. done. Qed.

Lemma rmatch_char ci c p x t caps k :
  rmatch ci (Char c) (State p (x :: t) caps) k
  = if (canonicalize ci x =? canonicalize ci c)%N
    then k (State (S p) t caps) else None.
Proof. done. Qed.

Lemma rmatch_class ci neg rs p x t caps k :
  rmatch ci (Class neg rs) (State p (x :: t) caps) k
  = if class_matches neg rs x then k (State (S p) t caps) else None.
Proof. done. Qed.

Lemma encoded_word_shape charset encoding text tail :
  encoded_word_of charset encoding text ++ tail
  = 61%N :: 63%N :: charset ++
      63%N :: encoding :: 63%N :: text ++ 63%N :: 61%N :: tail.
Proof.
  unfold encoded_word_of. cbn [str app N_of_ascii].
  rewrite <- !app_assoc. cbn [app]. f_equal. f_equal. f_equal.
  by rewrite <- !app_assoc.
Qed.

Lemma encoded_word_length charset encoding text :
  length (encoded_word_of charset encoding text)
  = 7 + length charset + length text.
Proof.
  rewrite <- (app_nil_r (encoded_word_of _ _ _)), encoded_word_shape.
  cbn [length]. rewrite length_app. cbn [length]. rewrite length_app.
  cbn [length]. lia.
Qed.

Local Abbreviation text_unit :=
  (Alt (Class true [(63, 63)]%N) (Seq (Char 63) (NegLook (Char 61)))).

Lemma encoded_text_found p c text tail :
  Forall (fun x => x <> 63%N) text ->
  rmatch false (Seq (Group 3 (Star text_unit)) (Seq (Char 63) (Char 61)))
         (State p (text ++ 63%N :: 61%N :: tail) c) Some
  = Some (State (S (S (p + length text))) tail (<[3 := Some text]> c)).
Proof.
  intros Htext. rewrite rmatch_seq, rmatch_group, rmatch_star. cbn [rest].
  assert (Hk : (fun s1 => rmatch false (Seq (Char 63) (Char 61))
                            (capture 3 (State p (text ++ 63%N :: 61%N :: tail) c) s1)
                            Some)
                 (State (p + length text) (63%N :: 61%N :: tail) c)
               = Some (State (S (S (p + length text))) tail (<[3 := Some text]> c))).
  { unfold capture. cbn [pos rest caps].
    replace (p + length text - p) with (length text) by lia.
    by rewrite take_app_length. }
  rewrite star_greedy.
  - exact Hk.
  - done.
  - intros x Hx p' l' k'. rewrite Forall_forall in Htext.
    specialize (Htext x Hx). cbn.
    unfold class_matches, in_ranges. cbn.
    rewrite (proj2 (N.eqb_neq _ _) Htext).
    destruct (N.leb_spec 63 x), (N.leb_spec x 63); cbn; try lia;
      by destruct (k' _).
  - rewrite length_app. lia.
  - by rewrite Hk.
Qed.

Lemma encoding_letter encoding :
  encoding ∈ [81; 113; 66; 98]%N ->
  class_matches false [(81, 81); (113, 113); (66, 66); (98, 98)]%N encoding
  = true.
Proof.
  rewrite !elem_of_cons, elem_of_nil. by intros [->|[->|[->|[->|[]]]]].
Qed.

Lemma encoded_word_at i charset encoding text tail :
  Forall (fun x => word_or_hyphen x = true) charset ->
  encoding ∈ [81; 113; 66; 98]%N ->
  Forall (fun x => x <> 63%N) text ->
  match_at encoded_word i (encoded_word_of charset encoding text ++ tail)
  = Some (Match i (i + length (encoded_word_of charset encoding text))
                [Some (encoded_word_of charset encoding text);
                 Some charset; Some [encoding]; Some text]).
Proof.
  intros Hcs Henc Htext. unfold match_at.
  cbn [encoded_word pattern ignoreCase cat ngroups Nat.add replicate].
  rewrite encoded_word_shape.
  rewrite rmatch_seq, rmatch_char. cbn [canonicalize andb N.eqb Pos.eqb].
  rewrite rmatch_seq, rmatch_char. cbn [canonicalize andb N.eqb Pos.eqb].
  rewrite rmatch_seq, rmatch_group, rmatch_star. cbn [rest].
  set (c1 := [None; Some charset; None; None] : list (option jsstring)).
  set (c2 := [None; Some charset; Some [encoding]; None] : list (option jsstring)).
  set (rest1 := 63%N :: encoding :: 63%N :: text ++ 63%N :: 61%N :: tail).
  match goal with
  | |- context [star_loop ?m ?k ?fuel ?s] =>
      assert (Hk : k (State (S (S i) + length charset) rest1
                            [None; None; None; None])
                   = Some (State (S (S (S (S (S i) + length charset + 2
                                           + length text))))
                                 tail
                                 [None; Some charset; Some [encoding]; Some text]))
  end.
  { unfold capture. cbn [pos rest caps].
    replace (S (S i) + length charset - S (S i)) with (length charset) by lia.
    rewrite take_app_length. unfold rest1.
    rewrite rmatch_seq, rmatch_char. cbn [canonicalize andb N.eqb Pos.eqb].
    rewrite rmatch_seq, rmatch_group, rmatch_class, encoding_letter by done.
    unfold capture. cbn [pos rest caps].
    replace (S (S (S (S i) + length charset)) - S (S (S i) + length charset))
      with 1 by lia.
    cbn [take].
    rewrite rmatch_seq, rmatch_char. cbn [canonicalize andb N.eqb Pos.eqb].
    rewrite encoded_text_found by done. cbn [list_insert insert].
    do 2 f_equal. lia. }
  rewrite star_greedy.
  - rewrite Hk. cbn [pos caps]. f_equal.
    rewrite encoded_word_length. f_equal; [lia |].
    cbn [list_insert insert]. do 2 f_equal. subst rest1.
    rewrite <- encoded_word_shape.
    replace (S (S (S (S (S i) + length charset + 2 + length text))) - i)
      with (length (encoded_word_of charset encoding text))
      by (rewrite encoded_word_length; lia).
    by rewrite take_app_length.
  - done.
  - intros x Hx p' l' k'. rewrite Forall_forall in Hcs.
    specialize (Hcs x Hx). rewrite rmatch_class.
    unfold class_matches. cbn [xorb].
    unfold word_or_hyphen in Hcs. by rewrite Hcs.
  - rewrite length_app. lia.
  - by rewrite Hk.
Qed.

(** One encoded word at the start of the value, and no other after
    it: the word is replaced, the rest is kept. *)
Lemma replace_encoded_word (g : match_result -> M jsstring)
      charset encoding text tail f :
  Forall (fun x => word_or_hyphen x = true) charset ->
  encoding ∈ [81; 113; 66; 98]%N ->
  Forall (fun x => x <> 63%N) text ->
  ~ holds (str "?=") tail ->
  replace_all encoded_word g
    (encoded_word_of charset encoding text ++ tail) f
  = (let* r := g (Match 0 (length (encoded_word_of charset encoding text))
                        [Some (encoded_word_of charset encoding text);
                         Some charset; Some [encoding]; Some text]) in
     ret (r ++ tail)) f.
Proof.
  intros Hcs Henc Htext Htail. unfold replace_all, match_all.
  set (w := encoded_word_of charset encoding text).
  change (2 + length (w ++ tail)) with (S (S (length (w ++ tail)))).
  cbn [match_all_from].
  pose proof (search_at _ _ _ _ (encoded_word_at 0 _ _ _ tail Hcs Henc Htext))
    as Hs.
  fold w in Hs. rewrite exec_0, Hs.
  cbn [index endIndex Nat.add].
  assert (Hlen : length w = 7 + length charset + length text)
    by apply encoded_word_length.
  replace (length w =? 0)%nat with false
    by (symmetry; apply Nat.eqb_neq; lia).
  assert (exec encoded_word (w ++ tail) (length w) = None) as ->.
  { unfold exec. rewrite length_app.
    destruct (Nat.ltb_spec (length w + length tail) (length w)); [lia |].
    rewrite drop_app_length. apply search_none. intros j _.
    destruct (match_at _ _ _) eqn:E; [| done].
    apply encoded_word_found in E as (before & after & E).
    exfalso. apply Htail. exists (take j tail ++ before), after.
    rewrite <- (take_drop j tail) at 1. rewrite E. by rewrite <- app_assoc. }
  cbn [fmap option_fmap option_map splice index endIndex].
  rewrite drop_app_length. cbn [Nat.sub take app].
  unfold bind, ret. by destruct (g _ f) as [[r|e] f1].
Qed.

(** *** The Q encoding *)

Lemma hex_class_is_hex x :
  class_matches false [(48, 57); (97, 102); (65, 70)]%N x = is_hex x.
Proof.
  unfold class_matches, in_ranges, is_hex, is_digit. cbn.
  destruct ((48 <=? x) && (x <=? 57))%N, ((97 <=? x) && (x <=? 102))%N,
    ((65 <=? x) && (x <=? 70))%N; done.
Qed.

Lemma is_hex_val x : is_hex x = true -> (is_hex x && (hex_val x <? 16)%N) = true.
Proof.
  intros H. apply hex_class_digit. by rewrite hex_class_is_hex.
Qed.

Lemma lm_underscore_pos l n out :
  lm_underscore l = Some (n, out) -> 0 < n <= length l.
Proof.
  destruct l as [|a t]; [done |]. cbn. destruct (a =? 95)%N; [| done].
  intros [= <- _]. lia.
Qed.

Lemma underscore_none i l :
  lm_underscore l = None -> match_at underscore i l = None.
Proof.
  unfold match_at. destruct l as [|a t]; cbn; [done |].
  by destruct (a =? 95)%N.
Qed.

Lemma underscore_some i l n out :
  lm_underscore l = Some (n, out) ->
  0 < n /\ exists m, match_at underscore i l = Some m /\ index m = i /\
                     endIndex m = i + n /\
                     (fun _ : match_result => ret (str " ")) m = ret out.
Proof.
  unfold match_at. destruct l as [|a t]; [done |]. cbn.
  destruct (a =? 95)%N; [| done]. intros [= <- <-].
  split; [lia |]. eexists. split; [reflexivity |].
  cbn [index endIndex pos]. repeat split. lia.
Qed.

Lemma lm_hex_escape_pos l n out :
  lm_hex_escape l = Some (n, out) -> 0 < n <= length l.
Proof.
  destruct l as [|a [|h1 [|h2 t]]]; try done. cbn.
  destruct (_ && _); [| done]. intros [= <- _]. lia.
Qed.

Lemma hex_escape_none i l :
  lm_hex_escape l = None -> match_at hex_escape i l = None.
Proof.
  unfold match_at.
  destruct l as [|a [|h1 [|h2 t]]]; cbn -[class_matches]; try done.
  - by destruct (a =? 61)%N.
  - destruct (a =? 61)%N; [| done]. by destruct (class_matches _ _ h1).
  - rewrite !hex_class_is_hex. destruct (a =? 61)%N; [| done].
    cbn [andb]. destruct (is_hex h1); [| done]. cbn [andb].
    by destruct (is_hex h2).
Qed.

Lemma hex_escape_some i l n out :
  lm_hex_escape l = Some (n, out) ->
  0 < n /\ exists m, match_at hex_escape i l = Some m /\ index m = i /\
                     endIndex m = i + n /\
                     (fun m => let* hex := defined (group m 1) in
                               let* code := parseInt hex 16 in
                               ret (fromCharCode code)) m = ret out.
Proof.
  unfold match_at.
  destruct l as [|a [|h1 [|h2 t]]]; try done. cbn -[class_matches].
  rewrite !hex_class_is_hex.
  destruct (a =? 61)%N; [| done]. cbn [andb].
  destruct (is_hex h1) eqn:H1; [| done]. cbn [andb].
  destruct (is_hex h2) eqn:H2; [| done].
  intros [= <- <-]. split; [lia |]. eexists. split; [reflexivity |].
  unfold capture. cbn [index endIndex pos rest caps].
  repeat split; [lia |].
  unfold group. cbn [groups].
  replace (S (S (S i)) - S i) with 2 by lia.
  cbn [list_insert insert lookup list_lookup default take defined].
  rewrite take_0. unfold id.
  change ((let* code := parseInt [h1; h2] 16 in ret (fromCharCode code))
          = ret (fromCharCode (hex2 h1 h2))).
  rewrite parseInt_returns; [| done |].
  - change (ret (fromCharCode (digits_value 16 [h1; h2]))
            = ret (fromCharCode (hex2 h1 h2))).
    do 2 f_equal; unfold digits_value, hex2; cbn [fold_left]; lia.
  - repeat constructor; by apply is_hex_val.
Qed.

Lemma q_safe_range c : q_safe c = true -> (33 <= c <= 122)%N /\ c <> 61%N /\ c <> 63%N /\ c <> 95%N.
Proof.
  unfold q_safe, in_ranges. cbn.
  rewrite !orb_true_iff, !andb_true_iff, !N.leb_le. lia.
Qed.

Lemma hex_digit_range v :
  (v < 16)%N ->
  (48 <= hex_digit v <= 70)%N /\ hex_digit v <> 61%N /\ hex_digit v <> 63%N.
Proof. unfold hex_digit. destruct (N.ltb_spec v 10); lia. Qed.

Lemma hex_digit_cases v :
  (v < 16)%N ->
  (48 <= hex_digit v <= 57)%N \/ (65 <= hex_digit v <= 70)%N.
Proof. unfold hex_digit. destruct (N.ltb_spec v 10); lia. Qed.

Lemma lm_hex_escape_other c t :
  c <> 61%N -> lm_hex_escape (c :: t) = None.
Proof.
  intros Hc. destruct t as [|h1 [|h2 t]]; try done. cbn.
  by rewrite (proj2 (N.eqb_neq _ _) Hc).
Qed.

Lemma lm_underscore_other c t :
  c <> 95%N -> lm_underscore (c :: t) = None.
Proof. intros Hc. cbn. by rewrite (proj2 (N.eqb_neq _ _) Hc). Qed.

(** Underscores to spaces, then [=XX] to bytes, undo the Q encoding. *)
Lemma q_decode_steps bytes :
  Forall (fun c => (c <= 255)%N) bytes ->
  exists mid,
    (forall k, length (q_encode bytes) < k ->
               substitute lm_underscore k (q_encode bytes) = mid) /\
    (forall k, length mid < k -> substitute lm_hex_escape k mid = bytes).
Proof.
  induction 1 as [|c bytes Hc _ (mid & IH1 & IH2)].
  { exists []. split; intros [|k] ?; done || lia. }
  unfold q_encode. cbn [fmap list_fmap concat]. fold (q_encode bytes).
  unfold q_encode_byte.
  assert (c / 16 < 16)%N by (apply N.Div0.div_lt_upper_bound; lia).
  assert (c mod 16 < 16)%N by (apply N.mod_lt; lia).
  destruct (q_safe c) eqn:Hs; [| destruct (N.eqb_spec c 32) as [->|H32]].
  - apply q_safe_range in Hs as (_ & H61 & _ & H95).
    exists (c :: mid). split; intros [|k] Hk; try (simpl in Hk; lia).
    + cbn [app substitute]. rewrite lm_underscore_other by done.
      f_equal. apply IH1. simpl in Hk. lia.
    + cbn [substitute]. rewrite lm_hex_escape_other by done.
      f_equal. apply IH2. simpl in Hk. lia.
  - exists (32%N :: mid). split; intros [|k] Hk; try (simpl in Hk; lia).
    + cbn [app substitute lm_underscore N.eqb Pos.eqb drop]. 
      f_equal. apply IH1. simpl in Hk. lia.
    + cbn [substitute]. rewrite lm_hex_escape_other by done.
      f_equal. apply IH2. simpl in Hk. lia.
  - destruct (hex_digit_range (c / 16)) as (? & ? & ?); [done |].
    destruct (hex_digit_range (c mod 16)) as (? & ? & ?); [done |].
    exists (61%N :: hex_digit (c / 16) :: hex_digit (c mod 16) :: mid).
    split; intros k Hk.
    + destruct k as [|[|[|k]]]; try (simpl in Hk; lia).
      cbn [app substitute]. rewrite !lm_underscore_other by lia.
      do 3 f_equal. apply IH1. simpl in Hk. lia.
    + destruct k as [|k]; [simpl in Hk; lia |].
      cbn [substitute lm_hex_escape N.eqb Pos.eqb andb].
      rewrite !hex_digit_hex by done. cbn [andb drop].
      rewrite hex2_digits by lia. unfold fromCharCode.
      rewrite N.mod_small by lia. cbn [app]. f_equal.
      apply IH2. simpl in Hk. lia.
Qed.

Lemma q_encode_chars bytes :
  Forall (fun c => (c <= 255)%N) bytes ->
  Forall (fun x => (33 <= x <= 122)%N /\ x <> 63%N) (q_encode bytes).
Proof.
  induction 1 as [|c bytes Hc _ IH]; [constructor |].
  unfold q_encode. cbn [fmap list_fmap concat]. fold (q_encode bytes).
  apply Forall_app. split; [| done]. unfold q_encode_byte.
  assert (c / 16 < 16)%N by (apply N.Div0.div_lt_upper_bound; lia).
  assert (c mod 16 < 16)%N by (apply N.mod_lt; lia).
  destruct (q_safe c) eqn:Hs; [| destruct (c =? 32)%N].
  - apply q_safe_range in Hs. repeat constructor; lia.
  - repeat constructor; lia.
  - destruct (hex_digit_range (c / 16)) as (? & ? & ?); [done |].
    destruct (hex_digit_range (c mod 16)) as (? & ? & ?); [done |].
    repeat constructor; lia.
Qed.

Lemma word_or_hyphen_range c :
  word_or_hyphen c = true -> (45 <= c <= 122)%N /\ c <> 63%N.
Proof.
  unfold word_or_hyphen, in_ranges, word. cbn.
  rewrite !orb_true_iff, !andb_true_iff, !N.leb_le. lia.
Qed.

(** The test that lets [rfc2047decode] go on. *)
Lemma encoded_word_goes_on charset encoding text tail :
  Forall (fun x => word_or_hyphen x = true) charset ->
  encoding ∈ [81; 113; 66; 98]%N ->
  Forall (fun c => ~ control_or_high_unit c) (text ++ tail) ->
  negb (bool_decide (take 2 (encoded_word_of charset encoding text ++ tail)
                     = str "=?"))
  || test control_or_high (encoded_word_of charset encoding text ++ tail)
  = false.
Proof.
  intros Hcs Henc Hrest. rewrite encoded_word_shape. cbn [take].
  rewrite bool_decide_eq_true_2 by done. cbn [negb orb].
  unfold control_or_high. rewrite test_class.
  apply (not_existsb_in_ranges _ control_or_high_unit);
    [intros c; apply control_or_high_in_ranges |].
  assert (Hok : forall c, (26 <= c <= 127)%N -> ~ control_or_high_unit c).
  { unfold control_or_high_unit, high. lia. }
  apply Forall_app in Hrest as [Htext Htail].
  repeat (apply Forall_cons; split; [apply Hok; lia |]).
  apply Forall_app. split.
  { eapply Forall_impl; [exact Hcs |]. intros c Hc%word_or_hyphen_range.
    apply Hok. lia. }
  apply Forall_cons. split; [apply Hok; lia |].
  apply Forall_cons. split.
  { apply Hok. revert Henc. rewrite !elem_of_cons, elem_of_nil.
    intros [->|[->|[->|[->|[]]]]]; lia. }
  apply Forall_cons. split; [apply Hok; lia |].
  apply Forall_app. split; [done |].
  repeat (apply Forall_cons; split; [apply Hok; lia |]). done.
Qed.

(** ** Parameters of a header *)

Lemma rmatch_alt ci r1 r2 s k :
  rmatch ci (Alt r1 r2) s k
  = match rmatch ci r1 s k with
    | Some e => Some e
    | None => rmatch ci r2 s k
    end.
Proof. done. Qed.

Lemma rmatch_bol ci s k :
  rmatch ci Bol s k = if Nat.eqb (pos s) 0 then k s else None.
Proof. done. Qed.

Lemma star_none m k fuel s :
  (forall k', m s k' = None) -> star_loop m k fuel s = k s.
Proof. intros H. destruct fuel; [done |]. simpl. by rewrite H. Qed.

(** A match takes code units that its pattern allows. *)
Lemma rmatch_only (P : N -> Prop) ci r s k e :
  only P ci r ->
  rmatch ci r s k = Some e ->
  exists s' taken, k s' = Some e /\ rest s = taken ++ rest s' /\ Forall P taken.
Proof.
  intros Ho H. apply (rmatch_inv P) in H as (s' & Hk & He).
  exists s', (take (pos s' - pos s) (rest s)). split; [done |]. split.
  - rewrite (ext_rest _ _ _ _ _ _ _ He). by rewrite take_drop.
  - by apply (ext_only _ _ _ _ _ _ _ He).
Qed.

Lemma rmatch_char_inv ci c s k e :
  rmatch ci (Char c) s k = Some e ->
  exists x t, rest s = x :: t /\ canonicalize ci x = canonicalize ci c /\
              k (State (S (pos s)) t (caps s)) = Some e.
Proof.
  destruct s as [p [|x t] caps]; cbn; [done |].
  destruct (N.eqb_spec (canonicalize ci x) (canonicalize ci c)); [| done].
  eauto.
Qed.

Lemma canon_not_letter x c :
  (c < 65 \/ 90 < c < 97 \/ 122 < c)%N ->
  canonicalize true x = canonicalize true c -> x = c.
Proof.
  unfold canonicalize. cbn [andb].
  destruct (N.leb_spec 97 x), (N.leb_spec x 122), (N.leb_spec 97 c),
    (N.leb_spec c 122); cbn [andb]; lia.
Qed.

Lemma is_space_not_separator x : is_space x = true -> not_separator x.
Proof.
  unfold is_space, in_ranges, white_space, not_separator. cbn.
  rewrite !orb_true_iff, !andb_true_iff, !N.leb_le. lia.
Qed.

Lemma is_space_not_token x : is_space x = true -> ~ token_char x.
Proof.
  unfold is_space, in_ranges, white_space, token_char. cbn.
  rewrite !orb_true_iff, !andb_true_iff, !N.leb_le. lia.
Qed.

Lemma is_space_class x : class_matches false white_space x = is_space x.
Proof. done. Qed.

(** The first code unit of a list that is not as the ones before it. *)
Lemma first_other (P : N -> Prop) : forall a a' x x' r r',
  Forall P a -> ~ P x -> Forall P a' -> ~ P x' ->
  a ++ x :: r = a' ++ x' :: r' -> x = x' /\ r = r'.
Proof.
  induction a as [|y a IH]; intros [|y' a'] x x' r r' Ha Hx Ha' Hx' E.
  - by injection E.
  - injection E as -> _. inversion Ha'; subst. done.
  - injection E as <- _. inversion Ha; subst. done.
  - injection E as -> E. inversion Ha; inversion Ha'; subst. eauto.
Qed.

(** No parameter starts elsewhere than at index 0 or at a [;]. *)
Lemma param_needs_semicolon attr i l :
  0 < i -> head l <> Some 59%N -> match_at (toParamRegExp attr) i l = None.
Proof.
  intros Hi Hl. unfold match_at. cbn [toParamRegExp pattern ignoreCase cat].
  rewrite rmatch_seq, rmatch_alt, rmatch_bol. cbn [pos].
  destruct i; [lia |]. cbn [Nat.eqb].
  destruct l as [|x l]; [done |]. rewrite rmatch_char.
  destruct (N.eqb_spec (canonicalize true x) (canonicalize true 59)) as [E|];
    [| done].
  apply canon_not_letter in E; [| lia]. by subst.
Qed.

(** No parameter starts at index 0 of a header that has no [=] before
    its first [;]. *)
Lemma param_not_at_start attr before mid :
  only not_separator true attr ->
  before <> [] -> Forall not_separator before ->
  match_at (toParamRegExp attr) 0 (before ++ 59%N :: mid) = None.
Proof.
  intros Ho Hne Hbefore. unfold match_at.
  destruct (rmatch _ _ _ _) as [e|] eqn:E; [exfalso | done].
  cbn [toParamRegExp pattern ignoreCase cat] in E.
  rewrite rmatch_seq, rmatch_alt, rmatch_bol in E. cbn [pos Nat.eqb] in E.
  destruct before as [|b before]; [done |]. inversion Hbefore as [|? ? Hb Hrest]; subst.
  rewrite <- app_comm_cons in E. rewrite rmatch_char in E.
  destruct (N.eqb_spec (canonicalize true b) (canonicalize true 59)) as [Eb|_].
  { apply canon_not_letter in Eb; [| lia]. by destruct Hb. }
  match type of E with
  | match ?X with _ => _ end = _ => destruct X as [e'|] eqn:E'; [| done]
  end.
  clear E. rename E' into E.
  rewrite rmatch_seq in E.
  apply (rmatch_only not_separator) in E as (s1 & t1 & E & R1 & F1);
    [| intros x; rewrite is_space_class; apply is_space_not_separator].
  rewrite rmatch_seq in E.
  apply (rmatch_only not_separator) in E as (s2 & t2 & E & R2 & F2); [| done].
  rewrite rmatch_seq in E.
  apply (rmatch_only not_separator) in E as (s3 & t3 & E & R3 & F3);
    [| intros x; rewrite is_space_class; apply is_space_not_separator].
  rewrite rmatch_seq in E.
  apply rmatch_char_inv in E as (x & t & R4 & Ex & _).
  apply canon_not_letter in Ex; [| lia]. subst x.
  cbn [rest] in R1. rewrite R2, R3, R4 in R1.
  rewrite !app_assoc in R1. rewrite app_comm_cons in R1.
  apply (first_other not_separator) in R1 as [? _]; try done.
  - by intros [? _].
  - rewrite <- app_assoc. by rewrite !Forall_app.
  - by intros [_ ?].
Qed.

Lemma toParamRegExp_groups attr :
  ngroups (pattern (toParamRegExp attr)) = S (ngroups attr).
Proof. cbn. lia. Qed.

(** The match of a parameter at its [;]. The name pattern [attr] has
    [g] groups, and matching [name] before a [=] it fills them as
    [found] tells. *)
Section ParamAt.

Variable attr : regex.
Variable name : jsstring.
Variable g : nat.
Variable found : list (option jsstring) -> list (option jsstring).

Hypothesis attr_name : forall p t c k,
    is_Some (k (State (p + length name) (61%N :: t) (found c))) ->
    rmatch true attr (State p (name ++ 61%N :: t) c) k
    = k (State (p + length name) (61%N :: t) (found c)).
Hypothesis attr_groups : ngroups attr = g.
Hypothesis attr_semicolon : forall p t c k,
    rmatch true attr (State p (59%N :: t) c) k = None.
Hypothesis name_head : exists x name', name = x :: name' /\ is_space x = false.

Local Abbreviation after_name :=
  (Seq (Star ws) (Seq (Char 61) (Seq (Star ws) (Group (S g) value_pattern)))).

Lemma param_from_name p value post c :
  (exists v value', value = v :: value' /\ is_space v = false) ->
  (forall q c k,
      is_Some (k (State (q + length value) post c)) ->
      rmatch true value_pattern (State q (value ++ post) c) k
      = k (State (q + length value) post c)) ->
  rmatch true (Seq attr after_name)
         (State p (name ++ 61%N :: value ++ post) c) Some
  = Some (State (S (p + length name) + length value) post
                (<[S g := Some value]> (found c))).
Proof using attr_name attr_groups.
  intros (v & value' & Hv & Hvs) Hvalue.
  assert (Hk : rmatch true after_name
                      (State (p + length name) (61%N :: value ++ post) (found c))
                      Some
               = Some (State (S (p + length name) + length value) post
                             (<[S g := Some value]> (found c)))).
  { rewrite rmatch_seq, rmatch_star.
    rewrite star_none by (intros k'; unfold ws; by rewrite rmatch_class).
    rewrite rmatch_seq, rmatch_char.
    change (canonicalize true 61 =? canonicalize true 61)%N with true. cbv iota.
    rewrite rmatch_seq, rmatch_star.
    rewrite star_none.
    - rewrite rmatch_group.
      rewrite Hvalue by (unfold capture; cbn; eauto).
      unfold capture. cbn [pos rest caps].
      replace (S (p + length name) + length value - S (p + length name))
        with (length value) by lia.
      by rewrite take_app_length.
    - intros k'. rewrite Hv. unfold ws.
      by rewrite <- app_comm_cons, rmatch_class, is_space_class, Hvs. }
  rewrite rmatch_seq, attr_name; [exact Hk |]. cbv beta. by rewrite Hk.
Qed.

Lemma param_from_semicolon p t c :
  rmatch true (Seq (Star ws) (Seq attr after_name)) (State p (59%N :: t) c) Some
  = None.
Proof using attr_semicolon attr_groups.
  rewrite rmatch_seq, rmatch_star.
  rewrite star_none by (intros k'; unfold ws; by rewrite rmatch_class).
  by rewrite rmatch_seq, attr_semicolon.
Qed.

Lemma param_from_spaces p spaces value post c :
  Forall (fun c => is_space c = true) spaces ->
  (exists v value', value = v :: value' /\ is_space v = false) ->
  (forall q c k,
      is_Some (k (State (q + length value) post c)) ->
      rmatch true value_pattern (State q (value ++ post) c) k
      = k (State (q + length value) post c)) ->
  rmatch true (Seq (Star ws) (Seq attr after_name))
         (State p (spaces ++ name ++ 61%N :: value ++ post) c) Some
  = Some (State (S (p + length spaces + length name) + length value) post
                (<[S g := Some value]> (found c))).
Proof using attr_name attr_groups name_head.
  intros Hspaces Hv Hvalue.
  destruct name_head as (x & name' & Hname & Hx).
  pose proof (param_from_name (p + length spaces) value post c Hv Hvalue) as Hk.
  rewrite rmatch_seq, rmatch_star. cbn [rest].
  rewrite star_greedy.
  - exact Hk.
  - intros p' k'. rewrite Hname, <- app_comm_cons. unfold ws.
    by rewrite rmatch_class, is_space_class, Hx.
  - intros y Hy p' l' k'. rewrite Forall_forall in Hspaces.
    unfold ws. by rewrite rmatch_class, is_space_class, (Hspaces y Hy).
  - rewrite length_app. lia.
  - by rewrite Hk.
Qed.

Lemma param_at p spaces value post :
  Forall (fun c => is_space c = true) spaces ->
  (exists v value', value = v :: value' /\ is_space v = false) ->
  (forall q c k,
      is_Some (k (State (q + length value) post c)) ->
      rmatch true value_pattern (State q (value ++ post) c) k
      = k (State (q + length value) post c)) ->
  match_at (toParamRegExp attr) p
           (59%N :: spaces ++ name ++ 61%N :: value ++ post)
  = Some (Match p (p + length (59%N :: spaces ++ name ++ 61%N :: value))
                (<[0 := Some (59%N :: spaces ++ name ++ 61%N :: value)]>
                   (<[S g := Some value]>
                      (found (replicate (S (S g)) None))))).
Proof using attr_name attr_groups attr_semicolon name_head.
  intros Hspaces Hv Hvalue.
  unfold match_at. rewrite toParamRegExp_groups, attr_groups.
  cbn [toParamRegExp pattern ignoreCase cat].
  rewrite attr_groups.
  rewrite rmatch_seq, rmatch_alt, rmatch_bol. cbn [pos].
  rewrite param_from_semicolon.
  match goal with
  | |- context [rmatch true (Char 59) ?s ?k] =>
      assert (rmatch true (Char 59) s k
              = Some (State (S (S p + length spaces + length name) + length value)
                            post
                            (<[S g := Some value]>
                               (found (replicate (S (S g)) None))))) as ->
  end.
  { rewrite rmatch_char.
    change (canonicalize true 59 =? canonicalize true 59)%N with true. cbv iota.
    apply param_from_spaces; done. }
  assert (Hlen : S (S p + length spaces + length name) + length value - p
                 = length (59%N :: spaces ++ name ++ 61%N :: value)).
  { cbn [length]. rewrite !length_app. cbn [length]. lia. }
  assert (Hin : 59%N :: spaces ++ name ++ 61%N :: value ++ post
                = (59%N :: spaces ++ name ++ 61%N :: value) ++ post).
  { cbn [app]. by rewrite <- !app_assoc. }
  destruct (Nat.eqb p 0); cbn [pos caps]; rewrite Hlen, Hin, take_app_length;
    do 2 f_equal; lia.
Qed.

End ParamAt.

(** *** The three parameter names *)

Lemma name_length (name : jsstring) :
  lower <$> name = str "filename" -> length name = 8.
Proof. intros H. apply (f_equal length) in H. by rewrite length_fmap in H. Qed.

Lemma lower_f x : lower x = 102%N -> x = 70%N \/ x = 102%N.
Proof.
  unfold lower. destruct (N.leb_spec 65 x), (N.leb_spec x 90); cbn [andb]; lia.
Qed.

Lemma name_not_space (name : jsstring) :
  lower <$> name = str "filename" ->
  exists x name', name = x :: name' /\ is_space x = false.
Proof.
  destruct name as [|x name']; [done |]. intros [= Hx _].
  exists x, name'. split; [done |]. by destruct (lower_f _ Hx) as [-> | ->].
Qed.

Lemma name_no_semicolon (name : jsstring) :
  lower <$> name = str "filename" -> Forall (fun c => c <> 59%N) name.
Proof.
  intros H. apply Forall_forall. intros x Hx ->.
  apply (list_elem_of_fmap_2 lower) in Hx. rewrite H in Hx.
  revert Hx. change (lower 59) with 59%N. cbn.
  rewrite !elem_of_cons, elem_of_nil. intros H'.
  repeat destruct H' as [H'|H']; done.
Qed.

Lemma lit_filename_name (name : jsstring) :
  lower <$> name = str "filename" ->
  forall p t c k,
    rmatch true (lit "filename") (State p (name ++ t) c) k
    = k (State (p + length name) t c).
Proof.
  intros H p t c k. rewrite (name_length _ H).
  change (str "filename") with (lower <$> str "filename") in H.
  apply canon_lower_fmap in H. unfold lit. by rewrite (rmatch_chars _ _ _ H).
Qed.

Lemma filename_star_name (name : jsstring) :
  lower <$> name = str "filename" ->
  forall p t c k,
    rmatch true filename_star (State p ((name ++ [42%N]) ++ t) c) k
    = k (State (p + length (name ++ [42%N])) t c).
Proof.
  intros H p t c k. unfold filename_star.
  rewrite rmatch_seq, <- app_assoc, lit_filename_name by done.
  cbn [app]. rewrite rmatch_char.
  change (canonicalize true 42 =? canonicalize true 42)%N with true. cbv iota.
  rewrite length_app. cbn [length]. do 2 f_equal. lia.
Qed.

Lemma only_letter (c : N) :
  (97 <= c <= 122)%N \/ c = 42%N ->
  forall x, canonicalize true x = canonicalize true c -> not_separator x.
Proof.
  intros Hc x. unfold canonicalize, not_separator. cbn [andb].
  destruct (N.leb_spec 97 x), (N.leb_spec x 122), (N.leb_spec 97 c),
    (N.leb_spec c 122); cbn [andb]; lia.
Qed.

Ltac only_letter :=
  let x := fresh "x" in let Hx := fresh "Hx" in
  intros x Hx; refine (only_letter _ _ x Hx); lia.

Lemma only_lit_filename : only not_separator true (lit "filename").
Proof.
  unfold lit.
  change (str "filename") with [102; 105; 108; 101; 110; 97; 109; 101]%N.
  cbn [fmap list_fmap cat only].
  repeat (split; [only_letter |]). only_letter.
Qed.

Lemma only_filename_star : only not_separator true filename_star.
Proof. split; [apply only_lit_filename | only_letter]. Qed.

Lemma only_filename_continuation :
  only not_separator true filename_continuation.
Proof.
  assert (Hd : forall x, class_matches false digit x = true -> not_separator x).
  { intros x. unfold class_matches, in_ranges, digit, not_separator. cbn.
    rewrite orb_false_r, andb_true_iff, !N.leb_le. lia. }
  unfold filename_continuation, Plus, Opt. cbn [cat only].
  split; [apply only_lit_filename |].
  split; [only_letter |].
  split; [split; [done | split; apply Hd] |].
  split; [only_letter | done].
Qed.

Lemma rmatch_chars_on ci : forall w s k e,
  rmatch ci (cat (Char <$> w)) s k = Some e ->
  k (State (pos s + length w) (drop (length w) (rest s)) (caps s)) = Some e.
Proof.
  induction w as [|x w IH]; intros s k e H.
  - destruct s. cbn in *. by rewrite Nat.add_0_r.
  - destruct w as [|x' w].
    + apply rmatch_char_inv in H as (y & t & Hs & _ & H).
      rewrite Hs. cbn. by rewrite Nat.add_1_r.
    + change (cat (Char <$> x :: x' :: w))
        with (Seq (Char x) (cat (Char <$> x' :: w))) in H.
      rewrite rmatch_seq in H. apply rmatch_char_inv in H as (y & t & Hs & _ & H).
      apply IH in H. cbn [pos rest caps] in H. rewrite Hs.
      change (length (x :: x' :: w)) with (S (length (x' :: w))).
      cbn [drop]. by rewrite Nat.add_succ_r.
Qed.

Lemma star_after_filename s k e :
  rmatch true (Seq (lit "filename") (Char 42)) s k = Some e ->
  lower <$> take 8 (rest s) = str "filename" /\
  head (drop 8 (rest s)) = Some 42%N.
Proof.
  rewrite rmatch_seq. intros H. split; [by apply lit_filename_found in H |].
  apply rmatch_chars_on in H. apply rmatch_char_inv in H as (x & t & Hs & Hx & _).
  cbn [rest] in Hs. change (length (str "filename")) with 8 in Hs.
  rewrite Hs. apply canon_not_letter in Hx; [| lia]. by subst.
Qed.

Lemma needs_star_filename_star : needs_star filename_star.
Proof. intros s k e. apply star_after_filename. Qed.

Lemma needs_star_filename_continuation : needs_star filename_continuation.
Proof.
  intros s k e. unfold filename_continuation. cbn [cat].
  rewrite rmatch_seq. intros H.
  apply (star_after_filename s (fun s1 => rmatch true
           (Seq (Group 1 (Seq (NegLook (Seq (Char 48) (Class false digit)))
                              (Plus (Class false digit))))
                (Group 2 (Opt (Char 42)))) s1 k) e).
  by rewrite !rmatch_seq in *.
Qed.

Lemma needs_star_found attr :
  needs_star attr ->
  forall s k e, rmatch true attr s k = Some e ->
                lower <$> take 8 (rest s) = str "filename".
Proof. intros H s k e E. by apply H in E as [? _]. Qed.

(** *** A plain parameter is no extended or continued one *)
(** A match of a parameter at a [;] with [name] after it has matched
    the name pattern at [name]. *)
Lemma param_reaches_name attr p spaces name tl c0 e :
  (forall s k e, rmatch true attr s k = Some e ->
                 lower <$> take 8 (rest s) = str "filename") ->
  Forall (fun c => is_space c = true) spaces ->
  lower <$> name = str "filename" ->
  rmatch true (pattern (toParamRegExp attr))
         (State p (59%N :: spaces ++ name ++ tl) c0) Some = Some e ->
  exists q c,
    rmatch true attr (State q (name ++ tl) c)
           (fun s1 =>
              rmatch true
                (Seq (Star ws) (Seq (Char 61) (Seq (Star ws)
                   (Group (S (ngroups attr)) value_pattern)))) s1 Some)
    = Some e.
Proof.
  intros Hattr Hspaces Hname E.
  cbn [toParamRegExp pattern ignoreCase cat] in E.
  rewrite rmatch_seq, rmatch_alt, rmatch_bol in E. cbn [pos] in E.
  assert (Hcase : exists q t c,
             rmatch true (Seq (Star ws) (Seq attr
               (Seq (Star ws) (Seq (Char 61) (Seq (Star ws)
                  (Group (S (ngroups attr)) value_pattern))))))
               (State q t c) Some = Some e /\
             (t = 59%N :: spaces ++ name ++ tl \/
              t = spaces ++ name ++ tl)).
  { match type of E with
    | match ?X with _ => _ end = _ => destruct X as [e'|] eqn:E1
    end.
    - injection E as ->. destruct (Nat.eqb p 0); [| done]. eauto 10.
    - rewrite rmatch_char in E.
      change (canonicalize true 59 =? canonicalize true 59)%N with true in E.
      cbv iota in E. eauto 10. }
  clear E. destruct Hcase as (q & t & c & E & Ht).
  rewrite rmatch_seq in E.
  apply (rmatch_only (fun x => is_space x = true)) in E
      as (s1 & taken & E & R1 & F1); [| by intros x].
  rewrite rmatch_seq in E. pose proof (Hattr _ _ _ E) as E8.
  cbn [rest] in R1.
  destruct (name_not_space _ Hname) as (x & name' & -> & Hx).
  destruct Ht as [-> | ->].
  - exfalso. destruct taken as [|y taken].
    + cbn [app] in R1. rewrite <- R1 in E8. by injection E8.
    + injection R1 as <- _. by inversion F1.
  - (* the white space taken is a part of [spaces] *)
    assert (Hsp : exists sp, spaces = taken ++ sp /\
                             rest s1 = sp ++ (x :: name') ++ tl).
    { clear E E8. revert taken R1 F1.
      induction spaces as [|y spaces IH]; intros taken R1 F1.
      - destruct taken as [|z taken]; [by exists [] |].
        injection R1 as <- _. inversion F1; subst. congruence.
      - destruct taken as [|z taken]; [by exists (y :: spaces) |].
        injection R1 as <- R1. inversion Hspaces; inversion F1; subst.
        destruct (IH ltac:(done) taken R1 ltac:(done)) as (sp & -> & ?).
        by exists sp. }
    destruct Hsp as (sp & -> & Hr). rewrite Hr in E8.
    destruct sp as [|z sp].
    + destruct s1 as [q1 r1 c1]. cbn [rest app] in Hr. subst r1. eauto.
    + exfalso. apply Forall_app in Hspaces as [_ Hz]. inversion Hz; subst.
      injection E8 as Ez _.
      assert (is_space z = false); [| congruence].
      destruct (name_not_space [z; 105; 108; 101; 110; 97; 109; 101]%N)
        as (z' & ? & [= <- _] & ?); [by cbn; rewrite Ez | done].
Qed.

Lemma plain_is_no_star attr p spaces name tl :
  needs_star attr ->
  Forall (fun c => is_space c = true) spaces ->
  lower <$> name = str "filename" ->
  match_at (toParamRegExp attr) p (59%N :: spaces ++ name ++ 61%N :: tl) = None.
Proof.
  intros Hattr Hspaces Hname. unfold match_at.
  destruct (rmatch _ _ _ _) as [e|] eqn:E; [exfalso | done].
  apply param_reaches_name in E as (q & c & E);
    [| by apply needs_star_found | done | done].
  apply Hattr in E as [_ E42]. cbn [rest] in E42.
  by rewrite <- (name_length _ Hname), drop_app_length in E42.
Qed.

(** *** Finding the parameter in a header *)

Lemma star_mentions_at attr :
  needs_star attr ->
  forall i l m,
    match_at (toParamRegExp attr) i l = Some m ->
    mentions (str "filename*") l.
Proof.
  intros Hattr i l m H. unfold match_at in H.
  destruct (rmatch _ _ _ _) as [e|] eqn:E; [| done]. clear H.
  assert (Hin : exists n, rest (State i l
                                  (replicate (S (ngroups
                                     (pattern (toParamRegExp attr)))) None))
                          = drop n l) by by exists 0.
  cbn [toParamRegExp pattern ignoreCase cat] in E, Hin.
  do 2 peel l E Hin.
  rewrite rmatch_seq in E. apply Hattr in E as [E8 E42].
  destruct Hin as [n Hn]. rewrite Hn in E8, E42. exists n.
  unfold stands_at. change (length (str "filename*")) with 9.
  assert (H9 : drop n l !! 8 = Some 42%N).
  { rewrite <- (Nat.add_0_r 8), <- lookup_drop, <- head_lookup. exact E42. }
  rewrite (take_S_r _ _ _ H9), fmap_app, E8. done.
Qed.

Lemma mentions_drop w n (s : jsstring) : mentions w (drop n s) -> mentions w s.
Proof. intros [i H]. exists (n + i). unfold stands_at in *. by rewrite <- drop_drop. Qed.

Lemma head_drop_app (a b : jsstring) j :
  j < length a -> head (drop j (a ++ b)) = a !! j.
Proof.
  revert j. induction a as [|x a IH]; intros [|j] Hj; simpl in *; try lia; [done |].
  apply IH. lia.
Qed.

Lemma before_no_match attr before mid j :
  only not_separator true attr ->
  Forall not_separator before ->
  j < length before ->
  match_at (toParamRegExp attr) j (drop j (before ++ 59%N :: mid)) = None.
Proof.
  intros Ho Hbefore Hj. destruct j as [|j].
  - rewrite drop_0. apply param_not_at_start; [done | | done].
    by destruct before; [simpl in Hj; lia |].
  - apply param_needs_semicolon; [lia |].
    rewrite head_drop_app by done.
    destruct (before !! S j) as [x|] eqn:Hx; [| done].
    apply list_elem_of_lookup_2 in Hx. rewrite Forall_forall in Hbefore.
    intros [= ->]. by destruct (Hbefore _ Hx).
Qed.

(** The parameter at the first [;] of the header is the one found. *)
Lemma param_present attr before mid m :
  only not_separator true attr ->
  Forall not_separator before ->
  match_at (toParamRegExp attr) (length before) (59%N :: mid) = Some m ->
  exec (toParamRegExp attr) (before ++ 59%N :: mid) 0 = Some m.
Proof.
  intros Ho Hbefore Hm. rewrite exec_0, search_skip.
  - by apply search_at.
  - intros j Hj. by apply before_no_match.
Qed.

(** No parameter [filename*] in the header: none at its first [;], no
    [;] in [r1] and no [filename*] in [r2]. *)
Lemma param_absent attr before r1 r2 :
  only not_separator true attr ->
  needs_star attr ->
  Forall not_separator before ->
  Forall (fun c => c <> 59%N) r1 ->
  ~ mentions (str "filename*") r2 ->
  match_at (toParamRegExp attr) (length before) (59%N :: r1 ++ r2) = None ->
  exec (toParamRegExp attr) (before ++ 59%N :: r1 ++ r2) 0 = None.
Proof.
  intros Ho Hattr Hbefore Hr1 Hr2 Hsemi. rewrite exec_0.
  apply search_none. intros j _. cbn [Nat.add].
  destruct (Nat.lt_trichotomy j (length before)) as [Hj|[->|Hj]].
  - by apply before_no_match.
  - by rewrite drop_app_length.
  - replace j with (length before + S (j - length before - 1)) at 2 by lia.
    rewrite <- drop_drop, drop_app_length. cbn [drop].
    set (j' := j - length before - 1).
    destruct (match_at _ j (drop j' (r1 ++ r2))) as [m|] eqn:E; [| done].
    exfalso.
    destruct (decide (head (drop j' (r1 ++ r2)) = Some 59%N)) as [Hh|Hh].
    + destruct (Nat.lt_ge_cases j' (length r1)) as [Hlt|Hge].
      * rewrite head_drop_app in Hh by done.
        apply list_elem_of_lookup_2 in Hh. rewrite Forall_forall in Hr1.
        by apply (Hr1 _ Hh).
      * rewrite drop_app_ge in E by done.
        apply (star_mentions_at _ Hattr) in E. by apply mentions_drop in E.
    + rewrite param_needs_semicolon in E; [done | lia | done].
Qed.

(** *** The value of a parameter *)

Lemma token_char_class c :
  token_char c -> class_matches true ((59, 59)%N :: white_space) c = true.
Proof.
  unfold token_char, class_matches, in_ranges, white_space. cbn.
  intros [[? ?] ?]. apply negb_true_iff.
  rewrite !orb_false_iff, !andb_false_iff, !N.leb_gt. lia.
Qed.

Lemma token_first_class c :
  token_char c -> c <> 34%N ->
  class_matches true ((34, 34)%N :: (59, 59)%N :: white_space) c = true.
Proof.
  unfold token_char, class_matches, in_ranges, white_space. cbn.
  intros [[? ?] ?] ?. apply negb_true_iff.
  rewrite !orb_false_iff, !andb_false_iff, !N.leb_gt. lia.
Qed.

Lemma token_char_not_space c : token_char c -> is_space c = false.
Proof.
  intros H. destruct (is_space c) eqn:E; [| done].
  by apply is_space_not_token in E.
Qed.

Lemma ends_token_class post p c k :
  ends_token post ->
  rmatch true (Class true ((59, 59)%N :: white_space)) (State p post c) k = None.
Proof.
  destruct post as [|x post]; [done |]. intros Hx. rewrite rmatch_class.
  unfold class_matches, in_ranges. cbn [existsb xorb fst snd].
  destruct Hx as [-> | Hx]; [done |].
  unfold is_space, in_ranges in Hx. rewrite Hx. by rewrite orb_true_r.
Qed.

(** A token is the value, up to a [;], white space or the end. *)
Lemma value_token v value post :
  token_char v -> v <> 34%N -> Forall token_char value -> ends_token post ->
  forall q c k,
    is_Some (k (State (q + length (v :: value)) post c)) ->
    rmatch true value_pattern (State q ((v :: value) ++ post) c) k
    = k (State (q + length (v :: value)) post c).
Proof.
  intros Hv Hq Hvalue Hpost q c k Hk.
  unfold value_pattern. rewrite rmatch_alt, rmatch_seq.
  rewrite <- app_comm_cons, rmatch_class, token_first_class by done.
  rewrite rmatch_star. cbn [rest].
  replace (q + length (v :: value)) with (S q + length value) in *
    by (cbn [length]; lia).
  rewrite star_greedy.
  - by destruct Hk as [e ->].
  - intros p' k'. by apply ends_token_class.
  - intros x Hx p' l' k'. rewrite Forall_forall in Hvalue.
    by rewrite rmatch_class, token_char_class by auto.
  - rewrite length_app. lia.
  - done.
Qed.

Lemma quoted_text_plain s :
  Forall (fun c => c <> 34%N /\ c <> 92%N) s -> quoted_text s = s.
Proof.
  induction 1 as [|c s [H1 H2] _ IH]; [done |].
  rewrite quoted_text_cons, IH. unfold quoted_pair.
  by rewrite (proj2 (N.eqb_neq _ _) H1), (proj2 (N.eqb_neq _ _) H2).
Qed.

Local Abbreviation quoted_unit :=
  (Alt (Class true [(34, 34); (92, 92)]%N) (Seq (Char 92) (Opt (Char 34)))).

Lemma quoted_unit_plain x p l c k :
  x <> 34%N -> x <> 92%N ->
  rmatch true quoted_unit (State p (x :: l) c) k = k (State (S p) l c).
Proof.
  intros H1 H2. rewrite rmatch_alt, rmatch_class.
  assert (class_matches true [(34, 34); (92, 92)]%N x = true) as ->.
  { unfold class_matches, in_ranges. cbn. apply negb_true_iff.
    rewrite !orb_false_iff, !andb_false_iff, !N.leb_gt. lia. }
  destruct (k _) as [e|]; [done |].
  rewrite rmatch_seq, rmatch_char.
  destruct (N.eqb_spec (canonicalize true x) (canonicalize true 92)) as [E|];
    [| done].
  apply canon_not_letter in E; [done | lia].
Qed.

(** A quoted string without a backslash is the value, to its closing
    quote. *)
Lemma value_quoted x s post :
  Forall (fun c => c <> 34%N /\ c <> 92%N) (x :: s) ->
  forall q c k,
    is_Some (k (State (q + length (quoted_string (x :: s))) post c)) ->
    rmatch true value_pattern (State q (quoted_string (x :: s) ++ post) c) k
    = k (State (q + length (quoted_string (x :: s))) post c).
Proof.
  intros Hs q c k Hk. unfold quoted_string in *.
  rewrite quoted_text_plain in * by done.
  inversion Hs as [|? ? [Hx1 Hx2] Hs']; subst.
  replace (q + length (dquote :: (x :: s) ++ [dquote]))
    with (S (S (S q + length s))) in *
    by (cbn [length]; rewrite length_app; cbn [length]; lia).
  unfold value_pattern. rewrite rmatch_alt.
  cbn [app]. rewrite rmatch_seq, rmatch_class.
  change (class_matches true ((34, 34)%N :: (59, 59)%N :: white_space) dquote)
    with false. cbv iota.
  cbn [cat]. unfold Plus.
  rewrite rmatch_seq, rmatch_char.
  change (canonicalize true dquote =? canonicalize true 34)%N with true.
  cbv iota.
  rewrite rmatch_seq, rmatch_seq, quoted_unit_plain by done.
  rewrite rmatch_star. cbn [rest]. rewrite <- app_assoc. cbn [app].
  assert (Hend : rmatch true (Opt (Char 34))
                   (State (S (S q) + length s) (dquote :: post) c) k
                 = k (State (S (S (S q + length s))) post c)).
  { unfold Opt. rewrite rmatch_alt, rmatch_char.
    change (canonicalize true dquote =? canonicalize true 34)%N with true.
    cbv iota. destruct Hk as [e He].
    replace (S (S (S q) + length s)) with (S (S (S q + length s))) by lia.
    by rewrite He. }
  rewrite star_greedy.
  - exact Hend.
  - intros p' k'. rewrite rmatch_alt, rmatch_class.
    change (class_matches true [(34, 34); (92, 92)]%N dquote) with false.
    cbv iota. by rewrite rmatch_seq, rmatch_char.
  - intros y Hy p' l' k'. rewrite Forall_forall in Hs'.
    destruct (Hs' y Hy). by apply quoted_unit_plain.
  - rewrite length_app. lia.
  - by rewrite Hend.
Qed.

(** ** The stages on simple values *)

Lemma unquote_quoted_string s junk f :
  last s <> Some 92%N ->
  rfc2616unquote (quoted_string s ++ junk) f = (Ok s, f).
Proof.
  intros Hlast. unfold quoted_string, rfc2616unquote. cbn [app].
  change (dquote =? dquote)%N with true. cbv iota.
  fold (unquote_from (((quoted_text s ++ [dquote]) ++ junk)) []).
  rewrite <- app_assoc. cbn [app].
  pose proof (unquote_walk (dquote :: junk) []
                (fun seg f0 Hseg _ => unquote_from_quote junk seg f0 Hseg)
                s [] f (Forall_nil_2 _)) as H.
  cbn [app rev quoted_text fmap list_fmap concat] in H.
  rewrite app_nil_r in H. apply H. done.
Qed.

Lemma unquote_token value f :
  head value <> Some dquote -> rfc2616unquote value f = (Ok value, f).
Proof.
  unfold rfc2616unquote. destruct value as [|c value]; [done |].
  intros Hc. destruct (N.eqb_spec c dquote) as [->|]; done.
Qed.

Lemma rfc5987decode_cut (TextDecoder_decode : jsstring -> jsstring -> option jsstring)
      charset language value f :
  Forall (fun c => c <> 39%N) charset ->
  Forall (fun c => c <> 39%N) language ->
  rfc5987decode TextDecoder_decode
    (charset ++ 39%N :: language ++ 39%N :: value) f
  = textdecode TextDecoder_decode charset value f.
Proof.
  intros Hcharset Hlang. unfold rfc5987decode.
  rewrite indexOf_app by done.
  rewrite take_app_length, drop_after.
  unfold replace_first. rewrite language_tag_found by done.
  unfold bind, ret. cbn [index endIndex take app].
  by rewrite drop_after.
Qed.

Lemma rfc2047decode_other (TextDecoder_decode : jsstring -> jsstring -> option jsstring)
      (atob : jsstring -> option jsstring) value f :
  take 2 value <> str "=?" ->
  rfc2047decode TextDecoder_decode atob value f = (Ok value, f).
Proof.
  intros H. unfold rfc2047decode. by rewrite bool_decide_eq_false_2.
Qed.

(** [unescape] *)
Lemma unescape_other c t : c <> 37%N -> unescape (c :: t) = c :: unescape t.
Proof. intros H. cbn [unescape]. by rewrite (proj2 (N.eqb_neq _ _) H). Qed.

Lemma unescape_plain b : forall a,
  Forall (fun c => c <> 37%N) a -> unescape (a ++ b) = a ++ unescape b.
Proof.
  induction 1 as [|c a Hc _ IH]; [done |].
  cbn [app]. by rewrite unescape_other, IH.
Qed.

Lemma unescape_hex h1 h2 t :
  is_hex h1 = true -> is_hex h2 = true -> h1 <> 117%N ->
  unescape (37%N :: h1 :: h2 :: t) = hex2 h1 h2 :: unescape t.
Proof.
  intros H1 H2 Hu. cbn [unescape]. cbn [N.eqb Pos.eqb].
  by rewrite (proj2 (N.eqb_neq _ _) Hu), H1, H2.
Qed.

(** [unescape] undoes [escape] on bytes. *)
Lemma unescape_escape bytes :
  Forall (fun c => (c <= 255)%N) bytes -> unescape (escape bytes) = bytes.
Proof.
  induction 1 as [|c bytes Hc _ IH]; [done |].
  unfold escape. cbn [fmap list_fmap concat]. fold (escape bytes).
  unfold escape_char.
  destruct (escape_unreserved c) eqn:Hu.
  - apply escape_unreserved_ascii in Hu as [_ H37].
    cbn [app]. by rewrite unescape_other, IH.
  - replace (c <? 256)%N with true by (symmetry; apply N.ltb_lt; lia).
    assert (c / 16 < 16)%N by (apply N.Div0.div_lt_upper_bound; lia).
    assert (c mod 16 < 16)%N by (apply N.mod_lt; lia).
    cbn [app]. rewrite unescape_hex, hex2_digits, IH;
      [done | lia | by apply hex_digit_hex | by apply hex_digit_hex |].
    destruct (hex_digit_range (c / 16)) as ([? ?] & _); [done | lia].
Qed.

Lemma escape_chars bytes :
  Forall (fun c => (c <= 255)%N) bytes -> Forall token_char (escape bytes).
Proof.
  induction 1 as [|c bytes Hc _ IH]; [constructor |].
  unfold escape. cbn [fmap list_fmap concat]. fold (escape bytes).
  apply Forall_app. split; [| done]. unfold escape_char.
  destruct (escape_unreserved c) eqn:Hu.
  - apply Forall_cons. split; [| constructor].
    revert Hu. unfold escape_unreserved, in_ranges, token_char. cbn.
    rewrite !orb_true_iff, !andb_true_iff, !N.leb_le. lia.
  - replace (c <? 256)%N with true by (symmetry; apply N.ltb_lt; lia).
    assert (c / 16 < 16)%N by (apply N.Div0.div_lt_upper_bound; lia).
    assert (c mod 16 < 16)%N by (apply N.mod_lt; lia).
    pose proof (hex_digit_cases (c / 16) ltac:(done)).
    pose proof (hex_digit_cases (c mod 16) ltac:(done)).
    repeat (apply Forall_cons; split; [unfold token_char; lia |]).
    constructor.
Qed.

Lemma word_or_hyphen_token c :
  word_or_hyphen c = true ->
  token_char c /\ c <> 34%N /\ c <> 37%N /\ c <> 39%N.
Proof.
  unfold word_or_hyphen, in_ranges, word, token_char. cbn.
  rewrite !orb_true_iff, !andb_true_iff, !N.leb_le. lia.
Qed.

(** *** Headers with one [filename] parameter *)

Lemma lit_filename_semicolon p t c k :
  rmatch true (lit "filename") (State p (59%N :: t) c) k = None.
Proof. done. Qed.

Lemma filename_star_semicolon p t c k :
  rmatch true filename_star (State p (59%N :: t) c) k = None.
Proof. done. Qed.

Lemma is_space_no_semicolon spaces :
  Forall (fun c => is_space c = true) spaces ->
  Forall (fun c => c <> 59%N) spaces.
Proof.
  intros H. eapply Forall_impl; [exact H |].
  intros c Hc. by destruct (is_space_not_separator c Hc).
Qed.

Lemma no_high_token value :
  Forall token_char value -> Forall (fun c => ~ high c) value.
Proof.
  intros H. eapply Forall_impl; [exact H |]. unfold token_char, high. lia.
Qed.

Section OneParameter.

Variable TextDecoder_decode : jsstring -> jsstring -> option jsstring.
Variable atob : jsstring -> option jsstring.

(** A header with a plain [filename] parameter at its first [;] and
    no [filename*] anywhere: the stages after the match decide. *)
Lemma getFilename_plain before spaces name value post r1 r2 f :
  Forall not_separator before ->
  Forall (fun c => is_space c = true) spaces ->
  lower <$> name = str "filename" ->
  (exists v value', value = v :: value' /\ is_space v = false) ->
  (forall q c k,
      is_Some (k (State (q + length value) post c)) ->
      rmatch true value_pattern (State q (value ++ post) c) k
      = k (State (q + length value) post c)) ->
  spaces ++ name ++ 61%N :: value ++ post = r1 ++ r2 ->
  Forall (fun c => c <> 59%N) r1 ->
  ~ mentions (str "filename*") r2 ->
  getFilenameFromContentDispositionHeader TextDecoder_decode atob
    (before ++ 59%N :: spaces ++ name ++ 61%N :: value ++ post) f
  = (let* filename := rfc2616unquote value in
     let* filename := rfc2047decode TextDecoder_decode atob filename in
     fixupEncoding TextDecoder_decode filename) true.
Proof.
  intros Hbefore Hspaces Hname Hv Hvalue Hr Hr1 Hr2.
  set (header := before ++ 59%N :: spaces ++ name ++ 61%N :: value ++ post).
  assert (Hstar : forall attr,
             needs_star attr -> only not_separator true attr ->
             exec (toParamRegExp attr) header 0 = None).
  { intros attr Hneeds Honly. unfold header. rewrite Hr.
    apply param_absent; try done.
    rewrite <- Hr. by apply plain_is_no_star. }
  rewrite (getFilename_continuation _ _ _ _ [] true).
  - cbn [truthy]. unfold plain_form.
    assert (exec (toParamRegExp (lit "filename")) header 0
            = Some (Match (length before)
                          (length before
                           + length (59%N :: spaces ++ name ++ 61%N :: value))
                          [Some (59%N :: spaces ++ name ++ 61%N :: value);
                           Some value])) as ->.
    { apply param_present; [apply only_lit_filename | done |].
      by apply (param_at (lit "filename") name 0 (fun c => c)
                         (fun p t c k _ =>
                            lit_filename_name name Hname p (61%N :: t) c k)
                         eq_refl lit_filename_semicolon
                         (name_not_space name Hname)). }
    done.
  - apply Hstar; [apply needs_star_filename_star | apply only_filename_star].
  - apply no_parts_reassemble, no_continuation.
    apply Hstar; [apply needs_star_filename_continuation
                 | apply only_filename_continuation].
Qed.

(** What [extractFilenameFromHeader] makes of a filename that ends in
    [.pdf]. *)
Lemma extract_pdf before mid filename f' :
  getFilenameFromContentDispositionHeader TextDecoder_decode atob
    (before ++ 59%N :: mid) true = (Ok filename, f') ->
  ends_with_pdf filename ->
  extractFilenameFromHeader TextDecoder_decode atob
    (Some (before ++ 59%N :: mid)) = Ok (Some filename).
Proof.
  intros Hget Hpdf. unfold extractFilenameFromHeader, call.
  assert (truthy (before ++ 59%N :: mid) = true) as -> by by destruct before.
  rewrite Hget. cbn [fst]. by rewrite (proj2 (pdf_suffix_spec _) Hpdf).
Qed.

End OneParameter.

(** ** The continuation parameters of a header *)

Lemma rmatch_neglook ci r s k :
  rmatch ci (NegLook r) s k
  = match rmatch ci r s Some with Some _ => None | None => k s end.
Proof. done. Qed.

Lemma is_digit_class x : class_matches false digit x = is_digit x.
Proof.
  unfold class_matches, in_ranges, digit, is_digit. cbn.
  by rewrite orb_false_r.
Qed.

(** The index of a continuation: its digits, up to a code unit that is
    no digit. *)
Lemma index_at digits x t :
  index_digits digits -> is_digit x = false ->
  forall p c k,
    is_Some (k (State (p + length digits) (x :: t) c)) ->
    rmatch true (Seq (NegLook (Seq (Char 48) (Class false digit)))
                     (Plus (Class false digit)))
           (State p (digits ++ x :: t) c) k
    = k (State (p + length digits) (x :: t) c).
Proof.
  intros (Hne & Hdigits & Hzero & _) Hx p c k Hk.
  destruct digits as [|d ds]; [done |].
  inversion Hdigits as [|? ? Hd Hds]; subst.
  rewrite rmatch_seq, rmatch_neglook.
  assert (rmatch true (Seq (Char 48) (Class false digit))
                 (State p ((d :: ds) ++ x :: t) c) Some = None) as ->.
  { rewrite rmatch_seq. cbn [app]. rewrite rmatch_char.
    destruct (N.eqb_spec (canonicalize true d) (canonicalize true 48)) as [E|];
      [| done].
    apply canon_not_letter in E; [| lia]. subst d.
    specialize (Hzero eq_refl). injection Hzero as ->. cbn [app].
    by rewrite rmatch_class, is_digit_class, Hx. }
  unfold Plus. rewrite rmatch_seq. cbn [app].
  rewrite rmatch_class, is_digit_class, Hd.
  rewrite rmatch_star. cbn [rest].
  replace (p + length (d :: ds)) with (S p + length ds) in *
    by (cbn [length]; lia).
  rewrite star_greedy.
  - done.
  - intros p' k'. by rewrite rmatch_class, is_digit_class, Hx.
  - intros y Hy p' l' k'. rewrite Forall_forall in Hds.
    by rewrite rmatch_class, is_digit_class, (Hds y Hy).
  - rewrite length_app. lia.
  - done.
Qed.

(** The mark of an extended parameter, [*] or nothing, before the [=]. *)
Lemma mark_at (ext : bool) t :
  forall p c k,
    let mark := if ext then [42%N] else [] in
    is_Some (k (State (p + length mark) (61%N :: t) (<[2 := Some mark]> c))) ->
    rmatch true (Group 2 (Opt (Char 42))) (State p (mark ++ 61%N :: t) c) k
    = k (State (p + length mark) (61%N :: t) (<[2 := Some mark]> c)).
Proof.
  intros p c k mark Hk. subst mark. rewrite rmatch_group. unfold Opt.
  rewrite rmatch_alt. destruct ext; cbn [app length] in *.
  - rewrite rmatch_char.
    change (canonicalize true 42 =? canonicalize true 42)%N with true.
    cbv iota. unfold capture. cbn [pos rest caps].
    replace (S p - p) with 1 by lia. cbn [take].
    replace (p + 1) with (S p) in * by lia.
    by destruct Hk as [e ->].
  - rewrite rmatch_char.
    change (canonicalize true 61 =? canonicalize true 42)%N with false.
    cbv iota. cbn [rmatch]. unfold capture. cbn [pos rest caps].
    rewrite Nat.sub_diag, Nat.add_0_r in *. by rewrite take_0.
Qed.

Lemma length_indexed_name par :
  length (indexed_name par)
  = S (length (name_of par) + length (digits_of par) + length (mark_of par)).
Proof. unfold indexed_name. rewrite length_app. cbn [length]. rewrite length_app. lia. Qed.

Lemma filename_continuation_name par :
  lower <$> name_of par = str "filename" ->
  index_digits (digits_of par) ->
  forall p t c k,
    is_Some (k (State (p + length (indexed_name par)) (61%N :: t)
                      (found_in par c))) ->
    rmatch true filename_continuation
           (State p (indexed_name par ++ 61%N :: t) c) k
    = k (State (p + length (indexed_name par)) (61%N :: t) (found_in par c)).
Proof.
  intros Hname Hdigits p t c k Hk.
  rewrite length_indexed_name in *.
  unfold filename_continuation, indexed_name. cbn [cat].
  rewrite <- app_assoc, rmatch_seq, lit_filename_name by done.
  cbn [app]. rewrite rmatch_seq, rmatch_char.
  change (canonicalize true 42 =? canonicalize true 42)%N with true. cbv iota.
  rewrite rmatch_seq, rmatch_group, <- app_assoc.
  set (q := S (p + length (name_of par))).
  assert (Hmark : rmatch true (Group 2 (Opt (Char 42)))
                         (State (q + length (digits_of par))
                                (mark_of par ++ 61%N :: t)
                                (<[1 := Some (digits_of par)]> c)) k
                  = k (State (p + S (length (name_of par)
                                     + length (digits_of par)
                                     + length (mark_of par)))
                             (61%N :: t) (found_in par c))).
  { unfold mark_of, found_in in *.
    pose proof (mark_at (extended par) t (q + length (digits_of par))
                        (<[1 := Some (digits_of par)]> c) k) as H.
    cbv zeta in H. unfold mark_of in H.
    replace (q + length (digits_of par)
             + length (if extended par then [42%N] else []))
      with (p + S (length (name_of par) + length (digits_of par)
                   + length (if extended par then [42%N] else [])))
      in H by (unfold q; lia).
    by apply H. }
  assert (Hhead : exists x t', mark_of par ++ 61%N :: t = x :: t'
                               /\ is_digit x = false).
  { unfold mark_of. destruct (extended par); eexists _, _; done. }
  destruct Hhead as (x & t' & Ht & Hx).
  assert (Hcap : capture 1 (State q (digits_of par ++ x :: t') c)
                         (State (q + length (digits_of par)) (x :: t') c)
                 = State (q + length (digits_of par))
                         (mark_of par ++ 61%N :: t)
                         (<[1 := Some (digits_of par)]> c)).
  { unfold capture. cbn [pos rest caps].
    replace (q + length (digits_of par) - q) with (length (digits_of par))
      by lia.
    by rewrite take_app_length, Ht. }
  rewrite Ht, index_at; try done; cbv beta; rewrite Hcap, Hmark; done.
Qed.

Lemma filename_continuation_semicolon p t c k :
  rmatch true filename_continuation (State p (59%N :: t) c) k = None.
Proof. done. Qed.

Lemma indexed_name_head par :
  lower <$> name_of par = str "filename" ->
  exists x name', indexed_name par = x :: name' /\ is_space x = false.
Proof.
  intros H. destruct (name_not_space _ H) as (x & name' & Hn & Hx).
  exists x, (name' ++ 42%N :: digits_of par ++ mark_of par).
  unfold indexed_name. by rewrite Hn.
Qed.

(** A value as the pattern of [toParamRegExp] takes it. *)
Lemma value_written value post :
  is_value value -> ends_token post ->
  (exists v value', value = v :: value' /\ is_space v = false) /\
  forall q c k,
    is_Some (k (State (q + length value) post c)) ->
    rmatch true value_pattern (State q (value ++ post) c) k
    = k (State (q + length value) post c).
Proof.
  intros [(Hne & Htoken & Hq) | (text & Hne & Htext & ->)] Hpost.
  - destruct value as [|v value']; [done |].
    inversion Htoken as [|? ? Hv Hvalue']; subst. split.
    + exists v, value'. split; [done | by apply token_char_not_space].
    + apply value_token; try done. intros ->. by apply Hq.
  - destruct text as [|x text]; [done |]. split.
    + by eexists _, _.
    + by apply value_quoted.
Qed.

(** The match of a continuation parameter where it is written. *)
Lemma continuation_at par post p :
  well_written par -> ends_token post ->
  match_at (toParamRegExp filename_continuation) p (written par ++ post)
  = Some (Match p (p + length (written par))
                [Some (written par); Some (digits_of par);
                 Some (mark_of par); Some (value_of par)]).
Proof.
  intros (Hspaces & Hname & Hdigits & Hvalue) Hpost.
  destruct (value_written _ _ Hvalue Hpost) as [Hv Hmatch].
  pose proof (param_at filename_continuation (indexed_name par) 2 (found_in par)
                (filename_continuation_name par Hname Hdigits) eq_refl
                filename_continuation_semicolon (indexed_name_head par Hname)
                p (spaces_of par) (value_of par) post Hspaces Hv Hmatch) as H.
  unfold written. cbn [app]. rewrite <- !app_assoc. cbn [app].
  exact H.
Qed.

(** *** The scan over the parameters *)

Lemma exec_after re (pre l : jsstring) :
  exec re (pre ++ l) (length pre) = search re (length pre) l.
Proof.
  unfold exec. rewrite drop_app_length.
  assert ((length (pre ++ l) <? length pre)%nat = false) as ->; [| done].
  apply Nat.ltb_ge. rewrite length_app. lia.
Qed.

Lemma match_all_from_S fuel re s from :
  match_all_from (S fuel) re s from
  = match exec re s from with
    | None => Some []
    | Some m =>
        cons m <$> match_all_from fuel re s
                     (if Nat.eqb (endIndex m) (index m)
                      then S (endIndex m) else endIndex m)
    end.
Proof. done. Qed.

(** Nothing that needs [filename*] is found where it is not written. *)
Lemma search_no_star attr post i :
  needs_star attr ->
  ~ mentions (str "filename*") post ->
  search (toParamRegExp attr) i post = None.
Proof.
  intros Hattr Hno. apply search_none. intros j _.
  destruct (match_at _ _ _) as [m|] eqn:E; [| done].
  apply (star_mentions_at _ Hattr) in E. by apply mentions_drop in E.
Qed.

Lemma ends_token_written todo post :
  ends_token post -> ends_token (concat (written <$> todo) ++ post).
Proof. intros H. destruct todo; [done | by left]. Qed.

Lemma length_written todo : length todo <= length (concat (written <$> todo)).
Proof.
  induction todo as [|par todo IH]; [done |].
  cbn [fmap list_fmap concat length]. rewrite length_app.
  unfold written at 1. cbn [length]. lia.
Qed.

Lemma part_of_continuation par i j :
  part_of_match (Match i j [Some (written par); Some (digits_of par);
                            Some (mark_of par); Some (value_of par)])
  = part_written par.
Proof.
  unfold part_of_match, part_written, group, mark_of. cbn.
  by destruct (extended par).
Qed.

(** From the end of one parameter on, the scan finds the parameters
    that are written there, one after the other. *)
Lemma scan_written post :
  ends_token post -> ~ mentions (str "filename*") post ->
  forall todo pre fuel,
    Forall well_written todo -> length todo < fuel ->
    exists ms,
      match_all_from fuel (toParamRegExp filename_continuation)
                     (pre ++ concat (written <$> todo) ++ post) (length pre)
      = Some ms
      /\ part_of_match <$> ms = part_written <$> todo.
Proof.
  intros Hpost Hno.
  induction todo as [|par todo IH]; intros pre fuel Hall Hfuel;
    (destruct fuel as [|fuel]; [simpl in Hfuel; lia |]); cbn [match_all_from].
  - cbn [fmap list_fmap concat app]. rewrite exec_after.
    rewrite search_no_star
      by (done || apply needs_star_filename_continuation).
    by exists [].
  - inversion Hall as [|? ? Hpar Hall']; subst.
    cbn [fmap list_fmap concat]. rewrite <- app_assoc, exec_after.
    rewrite (search_at _ _ _ _
               (continuation_at par _ (length pre) Hpar
                                (ends_token_written todo post Hpost))).
    cbn [index endIndex].
    assert ((length pre + length (written par) =? length pre)%nat = false)
      as ->.
    { apply Nat.eqb_neq. unfold written. cbn [length]. lia. }
    destruct (IH (pre ++ written par) fuel Hall') as (ms & Hms & Hparts);
      [simpl in Hfuel; lia |].
    rewrite length_app, <- app_assoc in Hms. rewrite Hms.
    eexists. split; [done |].
    cbn [fmap list_fmap]. by rewrite part_of_continuation, <- Hparts.
Qed.

(** The parts of a header of continuation parameters are the
    parameters as they are written. *)
Lemma parts_written (before post : jsstring)
        (parameters : list Continuation) :
  Forall not_separator before ->
  parameters <> [] ->
  Forall well_written parameters ->
  ends_token post ->
  ~ mentions (str "filename*") post ->
  continuation_parts (before ++ concat (written <$> parameters) ++ post)
  = part_written <$> parameters.
Proof.
  intros Hbefore Hne Hall Hpost Hno.
  destruct parameters as [|par todo]; [done |].
  inversion Hall as [|? ? Hpar Hall']; subst.
  unfold continuation_parts, match_all.
  change (2 + ?n) with (S (S n)). rewrite match_all_from_S.
  pose proof (continuation_at par _ (length before) Hpar
                (ends_token_written todo post Hpost)) as Hm.
  cbn [fmap list_fmap concat]. rewrite <- app_assoc.
  assert (exec (toParamRegExp filename_continuation)
               (before ++ written par ++ concat (written <$> todo) ++ post) 0
          = Some (Match (length before) (length before + length (written par))
                        [Some (written par); Some (digits_of par);
                         Some (mark_of par); Some (value_of par)])) as ->.
  { apply (param_present _ before
             ((spaces_of par ++ indexed_name par ++ 61%N :: value_of par)
              ++ concat (written <$> todo) ++ post));
      [apply only_filename_continuation | done | exact Hm]. }
  cbn [index endIndex].
  assert ((length before + length (written par) =? length before)%nat = false)
    as ->.
  { apply Nat.eqb_neq. unfold written. cbn [length]. lia. }
  destruct (scan_written post Hpost Hno todo (before ++ written par)
              (S (length (before ++ written par
                          ++ concat (written <$> todo) ++ post))) Hall')
    as (ms & Hms & Hparts).
  { pose proof (length_written todo). rewrite !length_app. lia. }
  rewrite (length_app before (written par)), <- app_assoc in Hms.
  rewrite Hms.
  cbn [fmap option_fmap option_map default].
  unfold id. by rewrite fmap_cons, part_of_continuation, Hparts.
Qed.

(** *** A continuation parameter is no extended one *)

Lemma digit_not_space d : is_digit d = true -> is_space d = false.
Proof.
  unfold is_digit, is_space, in_ranges, white_space. cbn.
  rewrite andb_true_iff, !N.leb_le. intros [? ?].
  rewrite !orb_false_iff, !andb_false_iff, !N.leb_gt. lia.
Qed.

Lemma continuation_is_no_star par tl p :
  well_written par ->
  match_at (toParamRegExp filename_star) p (written par ++ tl) = None.
Proof.
  intros (Hspaces & Hname & (Hne & Hdigits & _) & _). unfold match_at.
  destruct (rmatch _ _ _ _) as [e|] eqn:E; [exfalso | done].
  unfold written, indexed_name in E. cbn [app] in E.
  rewrite <- !app_assoc in E. cbn [app] in E.
  apply param_reaches_name in E as (q & c & E);
    [| apply needs_star_found, needs_star_filename_star | done | done].
  change (name_of par ++ 42%N :: ?t) with (name_of par ++ [42%N] ++ t) in E.
  rewrite app_assoc, filename_star_name in E by done.
  destruct (digits_of par) as [|d ds]; [done |].
  inversion Hdigits as [|? ? Hd _]; subst. cbn [app] in E.
  rewrite rmatch_seq, rmatch_star in E.
  rewrite star_none in E
    by (intros k'; unfold ws;
        by rewrite rmatch_class, is_space_class, digit_not_space).
  rewrite rmatch_seq, rmatch_char in E.
  destruct (N.eqb_spec (canonicalize true d) (canonicalize true 61)) as [Ed|];
    [| done].
  apply canon_not_letter in Ed; [| lia]. by subst d.
Qed.

(** The code units of a parameter with a token for its value, after
    its [;]: none is a [;]. *)
Lemma written_no_semicolon par :
  well_written par -> is_token (value_of par) ->
  exists body, written par = 59%N :: body /\ Forall (fun c => c <> 59%N) body.
Proof.
  intros (Hspaces & Hname & (_ & Hdigits & _) & _) (_ & Htoken & _).
  eexists. split; [done |].
  unfold indexed_name, mark_of. rewrite !Forall_app, !Forall_cons, !Forall_app.
  repeat split.
  - by apply is_space_no_semicolon.
  - by apply name_no_semicolon.
  - done.
  - eapply Forall_impl; [exact Hdigits |]. by intros c Hc ->.
  - destruct (extended par); by repeat constructor.
  - done.
  - eapply Forall_impl; [exact Htoken |]. by intros c [_ ?].
Qed.

(** No extended parameter is found among continuation parameters with
    tokens for their values. *)
Lemma no_star_in_written post :
  ~ mentions (str "filename*") post ->
  forall todo j k,
    Forall (fun par => well_written par /\ is_token (value_of par)) todo ->
    match_at (toParamRegExp filename_star) (k + j)
             (drop j (concat (written <$> todo) ++ post)) = None.
Proof.
  intros Hno. induction todo as [|par todo IH]; intros j k Hall.
  - cbn [fmap list_fmap concat app].
    destruct (match_at _ _ _) as [m|] eqn:E; [| done].
    apply (star_mentions_at _ needs_star_filename_star) in E.
    by apply mentions_drop in E.
  - inversion Hall as [|? ? [Hpar Htoken] Hall']; subst.
    cbn [fmap list_fmap concat]. rewrite <- app_assoc.
    destruct (written_no_semicolon par Hpar Htoken) as (body & Hw & Hbody).
    destruct j as [|j].
    + rewrite drop_0. by apply continuation_is_no_star.
    + destruct (Nat.lt_ge_cases (S j) (length (written par))) as [Hlt|Hge].
      * apply param_needs_semicolon; [lia |].
        rewrite head_drop_app by done. rewrite Hw in *. cbn [lookup list_lookup].
        intros Hj. apply list_elem_of_lookup_2 in Hj.
        rewrite Forall_forall in Hbody. by apply (Hbody _ Hj).
      * rewrite drop_app_ge by done.
        replace (k + S j)
          with (k + length (written par) + (S j - length (written par)))
          by lia.
        by apply IH.
Qed.

(** *** The parts in the order of their indices *)

Lemma count_zero_Permutation ps qs :
  Permutation ps qs -> count_zero ps = count_zero qs.
Proof. intros H. unfold count_zero. by rewrite H. Qed.

Lemma count_zero_in_order ps : in_order ps -> count_zero ps <= 1.
Proof.
  destruct ps as [|p ps]; [intros _; cbn; lia |]. intros H.
  assert (Hrest : filter (fun q => part_index q = 0%N) ps = []).
  { assert (Hall : Forall (fun q => part_index q <> 0%N) ps).
    { apply Forall_lookup. intros i q Hq. rewrite (H (S i) q Hq). lia. }
    clear H. induction Hall as [|q ps Hq _ IH]; [done |].
    rewrite filter_cons. by destruct (decide (part_index q = 0%N)). }
  unfold count_zero. rewrite filter_cons, Hrest.
  destruct (decide (part_index p = 0%N)); simpl; lia.
Qed.

(** Whatever the order of the parts in the header, the reassembler
    takes them in the order of their indices. *)
Lemma contiguous_in_order ps sorted :
  Permutation sorted ps -> in_order sorted ->
  forall k i,
    i + k <= length sorted ->
    contiguous_from ps (N.of_nat i) k = take k (drop i sorted).
Proof.
  intros Hperm Horder. induction k as [|k IH]; intros i Hik; [done |].
  destruct (lookup_lt_is_Some_2 sorted i ltac:(lia)) as [p Hp].
  cbn [contiguous_from]. unfold first_with_index.
  assert (List.find (fun q => (part_index q =? N.of_nat i)%N) ps = Some p)
    as ->.
  { destruct (List.find _ ps) as [q|] eqn:E.
    - apply find_some in E as [Hin Hq]. apply N.eqb_eq in Hq.
      apply list_elem_of_In in Hin. rewrite <- Hperm in Hin.
      apply list_elem_of_lookup_1 in Hin as [j Hj].
      rewrite (Horder j q Hj) in Hq. apply Nat2N.inj in Hq. subst j.
      congruence.
    - exfalso.
      assert (Hin : p ∈ ps)
        by (rewrite <- Hperm; by apply list_elem_of_lookup_2 in Hp).
      apply list_elem_of_In in Hin.
      apply (find_none _ _ E) in Hin.
      rewrite (Horder i p Hp), N.eqb_refl in Hin. done. }
  rewrite (drop_S _ _ _ Hp). cbn [take]. f_equal.
  replace (N.of_nat i + 1)%N with (N.of_nat (S i)) by lia.
  apply IH. lia.
Qed.

Lemma decode_plain_parts
      (TextDecoder_decode : jsstring -> jsstring -> option jsstring) pars f :
  Forall (fun par => extended par = false /\ is_token (value_of par)) pars ->
  decode_parts TextDecoder_decode (part_written <$> pars) f
  = (Ok (value_of <$> pars), f).
Proof.
  induction 1 as [|par pars [Hext (_ & _ & Hq)] _ IH]; [done |].
  assert (Hpart : decode_part TextDecoder_decode (part_written par) f
                  = (Ok (value_of par), f)).
  { unfold decode_part, part_written.
    cbn [raw_fragment is_extended part_index].
    unfold bind. rewrite unquote_token by done. by rewrite Hext. }
  rewrite !fmap_cons. cbn [decode_parts]. unfold bind.
  by rewrite Hpart, IH.
Qed.

(** *** An extended parameter and its value *)

Section ExtendedParameter.

Variable TextDecoder_decode : jsstring -> jsstring -> option jsstring.
Variable atob : jsstring -> option jsstring.

Variable charset : jsstring.
Variable language : jsstring.
Variable bytes : jsstring.

Hypothesis charset_word : Forall (fun c => word_or_hyphen c = true) charset.
Hypothesis language_word : Forall (fun c => word_or_hyphen c = true) language.
Hypothesis bytes_below : Forall (fun c => (c <= 255)%N) bytes.

Local Abbreviation value :=
  (charset ++ 39%N :: language ++ 39%N :: escape bytes).

Lemma extended_value_is_token : is_token value.
Proof using charset_word language_word bytes_below.
  assert (Hcs : Forall (fun c => token_char c /\ c <> 34%N) charset).
  { eapply Forall_impl; [exact charset_word |].
    intros c Hc. by destruct (word_or_hyphen_token c Hc) as (? & ? & _). }
  assert (Hlang : Forall token_char language).
  { eapply Forall_impl; [exact language_word |].
    intros c Hc. by destruct (word_or_hyphen_token c Hc) as (? & _). }
  repeat split.
  - by destruct charset.
  - rewrite Forall_app, Forall_cons, Forall_app, Forall_cons.
    repeat split; try (unfold token_char; lia); try done.
    + eapply Forall_impl; [exact Hcs |]. by intros c [? _].
    + by apply escape_chars.
  - destruct charset as [|c cs]; [done |].
    inversion Hcs as [|? ? [_ ?] _]; subst. by intros [= ->].
Qed.

(** The stages of the first form on such a value. *)
Lemma extended_form_decoded whole i j f :
  extended_form TextDecoder_decode atob
                (Match i j [Some whole; Some value]) f
  = (let* filename := textdecode TextDecoder_decode charset bytes in
     let* filename := rfc2047decode TextDecoder_decode atob filename in
     fixupEncoding TextDecoder_decode filename) f.
Proof using charset_word language_word bytes_below.
  pose proof extended_value_is_token as (_ & _ & Hhead).
  assert (Hcs : Forall (fun c => c <> 37%N /\ c <> 39%N) charset).
  { eapply Forall_impl; [exact charset_word |].
    intros c Hc. by destruct (word_or_hyphen_token c Hc) as (_ & _ & ? & ?). }
  assert (Hlang : Forall (fun c => c <> 37%N /\ c <> 39%N) language).
  { eapply Forall_impl; [exact language_word |].
    intros c Hc. by destruct (word_or_hyphen_token c Hc) as (_ & _ & ? & ?). }
  unfold extended_form, extended_value, group.
  cbn [groups lookup list_lookup default]. unfold id.
  change (defined (Some value)) with (ret value).
  rewrite bind_assoc, bind_ret_l, bind_assoc. unfold bind at 1.
  rewrite unquote_token by done.
  rewrite bind_assoc.
  rewrite unescape_plain
    by (eapply Forall_impl; [exact Hcs |]; by intros c [? _]).
  rewrite unescape_other by done.
  rewrite unescape_plain
    by (eapply Forall_impl; [exact Hlang |]; by intros c [? _]).
  rewrite unescape_other by done.
  rewrite unescape_escape by done.
  unfold bind at 1. rewrite rfc5987decode_cut; [done | |].
  - eapply Forall_impl; [exact Hcs |]. by intros c [_ ?].
  - eapply Forall_impl; [exact Hlang |]. by intros c [_ ?].
Qed.

End ExtendedParameter.

(** The match of an extended parameter where it is written. *)
Lemma extended_at p spaces name value post :
  Forall (fun c => is_space c = true) spaces ->
  lower <$> name = str "filename" ->
  is_token value -> ends_token post ->
  match_at (toParamRegExp filename_star) p
           (59%N :: spaces ++ (name ++ [42%N]) ++ 61%N :: value ++ post)
  = Some (Match p
                (p + length (59%N :: spaces ++ (name ++ [42%N])
                               ++ 61%N :: value))
                [Some (59%N :: spaces ++ (name ++ [42%N]) ++ 61%N :: value);
                 Some value]).
Proof.
  intros Hspaces Hname Hvalue Hpost.
  destruct (value_written value post (or_introl Hvalue) Hpost) as [Hv Hmatch].
  apply (param_at filename_star (name ++ [42%N]) 0 (fun c => c)
                  (fun p t c k _ =>
                     filename_star_name name Hname p (61%N :: t) c k)
                  eq_refl filename_star_semicolon); try done.
  destruct (name_not_space name Hname) as (x & name' & -> & ?).
  by exists x, (name' ++ [42%N]).
Qed.

(** A parameter after a plain [filename] parameter is the one found
    when its pattern needs [filename*]. *)
Lemma param_after_plain attr before spaces name token mid m :
  only not_separator true attr ->
  needs_star attr ->
  Forall not_separator before ->
  Forall (fun c => is_space c = true) spaces ->
  lower <$> name = str "filename" ->
  Forall token_char token ->
  match_at (toParamRegExp attr)
           (length (before ++ 59%N :: spaces ++ name ++ 61%N :: token))
           (59%N :: mid) = Some m ->
  exec (toParamRegExp attr)
       (before ++ 59%N :: spaces ++ name ++ 61%N :: token ++ 59%N :: mid) 0
  = Some m.
Proof.
  intros Ho Hattr Hbefore Hspaces Hname Htoken Hm.
  set (plain := spaces ++ name ++ 61%N :: token).
  assert (Hplain : Forall (fun c => c <> 59%N) plain).
  { unfold plain. rewrite !Forall_app, Forall_cons.
    split; [by apply is_space_no_semicolon |].
    split; [by apply name_no_semicolon |]. split; [done |].
    eapply Forall_impl; [exact Htoken |]. by intros c [_ ?]. }
  assert (Hheader : before ++ 59%N :: spaces ++ name ++ 61%N ::
                      token ++ 59%N :: mid
                    = (before ++ 59%N :: plain) ++ 59%N :: mid).
  { unfold plain. rewrite <- !app_assoc. cbn [app].
    by rewrite <- !app_assoc. }
  rewrite exec_0, Hheader, search_skip.
  - apply search_at. cbn [Nat.add].
    replace (before ++ 59%N :: plain)
      with (before ++ 59%N :: spaces ++ name ++ 61%N :: token); [done |].
    done.
  - intros j Hj. cbn [Nat.add]. rewrite <- Hheader.
    destruct (Nat.lt_trichotomy j (length before)) as [Hlt|[->|Hgt]].
    + by apply before_no_match.
    + rewrite drop_app_length. by apply plain_is_no_star.
    + apply param_needs_semicolon; [lia |].
      rewrite Hheader, head_drop_app by done.
      rewrite lookup_app_r by lia.
      destruct (j - length before) as [|j'] eqn:Ej; [lia |].
      cbn [lookup list_lookup]. intros Hx.
      apply list_elem_of_lookup_2 in Hx. rewrite Forall_forall in Hplain.
      by apply (Hplain _ Hx).
Qed.

(** ** Headers of parameters of the three forms *)

(** No parameter without a [=]. *)
Lemma param_needs_equals attr i l :
  only not_separator true attr ->
  Forall not_separator l ->
  match_at (toParamRegExp attr) i l = None.
Proof.
  intros Ho Hl. unfold match_at.
  destruct (rmatch _ _ _ _) as [e|] eqn:E; [exfalso | done].
  cbn [toParamRegExp pattern ignoreCase cat] in E.
  rewrite rmatch_seq, rmatch_alt, rmatch_bol in E. cbn [pos] in E.
  assert (Hcase : exists q c,
             rmatch true (Seq (Star ws) (Seq attr
               (Seq (Star ws) (Seq (Char 61) (Seq (Star ws)
                  (Group (S (ngroups attr)) value_pattern))))))
               (State q l c) Some = Some e).
  { match type of E with
    | match ?X with _ => _ end = _ => destruct X as [e'|] eqn:E1
    end.
    - injection E as ->. destruct (Nat.eqb i 0); [eauto | done].
    - exfalso. apply rmatch_char_inv in E as (x & t & R & Ex & _).
      apply canon_not_letter in Ex; [| lia]. subst x. cbn [rest] in R.
      rewrite R in Hl. inversion Hl as [|? ? [? _] _]; subst. done. }
  clear E. destruct Hcase as (q & c & E).
  rewrite rmatch_seq in E.
  apply (rmatch_only not_separator) in E as (s1 & t1 & E & R1 & F1);
    [| intros x; rewrite is_space_class; apply is_space_not_separator].
  rewrite rmatch_seq in E.
  apply (rmatch_only not_separator) in E as (s2 & t2 & E & R2 & F2); [| done].
  rewrite rmatch_seq in E.
  apply (rmatch_only not_separator) in E as (s3 & t3 & E & R3 & F3);
    [| intros x; rewrite is_space_class; apply is_space_not_separator].
  rewrite rmatch_seq in E.
  apply rmatch_char_inv in E as (x & t & R4 & Ex & _).
  apply canon_not_letter in Ex; [| lia]. subst x.
  cbn [rest] in R1. rewrite R2, R3, R4 in R1. rewrite R1 in Hl.
  rewrite !Forall_app, Forall_cons in Hl.
  by destruct Hl as (_ & _ & _ & [_ ?] & _).
Qed.

(** The plain pattern matches no parameter whose name goes on with a
    [*]. *)
Lemma starred_is_not_plain p spaces name tl :
  Forall (fun c => is_space c = true) spaces ->
  lower <$> name = str "filename" ->
  match_at (toParamRegExp (lit "filename")) p
           (59%N :: spaces ++ name ++ 42%N :: tl) = None.
Proof.
  intros Hspaces Hname. unfold match_at.
  destruct (rmatch _ _ _ _) as [e|] eqn:E; [exfalso | done].
  apply param_reaches_name in E as (q & c & E);
    [| apply lit_filename_found | done | done].
  rewrite lit_filename_name in E by done.
  rewrite rmatch_seq, rmatch_star in E.
  rewrite star_none in E
    by (intros k'; unfold ws; by rewrite rmatch_class).
  by rewrite rmatch_seq, rmatch_char in E.
Qed.

(** The continuation pattern matches no extended parameter: it wants a
    digit after the [*]. *)
Lemma extended_is_no_continuation p spaces name tl :
  Forall (fun c => is_space c = true) spaces ->
  lower <$> name = str "filename" ->
  match_at (toParamRegExp filename_continuation) p
           (59%N :: spaces ++ name ++ 42%N :: 61%N :: tl) = None.
Proof.
  intros Hspaces Hname. unfold match_at.
  destruct (rmatch _ _ _ _) as [e|] eqn:E; [exfalso | done].
  apply param_reaches_name in E as (q & c & E);
    [| apply filename_continuation_found | done | done].
  unfold filename_continuation in E. cbn [cat] in E.
  rewrite rmatch_seq, lit_filename_name in E by done.
  rewrite rmatch_seq, rmatch_char in E.
  change (canonicalize true 42 =? canonicalize true 42)%N with true in E.
  cbv iota in E.
  rewrite rmatch_seq, rmatch_group, rmatch_seq, rmatch_neglook in E.
  rewrite rmatch_seq, rmatch_char in E.
  change (canonicalize true 61 =? canonicalize true 48)%N with false in E.
  cbv iota in E. unfold Plus in E.
  by rewrite rmatch_seq, rmatch_class in E.
Qed.

Lemma simple_value_is_token value : simple_value value -> is_token value.
Proof.
  intros (Hne & Hall & Hq & _). repeat split; [done | | done].
  eapply Forall_impl; [exact Hall |]. by intros c [? _].
Qed.

Lemma written_as_app p rest :
  written_as p ++ rest
  = 59%N :: hp_spaces p ++ (hp_name p ++ suffix_of (hp_form p))
         ++ 61%N :: hp_value p ++ rest.
Proof. unfold written_as. cbn [app]. by rewrite <- !app_assoc. Qed.

Lemma well_formed_continuation digits extended spaces name value :
  well_formed (HeaderParameter (ContinuationForm digits extended)
                               spaces name value) ->
  well_written (Written spaces name digits extended value).
Proof.
  intros (Hspaces & Hname & Hvalue & Hdigits).
  repeat split; try done; try apply Hdigits.
  left. by apply simple_value_is_token.
Qed.

(** Each of the three patterns matches at the parameters of its form
    and at no other. *)
Lemma filename_star_matches : matches_as filename_star found_star.
Proof.
  intros [fm spaces name value] rest i Hp Hrest.
  pose proof Hp as (Hspaces & Hname & Hvalue & Hform).
  cbn [hp_spaces hp_name hp_value hp_form] in *.
  unfold found_star. cbn [hp_form hp_value]. destruct fm as [|digits ext|].
  - rewrite written_as_app. cbn [hp_spaces hp_name hp_value hp_form suffix_of].
    apply extended_at; try done. by apply simple_value_is_token.
  - apply (continuation_is_no_star (Written spaces name digits ext value)).
    by apply well_formed_continuation.
  - rewrite written_as_app. cbn [hp_spaces hp_name hp_value hp_form suffix_of].
    rewrite app_nil_r.
    by apply plain_is_no_star; [apply needs_star_filename_star | |].
Qed.

Lemma filename_continuation_matches :
  matches_as filename_continuation found_continuation.
Proof.
  intros [fm spaces name value] rest i Hp Hrest.
  pose proof Hp as (Hspaces & Hname & Hvalue & Hform).
  cbn [hp_spaces hp_name hp_value hp_form] in *.
  unfold found_continuation. cbn [hp_form hp_value].
  destruct fm as [|digits ext|].
  - rewrite written_as_app. cbn [hp_spaces hp_name hp_value hp_form suffix_of].
    rewrite <- app_assoc. cbn [app].
    by apply extended_is_no_continuation.
  - apply (continuation_at (Written spaces name digits ext value));
      [by apply well_formed_continuation | done].
  - rewrite written_as_app. cbn [hp_spaces hp_name hp_value hp_form suffix_of].
    rewrite app_nil_r.
    by apply plain_is_no_star; [apply needs_star_filename_continuation | |].
Qed.

Lemma written_plain spaces name value :
  written_as (HeaderParameter PlainForm spaces name value)
  = 59%N :: spaces ++ name ++ 61%N :: value.
Proof. unfold written_as. cbn. by rewrite app_nil_r. Qed.

Lemma filename_matches : matches_as (lit "filename") found_plain.
Proof.
  intros [fm spaces name value] rest i Hp Hrest.
  pose proof Hp as (Hspaces & Hname & Hvalue & Hform).
  cbn [hp_spaces hp_name hp_value hp_form] in *.
  unfold found_plain. cbn [hp_form hp_value].
  destruct fm as [|digits ext|].
  - rewrite written_as_app. cbn [hp_spaces hp_name hp_value hp_form suffix_of].
    rewrite <- app_assoc. cbn [app]. by apply starred_is_not_plain.
  - rewrite written_as_app. cbn [hp_spaces hp_name hp_value hp_form suffix_of].
    rewrite <- app_assoc. cbn [app]. by apply starred_is_not_plain.
  - rewrite !written_plain. cbn [app]. rewrite <- !app_assoc. cbn [app].
    destruct (value_written value rest
                (or_introl (simple_value_is_token _ Hvalue)) Hrest)
      as [Hv Hmatch].
    exact (param_at (lit "filename") name 0 (fun c => c)
             (fun p t c k _ =>
                lit_filename_name name Hname p (61%N :: t) c k)
             eq_refl lit_filename_semicolon (name_not_space name Hname)
             i spaces value rest Hspaces Hv Hmatch).
Qed.

(** *** Finding the first parameter of a form *)

Lemma written_as_no_semicolon p :
  well_formed p ->
  exists body, written_as p = 59%N :: body /\ Forall (fun c => c <> 59%N) body.
Proof.
  intros (Hspaces & Hname & (_ & Hvalue & _) & Hform).
  eexists. split; [done |].
  rewrite !Forall_app, Forall_cons. repeat split.
  - by apply is_space_no_semicolon.
  - by apply name_no_semicolon.
  - destruct (hp_form p) as [|digits ext|]; cbn [suffix_of].
    + by repeat constructor.
    + destruct Hform as (_ & Hdigits & _).
      apply Forall_cons. split; [done |]. apply Forall_app. split.
      * eapply Forall_impl; [exact Hdigits |]. by intros c Hc ->.
      * destruct ext; by repeat constructor.
    + constructor.
  - done.
  - eapply Forall_impl; [exact Hvalue |]. by intros c [[_ ?] _].
Qed.

Lemma ends_token_parameters ps : ends_token (concat (written_as <$> ps)).
Proof. destruct ps; [done | by left]. Qed.

Lemma length_parameters ps : length ps <= length (concat (written_as <$> ps)).
Proof.
  induction ps as [|p ps IH]; [done |].
  cbn [fmap list_fmap concat length]. rewrite length_app.
  unfold written_as at 1. cbn [length]. lia.
Qed.

Section FirstParameter.

Variable attr : regex.
Variable found : header_parameter -> option (list (option jsstring)).

Hypothesis attr_only : only not_separator true attr.
Hypothesis attr_matches : matches_as attr found.

(** From the [;] of a parameter on, the search finds the first
    parameter at which the pattern matches. *)
Lemma search_parameters : forall ps i,
  Forall well_formed ps ->
  search (toParamRegExp attr) i (concat (written_as <$> ps))
  = first_found found i ps.
Proof using attr_only attr_matches.
  induction ps as [|p ps IH]; intros i Hall.
  - cbn [fmap list_fmap concat search first_found].
    by rewrite param_needs_equals.
  - inversion Hall as [|? ? Hp Hall']; subst.
    cbn [fmap list_fmap concat first_found].
    pose proof (attr_matches p _ i Hp (ends_token_parameters ps)) as Hm.
    destruct (found p) as [captures|]; [by apply search_at |].
    rewrite search_skip; [by apply IH |].
    intros j Hj. destruct j as [|j].
    + by rewrite Nat.add_0_r, drop_0.
    + destruct (written_as_no_semicolon p Hp) as (body & Hw & Hbody).
      apply param_needs_semicolon; [lia |].
      rewrite head_drop_app by done. rewrite Hw in *. cbn [lookup list_lookup].
      intros Hx. apply list_elem_of_lookup_2 in Hx.
      rewrite Forall_forall in Hbody. by apply (Hbody _ Hx).
Qed.

Lemma exec_parameters_from pre ps :
  Forall well_formed ps ->
  exec (toParamRegExp attr) (pre ++ concat (written_as <$> ps)) (length pre)
  = first_found found (length pre) ps.
Proof using attr_only attr_matches.
  intros Hall. rewrite exec_after. by apply search_parameters.
Qed.

(** The disposition type holds no parameter. *)
Lemma exec_parameters before ps :
  Forall not_separator before ->
  Forall well_formed ps ->
  exec (toParamRegExp attr) (before ++ concat (written_as <$> ps)) 0
  = first_found found (length before) ps.
Proof using attr_only attr_matches.
  intros Hbefore Hall. rewrite exec_0, search_skip.
  - by apply search_parameters.
  - intros j Hj. cbn [Nat.add]. destruct ps as [|p ps].
    + cbn [fmap list_fmap concat]. rewrite app_nil_r.
      apply param_needs_equals; [done |]. by apply Forall_drop.
    + cbn [fmap list_fmap concat]. unfold written_as at 1. cbn [app].
      by apply before_no_match.
Qed.

End FirstParameter.

(** The value of the first parameter of a form is the capture of the
    first match. *)
Lemma first_found_star : forall ps i,
  match omap extended_value_of ps with
  | value :: _ =>
      exists i' j whole,
        first_found found_star i ps
        = Some (Match i' j [Some whole; Some value])
  | [] => first_found found_star i ps = None
  end.
Proof.
  induction ps as [|[fm spaces name value] ps IH]; intros i; [done |].
  cbn [omap list_omap first_found]. unfold found_star, extended_value_of.
  cbn [hp_form hp_value]. destruct fm; [by eexists _, _, _ | apply IH..].
Qed.

Lemma first_found_plain : forall ps i,
  match omap plain_value_of ps with
  | value :: _ =>
      exists i' j whole,
        first_found found_plain i ps
        = Some (Match i' j [Some whole; Some value])
  | [] => first_found found_plain i ps = None
  end.
Proof.
  induction ps as [|[fm spaces name value] ps IH]; intros i; [done |].
  cbn [omap list_omap first_found]. unfold found_plain, plain_value_of.
  cbn [hp_form hp_value]. destruct fm; [apply IH.. | by eexists _, _, _].
Qed.

(** *** The continuation parameters among them *)

Lemma match_all_parameters : forall ps pre fuel,
  Forall well_formed ps ->
  length ps < fuel ->
  exists ms,
    match_all_from fuel (toParamRegExp filename_continuation)
                   (pre ++ concat (written_as <$> ps)) (length pre)
    = Some ms
    /\ part_of_match <$> ms = omap part_of ps.
Proof.
  induction ps as [|p ps IH]; intros pre fuel Hall Hfuel;
    (destruct fuel as [|fuel]; [simpl in Hfuel; lia |]);
    rewrite match_all_from_S,
      (exec_parameters_from _ _ only_filename_continuation
         filename_continuation_matches) by done.
  - by exists [].
  - inversion Hall as [|? ? Hp Hall']; subst. cbn [first_found omap list_omap].
    destruct p as [fm spaces name value].
    unfold found_continuation at 1, part_of at 1. cbn [hp_form hp_value].
    set (p := HeaderParameter fm spaces name value).
    assert (Hnext : forall fuel',
               length ps < fuel' ->
               exists ms,
                 match_all_from fuel' (toParamRegExp filename_continuation)
                   (pre ++ concat (written_as <$> p :: ps))
                   (length pre + length (written_as p)) = Some ms
                 /\ part_of_match <$> ms = omap part_of ps).
    { intros fuel' Hfuel'.
      destruct (IH (pre ++ written_as p) fuel' Hall' Hfuel') as (ms & Hms & ?).
      rewrite length_app, <- app_assoc in Hms. by exists ms. }
    assert (Hs : pre ++ concat (written_as <$> p :: ps)
                 = (pre ++ written_as p) ++ concat (written_as <$> ps)).
    { cbn [fmap list_fmap concat]. by rewrite <- app_assoc. }
    destruct fm as [|digits ext|].
    + destruct (Hnext (S fuel) ltac:(simpl in Hfuel; lia)) as (ms & Hms & ?).
      rewrite match_all_from_S in Hms.
      rewrite <- (length_app pre (written_as p)), Hs in Hms.
      rewrite (exec_parameters_from _ _ only_filename_continuation
                 filename_continuation_matches) in Hms by done.
      rewrite length_app, <- Hs in Hms. by exists ms.
    + cbn [index endIndex].
      assert ((length pre + length (written_as p) =? length pre)%nat = false)
        as ->.
      { apply Nat.eqb_neq. unfold written_as. cbn [length]. lia. }
      destruct (Hnext fuel ltac:(simpl in Hfuel; lia)) as (ms & Hms & Hparts).
      rewrite Hms. eexists. split; [done |].
      rewrite fmap_cons, Hparts. f_equal.
      unfold part_of_match, group. cbn. by destruct ext.
    + destruct (Hnext (S fuel) ltac:(simpl in Hfuel; lia)) as (ms & Hms & ?).
      rewrite match_all_from_S in Hms.
      rewrite <- (length_app pre (written_as p)), Hs in Hms.
      rewrite (exec_parameters_from _ _ only_filename_continuation
                 filename_continuation_matches) in Hms by done.
      rewrite length_app, <- Hs in Hms. by exists ms.
Qed.

(** The parts of such a header are its continuation parameters. *)
Lemma parts_of_parameters before ps :
  Forall not_separator before ->
  Forall well_formed ps ->
  continuation_parts (before ++ concat (written_as <$> ps)) = omap part_of ps.
Proof.
  intros Hbefore Hall. unfold continuation_parts, match_all.
  change (2 + ?n) with (S (S n)).
  destruct (match_all_parameters ps before
              (S (S (length (before ++ concat (written_as <$> ps))))) Hall)
    as (ms & Hms & Hparts).
  { pose proof (length_parameters ps). rewrite length_app. lia. }
  rewrite match_all_from_S in Hms |- *.
  rewrite (exec_parameters_from _ _ only_filename_continuation
             filename_continuation_matches) in Hms by done.
  rewrite (exec_parameters _ _ only_filename_continuation
             filename_continuation_matches) by done.
  by rewrite Hms.
Qed.

(** *** The stages on the values of such parameters *)

Lemma simple_value_word value :
  simple_value value -> take 2 value <> str "=?".
Proof.
  intros (Hne & _ & _ & Hhead). destruct value as [|c value]; [done |].
  intros [= -> _]. by apply Hhead.
Qed.

Lemma simple_value_no_high value :
  simple_value value -> Forall (fun c => ~ high c) value.
Proof.
  intros (_ & Hall & _). eapply Forall_impl; [exact Hall |].
  intros c [[? ?] _]. unfold high. lia.
Qed.

Lemma unescape_simple value : simple_value value -> unescape value = value.
Proof.
  intros (_ & Hall & _). rewrite <- (app_nil_r value) at 1.
  rewrite unescape_plain; [by rewrite app_nil_r |].
  eapply Forall_impl; [exact Hall |]. by intros c (_ & ? & _).
Qed.

Section SimpleValues.

Variable TextDecoder_decode : jsstring -> jsstring -> option jsstring.
Variable atob : jsstring -> option jsstring.

Lemma rfc5987decode_simple value f :
  simple_value value ->
  rfc5987decode TextDecoder_decode value f = (Ok value, f).
Proof.
  intros (_ & Hall & _). unfold rfc5987decode. rewrite indexOf_none; [done |].
  eapply Forall_impl; [exact Hall |]. by intros c (_ & _ & ?).
Qed.

(** The last two stages of every form. *)
Lemma decoded_simple value f :
  take 2 value <> str "=?" ->
  Forall (fun c => ~ high c) value ->
  continuation_form TextDecoder_decode atob value f = (Ok value, f).
Proof.
  intros Hword Hhigh. unfold continuation_form, bind.
  rewrite rfc2047decode_other by done. by apply fixupEncoding_no_high.
Qed.

Lemma extended_form_simple i j whole value f :
  simple_value value ->
  extended_form TextDecoder_decode atob (Match i j [Some whole; Some value]) f
  = (Ok value, f).
Proof.
  intros Hvalue. pose proof (simple_value_is_token _ Hvalue) as (_ & _ & Hq).
  unfold extended_form, extended_value, group.
  cbn [groups lookup list_lookup default]. unfold id.
  change (defined (Some value)) with (ret value).
  rewrite bind_assoc, bind_ret_l, bind_assoc. unfold bind at 1.
  rewrite unquote_token by done. rewrite unescape_simple by done.
  rewrite bind_assoc. unfold bind at 1. rewrite rfc5987decode_simple by done.
  apply decoded_simple;
    [by apply simple_value_word | by apply simple_value_no_high].
Qed.

Lemma plain_form_simple contentDisposition i j whole value f :
  simple_value value ->
  exec (toParamRegExp (lit "filename")) contentDisposition 0
  = Some (Match i j [Some whole; Some value]) ->
  plain_form TextDecoder_decode atob contentDisposition f = (Ok value, f).
Proof.
  intros Hvalue E. pose proof (simple_value_is_token _ Hvalue) as (_ & _ & Hq).
  unfold plain_form. rewrite E. unfold group.
  cbn [groups lookup list_lookup default]. unfold id.
  change (defined (Some value)) with (ret value).
  rewrite bind_ret_l. unfold bind at 1. rewrite unquote_token by done.
  apply decoded_simple;
    [by apply simple_value_word | by apply simple_value_no_high].
Qed.

Lemma decode_simple_part p f :
  simple_value (raw_fragment p) ->
  decode_part TextDecoder_decode p f = (Ok (raw_fragment p), f).
Proof.
  intros Hvalue. pose proof (simple_value_is_token _ Hvalue) as (_ & _ & Hq).
  unfold decode_part, bind. rewrite unquote_token by done.
  destruct (is_extended p); [| done]. rewrite unescape_simple by done.
  destruct (part_index p =? 0)%N; [| done].
  by apply rfc5987decode_simple.
Qed.

Lemma decode_simple_parts ps f :
  Forall (fun p => simple_value (raw_fragment p)) ps ->
  decode_parts TextDecoder_decode ps f = (Ok (raw_fragment <$> ps), f).
Proof.
  induction 1 as [|p ps Hp _ IH]; [done |].
  rewrite fmap_cons. cbn [decode_parts]. unfold bind.
  by rewrite decode_simple_part, IH.
Qed.

End SimpleValues.

Lemma Forall_until_second_zero (P : ContinuationPart -> Prop) : forall ps seen,
  Forall P ps -> Forall P (until_second_zero seen ps).
Proof.
  induction ps as [|p ps IH]; intros seen H; [done |].
  inversion H; subst. cbn [until_second_zero].
  destruct (part_index p =? 0)%N; [destruct seen |]; auto.
Qed.

Lemma Forall_contiguous_from (P : ContinuationPart -> Prop) ps :
  Forall P ps -> forall k n, Forall P (contiguous_from ps n k).
Proof.
  intros H. induction k as [|k IH]; intros n; [done |].
  cbn [contiguous_from]. unfold first_with_index.
  destruct (List.find _ ps) as [p|] eqn:E; [| done].
  apply find_some in E as [Hin _]. apply list_elem_of_In in Hin.
  rewrite Forall_forall in H. auto.
Qed.

Lemma parts_simple ps :
  Forall well_formed ps ->
  Forall (fun p => simple_value (raw_fragment p)) (omap part_of ps).
Proof.
  induction 1 as [|[fm spaces name value] ps (_ & _ & Hv & _) _ IH]; [done |].
  cbn [omap list_omap]. unfold part_of at 1. cbn [hp_form hp_value].
  destruct fm; [done | | done]. by constructor.
Qed.

Lemma length_omap_le {A B} (g : A -> option B) (l : list A) :
  length (omap g l) <= length l.
Proof.
  induction l as [|x l IH]; [done |]. cbn [omap list_omap].
  destruct (g x); simpl; lia.
Qed.

Section ByPriority.

Variable TextDecoder_decode : jsstring -> jsstring -> option jsstring.
Variable atob : jsstring -> option jsstring.

(** What [rfc2231getparam] makes of such a header. *)
Lemma rfc2231getparam_parameters before ps f :
  Forall not_separator before ->
  Forall well_formed ps ->
  (N.of_nat (length ps) < 4294967295)%N ->
  rfc2231getparam TextDecoder_decode
    (before ++ concat (written_as <$> ps)) f
  = (Ok (fragments_in_order (omap part_of ps)), f).
Proof.
  intros Hbefore Hall Hlen.
  pose proof (parts_of_parameters before ps Hbefore Hall) as Hparts.
  rewrite rfc2231getparam_reassemble
    by (rewrite Hparts; pose proof (length_omap_le part_of ps); lia).
  rewrite Hparts. unfold reassemble, fragments_in_order, bind.
  rewrite decode_simple_parts; [done |].
  apply Forall_contiguous_from, Forall_until_second_zero.
  by apply parts_simple.
Qed.

Lemma fragments_simple ps c filename :
  Forall well_formed ps ->
  fragments_in_order (omap part_of ps) = c :: filename ->
  take 2 (c :: filename) <> str "=?"
  /\ Forall (fun x => ~ high x) (c :: filename).
Proof.
  intros Hall E. unfold fragments_in_order in E.
  set (chosen := contiguous_from _ _ _) in E.
  assert (Hchosen : Forall (fun p => simple_value (raw_fragment p)) chosen).
  { apply Forall_contiguous_from, Forall_until_second_zero.
    by apply parts_simple. }
  rewrite <- E. clear E. split.
  - destruct Hchosen as [|p chosen' Hp _]; [done |].
    rewrite fmap_cons. cbn [concat].
    destruct Hp as (Hne & _ & _ & Hhead).
    destruct (raw_fragment p) as [|x v]; [done |].
    intros [= -> _]. by apply Hhead.
  - apply Forall_concat, Forall_fmap.
    eapply Forall_impl; [exact Hchosen |].
    intros p Hp. by apply simple_value_no_high.
Qed.

(** The filename of a header of parameters of the three forms. *)
Lemma getFilename_by_priority before ps f :
  Forall not_separator before ->
  Forall well_formed ps ->
  (N.of_nat (length ps) < 4294967295)%N ->
  getFilenameFromContentDispositionHeader TextDecoder_decode atob
    (before ++ concat (written_as <$> ps)) f
  = (Ok (by_priority ps), true).
Proof.
  intros Hbefore Hall Hlen.
  assert (Hvalues : forall (g : header_parameter -> option jsstring),
             (forall p v, g p = Some v -> v = hp_value p) ->
             Forall simple_value (omap g ps)).
  { intros g Hg. clear Hlen. induction Hall as [|p ps' Hp _ IH]; [done |].
    cbn [omap list_omap]. destruct (g p) as [v|] eqn:E; [| done].
    constructor; [| done]. rewrite (Hg _ _ E). by destruct Hp as (_ & _ & ? & _). }
  assert (Hext : Forall simple_value (omap extended_value_of ps)).
  { apply Hvalues. intros p v. unfold extended_value_of.
    destruct (hp_form p); by intros [= <-]. }
  assert (Hpv : Forall simple_value (omap plain_value_of ps)).
  { apply Hvalues. intros p v. unfold plain_value_of.
    destruct (hp_form p); by intros [= <-]. }
  pose proof (exec_parameters _ _ only_filename_star filename_star_matches
                before ps Hbefore Hall) as Hstar.
  pose proof (first_found_star ps (length before)) as Hfirst.
  unfold by_priority.
  destruct (omap extended_value_of ps) as [|value vs].
  - rewrite (getFilename_continuation _ _ _ _
               (fragments_in_order (omap part_of ps)) true).
    + pose proof (fragments_simple ps) as Hfragments.
      destruct (fragments_in_order (omap part_of ps)) as [|c filename].
      * cbn [truthy].
        pose proof (exec_parameters _ _ only_lit_filename filename_matches
                      before ps Hbefore Hall) as Hplain.
        pose proof (first_found_plain ps (length before)) as Hp.
        destruct (omap plain_value_of ps) as [|value vs].
        -- unfold plain_form. rewrite Hplain, Hp. done.
        -- destruct Hp as (i' & j & whole & Hp). rewrite Hp in Hplain.
           cbn [head default].
           by apply (plain_form_simple _ _ _ _ _ _ _ _ (Forall_inv Hpv) Hplain).
      * cbn [truthy]. destruct (Hfragments c filename Hall eq_refl).
        by apply decoded_simple.
    + by rewrite Hstar.
    + by apply rfc2231getparam_parameters.
  - destruct Hfirst as (i' & j & whole & Hfirst). rewrite Hfirst in Hstar.
    rewrite (getFilename_extended _ _ _ _ _ Hstar).
    apply extended_form_simple. by apply (Forall_inv Hext).
Qed.

End ByPriority.

(** ** The text of a part *)

Lemma unquote_fragment fr f :
  well_quoted fr -> rfc2616unquote (fragment_of fr) f = (Ok (said_by fr), f).
Proof.
  destruct fr as [text|text]; intros H; cbn [fragment_of said_by].
  - by apply unquote_token.
  - rewrite <- (app_nil_r (quoted_string text)).
    by apply unquote_quoted_string.
Qed.

Section PartText.

Variable TextDecoder_decode : jsstring -> jsstring -> option jsstring.

(** A part that is not marked extended says what its fragment says. *)
Lemma decode_part_plain n fr f :
  well_quoted fr ->
  decode_part TextDecoder_decode (Part n false (fragment_of fr)) f
  = (Ok (said_by fr), f).
Proof.
  intros H. unfold decode_part, bind. cbn [raw_fragment is_extended].
  by rewrite unquote_fragment.
Qed.

(** A part marked extended says the bytes its fragment escapes. *)
Lemma decode_part_escaped n fr bytes f :
  well_quoted fr ->
  said_by fr = escape bytes ->
  Forall (fun c => (c <= 255)%N) bytes ->
  (n = 0%N -> Forall (fun c => c <> 39%N) bytes) ->
  decode_part TextDecoder_decode (Part n true (fragment_of fr)) f
  = (Ok bytes, f).
Proof.
  intros H Hsaid Hbytes Hzero. unfold decode_part, bind.
  cbn [raw_fragment is_extended part_index].
  rewrite unquote_fragment, Hsaid, unescape_escape by done.
  destruct (N.eqb_spec n 0) as [->|]; [| done].
  unfold rfc5987decode. by rewrite indexOf_none by auto.
Qed.

(** Part 0 marked extended, with a charset and a language before the
    escaped bytes, says those bytes as the charset decodes them. *)
Lemma decode_part_charset fr charset language bytes f :
  well_quoted fr ->
  said_by fr = charset ++ 39%N :: language ++ 39%N :: escape bytes ->
  Forall (fun c => word_or_hyphen c = true) charset ->
  Forall (fun c => word_or_hyphen c = true) language ->
  Forall (fun c => (c <= 255)%N) bytes ->
  decode_part TextDecoder_decode (Part 0 true (fragment_of fr)) f
  = textdecode TextDecoder_decode charset bytes f.
Proof.
  intros H Hsaid Hcs Hlang Hbytes. unfold decode_part, bind.
  cbn [raw_fragment is_extended part_index].
  rewrite unquote_fragment, Hsaid by done.
  assert (Hcs' : Forall (fun c => c <> 37%N /\ c <> 39%N) charset).
  { eapply Forall_impl; [exact Hcs |].
    intros c Hc. by destruct (word_or_hyphen_token c Hc) as (_ & _ & ? & ?). }
  assert (Hlang' : Forall (fun c => c <> 37%N /\ c <> 39%N) language).
  { eapply Forall_impl; [exact Hlang |].
    intros c Hc. by destruct (word_or_hyphen_token c Hc) as (_ & _ & ? & ?). }
  rewrite unescape_plain
    by (eapply Forall_impl; [exact Hcs' |]; by intros c [? _]).
  rewrite unescape_other by done.
  rewrite unescape_plain
    by (eapply Forall_impl; [exact Hlang' |]; by intros c [? _]).
  rewrite unescape_other, unescape_escape by done.
  change (0 =? 0)%N with true. cbv iota.
  apply rfc5987decode_cut.
  - eapply Forall_impl; [exact Hcs' |]. by intros c [_ ?].
  - eapply Forall_impl; [exact Hlang' |]. by intros c [_ ?].
Qed.

End PartText.


(** * The claims *)

Section Claims.

Variable TextDecoder_decode : jsstring -> jsstring -> option jsstring.
Variable atob : jsstring -> option jsstring.

(** C1. [extractFilenameFromHeader] returns, and what it returns is
    null or a string that ends in [.pdf] in either case; it is null
    for a header that is missing or empty, and null when the filename
    that was extracted does not end in [.pdf]. *)
Theorem C1_null_or_pdf (contentDisposition : option jsstring) :
  (exists r,
      extractFilenameFromHeader TextDecoder_decode atob contentDisposition
      = Ok r /\
      match r with Some filename => ends_with_pdf filename | None => True end)
  /\ extractFilenameFromHeader TextDecoder_decode atob None = Ok None
  /\ extractFilenameFromHeader TextDecoder_decode atob (Some []) = Ok None
  /\ (forall cd filename,
         call (getFilenameFromContentDispositionHeader
                 TextDecoder_decode atob cd) = Ok filename ->
         ~ ends_with_pdf filename ->
         extractFilenameFromHeader TextDecoder_decode atob (Some cd)
         = Ok None).
Proof.
  split; [| split; [done | split; [done |]]].
  - destruct contentDisposition as [[|c cd]|]; simpl;
      [by exists None | | by exists None].
    unfold call.
    destruct (getFilename_returns TextDecoder_decode atob (c :: cd) true)
      as (filename & f' & ->). simpl.
    destruct (test pdf_suffix filename) eqn:Hpdf; [| by exists None].
    exists (Some filename). split; [done |]. by apply pdf_suffix_spec.
  - intros cd filename Hcall Hnot. unfold extractFilenameFromHeader.
    destruct (truthy cd); [| done]. rewrite Hcall.
    destruct (test pdf_suffix filename) eqn:Hpdf; [| done].
    by apply pdf_suffix_spec in Hpdf.
Qed.

(** C2. The three forms are tried in the order [filename*], then the
    continuations, then [filename]. On every header: when the pattern
    of [filename*] matches, its value is the one decoded, whatever the
    other two patterns find; when it does not, what the continuations
    reassemble to is decoded unless it is empty, and only then is the
    plain form looked at. And on a header as it is written, a
    disposition type and parameters of the three forms in any order,
    with values that no stage changes: the filename is the value of
    the first [filename*] parameter if there is one, whatever plain
    and continuation parameters stand before or after it; without one
    it is the continuation values in the order of their indices; and
    the value of the first plain [filename] only when there is no
    continuation of index 0. *)
Theorem C2_priority (before : jsstring) (parameters : list header_parameter)
        (f : bool) :
  Forall not_separator before ->
  Forall well_formed parameters ->
  (N.of_nat (length parameters) < 4294967295)%N ->
  let header := before ++ concat (written_as <$> parameters) in
  (forall contentDisposition tmp,
      exec (toParamRegExp filename_star) contentDisposition 0 = Some tmp ->
      getFilenameFromContentDispositionHeader TextDecoder_decode atob
        contentDisposition f
      = extended_form TextDecoder_decode atob tmp true)
  /\ (forall contentDisposition tmp f1,
         exec (toParamRegExp filename_star) contentDisposition 0 = None ->
         rfc2231getparam TextDecoder_decode contentDisposition true
         = (Ok tmp, f1) ->
         getFilenameFromContentDispositionHeader TextDecoder_decode atob
           contentDisposition f
         = if truthy tmp
           then continuation_form TextDecoder_decode atob tmp f1
           else plain_form TextDecoder_decode atob contentDisposition f1)
  /\ (forall value others,
         omap extended_value_of parameters = value :: others ->
         getFilenameFromContentDispositionHeader TextDecoder_decode atob
           header f
         = (Ok value, true))
  /\ (forall c filename,
         omap extended_value_of parameters = [] ->
         fragments_in_order (omap part_of parameters) = c :: filename ->
         getFilenameFromContentDispositionHeader TextDecoder_decode atob
           header f
         = (Ok (c :: filename), true))
  /\ (omap extended_value_of parameters = [] ->
      fragments_in_order (omap part_of parameters) = [] ->
      getFilenameFromContentDispositionHeader TextDecoder_decode atob
        header f
      = (Ok (default [] (head (omap plain_value_of parameters))), true)).
Proof.
  intros Hbefore Hall Hlen header.
  pose proof (getFilename_by_priority TextDecoder_decode atob
                before parameters f Hbefore Hall Hlen) as H.
  fold header in H. unfold by_priority in H.
  split; [intros cd tmp E; by apply getFilename_extended |].
  split; [intros cd tmp f1 E Hget; by apply getFilename_continuation |].
  split; [| split].
  - intros value others E. by rewrite E in H.
  - intros c filename E1 E2. by rewrite E1, E2 in H.
  - intros E1 E2. by rewrite E1, E2 in H.
Qed.

(** C3, amended. Encoding Fixup is the last step of the first two forms
    as well: the filename returned is [fixupEncoding] of what RFC 2047
    decoding gave. There it leaves the filename as it is when a charset
    decoding has cleared the flag, and when no code unit of the filename
    is in 0x80-0xFF. *)
Theorem C3_fixup_on_every_form (contentDisposition : jsstring) (f : bool) :
  (forall tmp filename f1,
      exec (toParamRegExp filename_star) contentDisposition 0 = Some tmp ->
      extended_value TextDecoder_decode atob tmp true = (Ok filename, f1) ->
      getFilenameFromContentDispositionHeader TextDecoder_decode atob
        contentDisposition f
      = fixupEncoding TextDecoder_decode filename f1)
  /\ (forall tmp f1 filename f2,
         exec (toParamRegExp filename_star) contentDisposition 0 = None ->
         rfc2231getparam TextDecoder_decode contentDisposition true
         = (Ok tmp, f1) ->
         tmp <> [] ->
         rfc2047decode TextDecoder_decode atob tmp f1 = (Ok filename, f2) ->
         getFilenameFromContentDispositionHeader TextDecoder_decode atob
           contentDisposition f
         = fixupEncoding TextDecoder_decode filename f2)
  /\ (forall filename f1,
         f1 = false \/ Forall (fun c => ~ high c) filename ->
         fixupEncoding TextDecoder_decode filename f1 = (Ok filename, f1)).
Proof.
  split; [| split].
  - intros tmp filename f1 E H.
    rewrite (getFilename_extended _ _ _ _ _ E).
    unfold extended_form, bind. by rewrite H.
  - intros tmp f1 filename f2 E H Hne H2.
    rewrite (getFilename_continuation _ _ _ _ _ _ E H).
    destruct tmp; [done |]. cbn [truthy].
    unfold continuation_form, bind. by rewrite H2.
  - intros filename f1 [-> | Hall]; [done |].
    by apply fixupEncoding_no_high.
Qed.

(** C4, amended. At a second parameter of index 0 the scan stops:
    that parameter and every continuation parameter after it are
    ignored, and the parts before it, the first of index 0 among them,
    are reassembled as they would be without it; this with fewer than
    2^32 - 1 continuation parameters in the header. When [filename*]
    matches, its value is the result as on any header; when it does
    not, what was reassembled is decoded and returned unless it is
    empty, and only then is the plain form looked at. *)
Theorem C4_second_zero_ends_scan (contentDisposition : jsstring)
        (before after : list ContinuationPart) (p : ContinuationPart)
        (f : bool) :
  (N.of_nat (length (continuation_parts contentDisposition))
   < 4294967295)%N ->
  continuation_parts contentDisposition = before ++ p :: after ->
  part_index p = 0%N ->
  count_zero before = 1 ->
  rfc2231getparam TextDecoder_decode contentDisposition f
  = reassemble TextDecoder_decode before f
  /\ (forall tmp,
         exec (toParamRegExp filename_star) contentDisposition 0 = Some tmp ->
         getFilenameFromContentDispositionHeader TextDecoder_decode atob
           contentDisposition f
         = extended_form TextDecoder_decode atob tmp true)
  /\ (forall tmp f1,
         exec (toParamRegExp filename_star) contentDisposition 0 = None ->
         reassemble TextDecoder_decode before true = (Ok tmp, f1) ->
         getFilenameFromContentDispositionHeader TextDecoder_decode atob
           contentDisposition f
         = if truthy tmp
           then continuation_form TextDecoder_decode atob tmp f1
           else plain_form TextDecoder_decode atob contentDisposition f1).
Proof.
  intros Hlen Hparts Hp Hone.
  assert (Hre : forall f0,
             rfc2231getparam TextDecoder_decode contentDisposition f0
             = reassemble TextDecoder_decode before f0).
  { intros f0. rewrite rfc2231getparam_reassemble by done.
    rewrite Hparts. by rewrite (until_second_zero_cut _ _ _ Hp false). }
  split; [apply Hre |].
  split; [intros tmp E; by apply getFilename_extended |].
  intros tmp f1 E Hget. apply getFilename_continuation; [done |].
  by rewrite Hre.
Qed.

(** C5, amended. With fewer than 2^32 - 1 continuation parameters in
    the header (an array of JavaScript has no index past that), what
    [rfc2231getparam] returns is what the reassembler of section 4.2
    makes of the parameters scanned, those before a second one of
    index 0: the parts of index 0, 1, 2, ... up to the first index that
    is missing, the first part of each index, the text of each one,
    all concatenated. Without a second index 0 the parameters scanned
    are all of them. The text of a part that is not marked extended is
    what its fragment says, a token as it is and a quoted string
    without its quotes and backslashes, at index 0 too, where a charset
    prefix stays as it is written; the text of a part marked extended
    is the bytes its fragment escapes, and at index 0, after a charset
    and a language, those bytes as the charset decodes them. *)
Theorem C5_reassembly (contentDisposition : jsstring) (f : bool) :
  (N.of_nat (length (continuation_parts contentDisposition))
   < 4294967295)%N ->
  rfc2231getparam TextDecoder_decode contentDisposition f
  = reassemble TextDecoder_decode
      (until_second_zero false (continuation_parts contentDisposition)) f
  /\ (count_zero (continuation_parts contentDisposition) <= 1 ->
      rfc2231getparam TextDecoder_decode contentDisposition f
      = reassemble TextDecoder_decode
          (continuation_parts contentDisposition) f)
  /\ (forall n fr f0,
         well_quoted fr ->
         decode_part TextDecoder_decode (Part n false (fragment_of fr)) f0
         = (Ok (said_by fr), f0))
  /\ (forall n fr bytes f0,
         well_quoted fr ->
         said_by fr = escape bytes ->
         Forall (fun c => (c <= 255)%N) bytes ->
         (n = 0%N -> Forall (fun c => c <> 39%N) bytes) ->
         decode_part TextDecoder_decode (Part n true (fragment_of fr)) f0
         = (Ok bytes, f0))
  /\ (forall fr charset language bytes f0,
         well_quoted fr ->
         said_by fr = charset ++ 39%N :: language ++ 39%N :: escape bytes ->
         Forall (fun c => word_or_hyphen c = true) charset ->
         Forall (fun c => word_or_hyphen c = true) language ->
         Forall (fun c => (c <= 255)%N) bytes ->
         decode_part TextDecoder_decode (Part 0 true (fragment_of fr)) f0
         = textdecode TextDecoder_decode charset bytes f0).
Proof.
  intros Hlen. split; [by apply rfc2231getparam_reassemble |].
  split.
  { intros Hz. rewrite rfc2231getparam_reassemble by done.
    by rewrite until_second_zero_id. }
  split; [intros n fr f0 Hfr; by apply decode_part_plain |].
  split; [intros n fr bytes f0 Hfr Hsaid Hbytes Hzero;
          by apply decode_part_escaped |].
  intros fr charset language bytes f0 Hfr Hsaid Hcs Hlang Hbytes.
  by apply (decode_part_charset _ fr charset language bytes).
Qed.


(** C8. [rfc2047decode] returns the whole value as it is when the
    value does not start with [=?], and when any code unit of it is in
    0x00-0x19 or in 0x80-0xFF, wherever in the value that is. *)
Theorem C8_fast_reject (value : jsstring) (f : bool) :
  take 2 value <> str "=?" \/ Exists control_or_high_unit value ->
  rfc2047decode TextDecoder_decode atob value f = (Ok value, f).
Proof.
  intros H. unfold rfc2047decode, control_or_high. rewrite test_class.
  destruct H as [H|H].
  - by rewrite bool_decide_eq_false_2.
  - rewrite (existsb_in_ranges _ _ _ (fun c => proj2 (control_or_high_in_ranges c)) H).
    by rewrite orb_true_r.
Qed.

(** C9. [fixupEncoding] changes nothing once the flag is cleared, and
    nothing in a value without a code unit in 0x80-0xFF, so that on
    such a value a second run does what the first did. With the flag
    set and such a code unit there, it decodes as [utf-8], which is the
    result if that cleared the flag, and otherwise decodes what it has
    as [iso-8859-1]. *)
Theorem C9_fixupEncoding (value : jsstring) :
  fixupEncoding TextDecoder_decode value false = (Ok value, false)
  /\ (Forall (fun c => ~ high c) value ->
      forall f,
        fixupEncoding TextDecoder_decode value f = (Ok value, f)
        /\ bind (fixupEncoding TextDecoder_decode value)
                (fixupEncoding TextDecoder_decode) f
           = fixupEncoding TextDecoder_decode value f)
  /\ (Exists high value ->
      forall decoded f',
        textdecode TextDecoder_decode (str "utf-8") value true
        = (Ok decoded, f') ->
        fixupEncoding TextDecoder_decode value true
        = if f'
          then textdecode TextDecoder_decode (str "iso-8859-1") decoded true
          else (Ok decoded, false)).
Proof.
  split; [done |]. split.
  - intros Hall f.
    pose proof (fun f0 => fixupEncoding_no_high TextDecoder_decode value f0 Hall)
      as Hid.
    split; [apply Hid |].
    unfold bind. rewrite Hid. apply Hid.
  - intros Hex decoded f' Hutf.
    unfold fixupEncoding.
    unfold bind at 1, get_needsEncodingFixup, high_byte. rewrite test_class.
    rewrite (existsb_in_ranges _ _ _ (fun c => proj2 (high_in_ranges c)) Hex).
    cbn [andb]. unfold bind at 1. rewrite Hutf.
    unfold bind, get_needsEncodingFixup. by destruct f'.
Qed.

(** C10, amended. When [filename*] does not match and the continuations
    reassemble to the empty string, the plain form decides: the result
    is that of [plain_form], run with the flag as the reassembler left
    it. A header without any continuation parameter reassembles to the
    empty string with the flag still set, and its result is that of
    [plain_form] with the flag set. *)
Theorem C10_empty_reassembly (contentDisposition : jsstring) (f : bool) :
  exec (toParamRegExp filename_star) contentDisposition 0 = None ->
  (forall f1,
      rfc2231getparam TextDecoder_decode contentDisposition true
      = (Ok [], f1) ->
      getFilenameFromContentDispositionHeader TextDecoder_decode atob
        contentDisposition f
      = plain_form TextDecoder_decode atob contentDisposition f1)
  /\ (continuation_parts contentDisposition = [] ->
      rfc2231getparam TextDecoder_decode contentDisposition true
      = (Ok [], true)
      /\ getFilenameFromContentDispositionHeader TextDecoder_decode atob
           contentDisposition f
         = plain_form TextDecoder_decode atob contentDisposition true).
Proof.
  intros E. split.
  - intros f1 H. by rewrite (getFilename_continuation _ _ _ _ _ _ E H).
  - intros Hnone.
    pose proof (no_parts_reassemble TextDecoder_decode _ true Hnone) as H.
    split; [done |].
    by rewrite (getFilename_continuation _ _ _ _ _ _ E H).
Qed.

End Claims.

(** ** The claims on headers, in a browser *)

Abbreviation browser_getFilename :=
  (getFilenameFromContentDispositionHeader Browser.TextDecoder_decode
                                           Browser.atob).
Abbreviation browser_extract :=
  (extractFilenameFromHeader Browser.TextDecoder_decode Browser.atob).

(** Tactics for facts on strings that are written out: no word stands
    in a string, each code unit of a string is of a kind, a string is
    not a part of another. *)
Ltac no_mention :=
  let i := fresh "i" in let H := fresh "H" in
  intros [i H]; unfold stands_at in H;
  repeat (destruct i as [|i]; [by vm_compute in H | try (by vm_compute in H)]).

Ltac each tac :=
  match goal with
  | |- Forall ?P ?l =>
      let l' := eval vm_compute in l in
      change (Forall P l');
      repeat (apply Forall_cons_2; [tac |]); apply Forall_nil_2
  end.

Ltac not_held :=
  let b := fresh "b" in let a := fresh "a" in let H := fresh "H" in
  intros (b & a & H); cbn in H;
  repeat (destruct b as [|? b]; [discriminate H | injection H as _ H]);
  by destruct b.

Ltac is_simple :=
  split; [done |];
  split; [each ltac:(unfold simple_char, token_char; lia) |];
  split; done.

Ltac is_well_formed :=
  split; [each ltac:(done) |];
  split; [done |];
  split; [is_simple |];
  first [ exact I
        | split; [done | split; [each ltac:(done) |
                                 split; [done | cbn; lia]]] ].

Lemma C1_witness :
  call (browser_getFilename (str "filename=notes.txt")) = Ok (str "notes.txt")
  /\ ~ ends_with_pdf (str "notes.txt")
  /\ browser_extract (Some (str "filename=notes.txt")) = Ok None.
Proof.
  assert (Hcall : call (browser_getFilename (str "filename=notes.txt"))
                  = Ok (str "notes.txt")) by (vm_compute; reflexivity).
  assert (Hnot : ~ ends_with_pdf (str "notes.txt")).
  { intros H. apply pdf_suffix_spec in H. vm_compute in H. discriminate. }
  split; [exact Hcall |]. split; [exact Hnot |].
  exact (proj2 (proj2 (proj2 (C1_null_or_pdf Browser.TextDecoder_decode
                                Browser.atob None)))
           _ _ Hcall Hnot).
Defined.

Lemma C2_witness :
  browser_getFilename
    (str "attachment; filename=c.pdf; filename*1=.pdf; filename*0=b; FILENAME*=a.pdf")
    true
  = (Ok (str "a.pdf"), true)
  /\ browser_getFilename
       (str "attachment; filename=c.pdf; filename*1=.pdf; filename*0=b") true
     = (Ok (str "b.pdf"), true)
  /\ browser_getFilename
       (str "attachment; filename=c.pdf; filename*1=.pdf") true
     = (Ok (str "c.pdf"), true).
Proof.
  set (plain := HeaderParameter PlainForm (str " ") (str "filename")
                                (str "c.pdf")).
  set (one := HeaderParameter (ContinuationForm (str "1") false) (str " ")
                              (str "filename") (str ".pdf")).
  set (zero := HeaderParameter (ContinuationForm (str "0") false) (str " ")
                               (str "filename") (str "b")).
  set (extended := HeaderParameter ExtendedForm (str " ") (str "FILENAME")
                                   (str "a.pdf")).
  assert (Hbefore : Forall not_separator (str "attachment"))
    by each ltac:(done).
  assert (Hplain : well_formed plain) by is_well_formed.
  assert (Hone : well_formed one) by is_well_formed.
  assert (Hzero : well_formed zero) by is_well_formed.
  assert (Hextended : well_formed extended) by is_well_formed.
  split; [| split].
  - destruct (C2_priority Browser.TextDecoder_decode Browser.atob
                (str "attachment") [plain; one; zero; extended] true)
      as (_ & _ & H & _); [done | by repeat constructor | by vm_compute |].
    exact (H (str "a.pdf") [] eq_refl).
  - destruct (C2_priority Browser.TextDecoder_decode Browser.atob
                (str "attachment") [plain; one; zero] true)
      as (_ & _ & _ & H & _); [done | by repeat constructor | by vm_compute |].
    exact (H 98%N (str ".pdf") eq_refl eq_refl).
  - destruct (C2_priority Browser.TextDecoder_decode Browser.atob
                (str "attachment") [plain; one] true)
      as (_ & _ & _ & _ & H); [done | by repeat constructor | by vm_compute |].
    exact (H eq_refl eq_refl).
Defined.

(** C3 as stated fails: the value of [filename*] here has no charset
    prefix, its bytes are still there after RFC 2047 decoding, and
    Encoding Fixup decodes them; without it the filename would be the
    three bytes. *)
Lemma C3_counterexample :
  let cd := str "filename*=%E2%82%AC.pdf" in
  is_Some (exec (toParamRegExp filename_star) cd 0)
  /\ call (browser_getFilename cd) = Ok [8364; 46; 112; 100; 102]%N
  /\ call (fixup_on_plain_form_only Browser.TextDecoder_decode Browser.atob cd)
     = Ok [226; 130; 172; 46; 112; 100; 102]%N
  /\ call (browser_getFilename cd)
     <> call (fixup_on_plain_form_only Browser.TextDecoder_decode
                Browser.atob cd).
Proof.
  intros cd. repeat split; try (vm_compute; reflexivity).
  - vm_compute. eauto.
  - vm_compute. discriminate.
Qed.

Lemma C3_witness :
  let cd := str "filename*=UTF-8''%e2%82%ac%20rates.pdf" in
  exists tmp,
    exec (toParamRegExp filename_star) cd 0 = Some tmp
    /\ extended_value Browser.TextDecoder_decode Browser.atob tmp true
       = (Ok (8364%N :: str " rates.pdf"), false)
    /\ browser_getFilename cd true = (Ok (8364%N :: str " rates.pdf"), false).
Proof.
  intros cd.
  destruct (exec (toParamRegExp filename_star) cd 0) as [tmp|] eqn:E;
    [| vm_compute in E; discriminate].
  exists tmp. split; [reflexivity |].
  assert (Hv : extended_value Browser.TextDecoder_decode Browser.atob tmp true
               = (Ok (8364%N :: str " rates.pdf"), false)).
  { vm_compute in E. injection E as <-. vm_compute. reflexivity. }
  split; [exact Hv |].
  rewrite (proj1 (C3_fixup_on_every_form Browser.TextDecoder_decode
                    Browser.atob cd true) tmp _ _ E Hv).
  reflexivity.
Defined.

(** C4 as stated fails: the second [filename*0] does not make the plain
    [filename] the result; the first [filename*0] is. *)
Lemma C4_counterexample :
  let cd := str "filename*0=a.pdf; filename*0=b; filename=c.pdf" in
  exec (toParamRegExp filename_star) cd 0 = None
  /\ part_index <$> continuation_parts cd = [0; 0]%N
  /\ call (browser_getFilename cd) = Ok (str "a.pdf")
  /\ call (plain_form Browser.TextDecoder_decode Browser.atob cd)
     = Ok (str "c.pdf")
  /\ call (browser_getFilename cd)
     <> call (plain_form Browser.TextDecoder_decode Browser.atob cd).
Proof.
  intros cd. repeat split; try (vm_compute; reflexivity).
  vm_compute. discriminate.
Qed.

Lemma C4_witness :
  let cd := str "filename*0=a.pdf; filename*0=b; filename*1=c" in
  let starred := str "filename*0=a.pdf; filename*0=b; filename*=c.pdf" in
  continuation_parts cd
  = [Part 0 false (str "a.pdf")]
      ++ Part 0 false (str "b") :: [Part 1 false (str "c")]
  /\ rfc2231getparam Browser.TextDecoder_decode cd true
     = (Ok (str "a.pdf"), true)
  /\ browser_getFilename cd true = (Ok (str "a.pdf"), true)
  /\ browser_getFilename starred true = (Ok (str "c.pdf"), true).
Proof.
  intros cd starred.
  assert (Hparts : continuation_parts cd
                   = [Part 0 false (str "a.pdf")]
                       ++ Part 0 false (str "b") :: [Part 1 false (str "c")])
    by (vm_compute; reflexivity).
  split; [exact Hparts |].
  destruct (C4_second_zero_ends_scan Browser.TextDecoder_decode Browser.atob
              cd [Part 0 false (str "a.pdf")] [Part 1 false (str "c")]
              (Part 0 false (str "b")) true)
    as (Hre & _ & Hget);
    [rewrite Hparts; vm_compute; reflexivity | exact Hparts
     | reflexivity | vm_compute; reflexivity |].
  split; [rewrite Hre; vm_compute; reflexivity |].
  split.
  - rewrite (Hget (str "a.pdf") true); vm_compute; reflexivity.
  - assert (Hstarred : continuation_parts starred
                       = [Part 0 false (str "a.pdf")]
                           ++ Part 0 false (str "b") :: [])
      by (vm_compute; reflexivity).
    destruct (C4_second_zero_ends_scan Browser.TextDecoder_decode
                Browser.atob starred [Part 0 false (str "a.pdf")] []
                (Part 0 false (str "b")) true)
      as (_ & Hstar & _);
      [rewrite Hstarred; vm_compute; reflexivity | exact Hstarred
       | reflexivity | vm_compute; reflexivity |].
    destruct (exec (toParamRegExp filename_star) starred 0) as [tmp|] eqn:E;
      [| vm_compute in E; discriminate].
    rewrite (Hstar tmp eq_refl).
    vm_compute in E. injection E as <-. vm_compute. reflexivity.
Defined.

(** C5 as stated fails on two counts. A part of index 0 that is not
    marked extended keeps a charset prefix as it is written, where the
    claim has it decoded; and the parts after a second parameter of
    index 0 do not count, where the claim takes the parts of every
    index from 0 on. *)
Lemma C5_counterexample :
  let prefixed := str "filename*0=UTF-8''a.pdf" in
  let twice := str "filename*0=a; filename*1=b; filename*0=x; filename*2=.pdf" in
  rfc2231getparam Browser.TextDecoder_decode prefixed true
  = (Ok (str "UTF-8''a.pdf"), true)
  /\ reassemble_as_claimed Browser.TextDecoder_decode
       (continuation_parts prefixed) true
     = (Ok (str "a.pdf"), false)
  /\ rfc2231getparam Browser.TextDecoder_decode twice true
     = (Ok (str "ab"), true)
  /\ reassemble_as_claimed Browser.TextDecoder_decode
       (continuation_parts twice) true
     = (Ok (str "ab.pdf"), true).
Proof. intros prefixed twice. repeat split; vm_compute; reflexivity. Qed.

Lemma C5_witness :
  let quoted := quoted_string (str " ra" ++ dquote :: str "tes") in
  let cd := str "filename*0*=UTF-8''%e2%82%ac; filename*4=z; filename*1="
            ++ quoted ++ str "; filename*1=y; filename*2*=%20v2.pdf" in
  (N.of_nat (length (continuation_parts cd)) < 4294967295)%N
  /\ count_zero (continuation_parts cd) <= 1
  /\ rfc2231getparam Browser.TextDecoder_decode cd true
     = reassemble Browser.TextDecoder_decode (continuation_parts cd) true
  /\ rfc2231getparam Browser.TextDecoder_decode cd true
     = (Ok (8364%N :: str " ra" ++ dquote :: str "tes v2.pdf"), false)
  /\ decode_part Browser.TextDecoder_decode (Part 1 false quoted) false
     = (Ok (str " ra" ++ dquote :: str "tes"), false)
  /\ decode_part Browser.TextDecoder_decode
       (Part 2 true (str "%20v2.pdf")) false
     = (Ok (str " v2.pdf"), false)
  /\ decode_part Browser.TextDecoder_decode
       (Part 0 true (str "UTF-8''%E2%82%AC")) true
     = (Ok [8364%N], false).
Proof.
  intros quoted cd.
  assert (Hlen : (N.of_nat (length (continuation_parts cd)) < 4294967295)%N)
    by (vm_compute; reflexivity).
  assert (Hz : count_zero (continuation_parts cd) <= 1)
    by (vm_compute; lia).
  split; [exact Hlen |]. split; [exact Hz |].
  destruct (C5_reassembly Browser.TextDecoder_decode cd true Hlen)
    as (_ & Hre & Hplain & Hescaped & Hcharset).
  split; [exact (Hre Hz) |].
  split; [vm_compute; reflexivity |].
  split; [| split].
  - apply (Hplain 1%N (QuotedFragment (str " ra" ++ dquote :: str "tes"))).
    by vm_compute.
  - apply (Hescaped 2%N (TokenFragment (str "%20v2.pdf")) (str " v2.pdf"));
      [done | reflexivity | each ltac:(lia) | done].
  - transitivity (textdecode Browser.TextDecoder_decode (str "UTF-8")
                             [226; 130; 172]%N true);
      [| vm_compute; reflexivity].
    apply (Hcharset (TokenFragment (str "UTF-8''%E2%82%AC")) (str "UTF-8")
             [] [226; 130; 172]%N true);
      [done | reflexivity | each ltac:(done) | by constructor
       | each ltac:(lia)].
Defined.


Lemma C8_witness :
  let value := str "=?UTF-8?Q?a?=" ++ [9]%N in
  take 2 value = str "=?"
  /\ Exists control_or_high_unit value
  /\ rfc2047decode Browser.TextDecoder_decode Browser.atob value true
     = (Ok value, true).
Proof.
  intros value.
  assert (Hex : Exists control_or_high_unit value).
  { apply Exists_app. right. constructor. left. lia. }
  split; [reflexivity |]. split; [exact Hex |].
  apply C8_fast_reject. by right.
Defined.

Lemma C9_witness :
  let bytes := [226; 130; 172]%N in
  Exists high bytes
  /\ textdecode Browser.TextDecoder_decode (str "utf-8") bytes true
     = (Ok [8364]%N, false)
  /\ fixupEncoding Browser.TextDecoder_decode bytes true
     = (Ok [8364]%N, false)
  /\ fixupEncoding Browser.TextDecoder_decode (str "a.pdf") true
     = (Ok (str "a.pdf"), true).
Proof.
  intros bytes.
  assert (Hex : Exists high bytes) by (constructor; unfold high; lia).
  assert (Hutf : textdecode Browser.TextDecoder_decode (str "utf-8") bytes true
                 = (Ok [8364]%N, false)) by (vm_compute; reflexivity).
  split; [exact Hex |]. split; [exact Hutf |]. split.
  - exact (proj2 (proj2 (C9_fixupEncoding Browser.TextDecoder_decode bytes))
             Hex _ _ Hutf).
  - apply (proj1 (proj2 (C9_fixupEncoding Browser.TextDecoder_decode
                           (str "a.pdf")))).
    repeat constructor; unfold high; vm_compute; intros [H1 H2]; done.
Defined.

(** C10 as stated fails: part 0 here is a byte order mark, which the
    decoder of its charset turns into the empty string; the reassembly is
    empty, the plain form decides, but the flag is cleared and the bytes
    of the plain [filename] stay as they are, where the header without
    the continuation parameter gives the decoded name. *)
Lemma C10_counterexample :
  let plain := str "filename=" ++ [34; 226; 130; 172]%N ++ str ".pdf" ++ [34]%N in
  let cd := str "filename*0*=utf-8''%EF%BB%BF; " ++ plain in
  exec (toParamRegExp filename_star) cd 0 = None
  /\ rfc2231getparam Browser.TextDecoder_decode cd true = (Ok [], false)
  /\ call (browser_getFilename cd) = Ok [226; 130; 172; 46; 112; 100; 102]%N
  /\ call (plain_form Browser.TextDecoder_decode Browser.atob cd)
     = Ok [8364; 46; 112; 100; 102]%N
  /\ call (browser_getFilename plain) = Ok [8364; 46; 112; 100; 102]%N.
Proof.
  intros plain cd. repeat split; vm_compute; reflexivity.
Qed.

Lemma C10_witness :
  let cd := str "filename*0*=utf-8''; filename*2=x.pdf; filename=a.pdf" in
  exec (toParamRegExp filename_star) cd 0 = None
  /\ rfc2231getparam Browser.TextDecoder_decode cd true = (Ok [], true)
  /\ browser_getFilename cd true
     = plain_form Browser.TextDecoder_decode Browser.atob cd true
  /\ call (browser_getFilename cd) = Ok (str "a.pdf").
Proof.
  intros cd.
  assert (E : exec (toParamRegExp filename_star) cd 0 = None)
    by (vm_compute; reflexivity).
  assert (H : rfc2231getparam Browser.TextDecoder_decode cd true
              = (Ok [], true)) by (vm_compute; reflexivity).
  split; [exact E |]. split; [exact H |]. split.
  - exact (proj1 (C10_empty_reassembly Browser.TextDecoder_decode
                    Browser.atob cd true E) true H).
  - vm_compute. reflexivity.
Defined.

(** ** The examples of the specification, in that browser *)

Example plain_quoted :
  browser_extract (Some (str "filename=" ++ [34]%N ++ str "a.pdf" ++ [34]%N))
  = Ok (Some (str "a.pdf")).
Proof. vm_compute. reflexivity. Qed.

Example extended_euro_rates :
  browser_extract (Some (str "filename*=UTF-8''%e2%82%ac%20rates.pdf"))
  = Ok (Some (8364%N :: str " rates.pdf")).
Proof. vm_compute. reflexivity. Qed.

Example continuation_bigfile :
  browser_extract
    (Some (str "filename*0=" ++ [34]%N ++ str "big" ++ [34]%N
           ++ str "; filename*1=" ++ [34]%N ++ str "file.pdf" ++ [34]%N))
  = Ok (Some (str "bigfile.pdf")).
Proof. vm_compute. reflexivity. Qed.

Example continuation_mixed :
  browser_extract
    (Some (str "filename*0*=UTF-8''%e2%82%ac; filename*1="
           ++ [34]%N ++ str " rates.pdf" ++ [34]%N))
  = Ok (Some (8364%N :: str " rates.pdf")).
Proof. vm_compute. reflexivity. Qed.

Example encoded_word_resume :
  browser_extract
    (Some (str "filename=" ++ [34]%N ++ str "=?UTF-8?Q?r=C3=A9sum=C3=A9?=.pdf"
           ++ [34]%N))
  = Ok (Some (str "r" ++ [233]%N ++ str "sum" ++ [233]%N ++ str ".pdf")).
Proof. vm_compute. reflexivity. Qed.

Example not_a_pdf :
  browser_extract (Some (str "filename=" ++ [34]%N ++ str "notes.txt" ++ [34]%N))
  = Ok None.
Proof. vm_compute. reflexivity. Qed.

Example no_filename_parameter :
  browser_extract (Some (str "attachment; size=12")) = Ok None.
Proof. vm_compute. reflexivity. Qed.

(** The failures that end in a fallback: a charset nobody knows, bytes
    that are no UTF-8, base64 that is none, a quote left open, a
    continuation without its part 0. *)

Example unknown_charset :
  browser_extract (Some (str "filename*=bogus-charset''abc.pdf"))
  = Ok (Some (str "abc.pdf")).
Proof. vm_compute. reflexivity. Qed.

Example invalid_utf8 :
  browser_extract (Some (str "filename*=utf-8''%FF.pdf"))
  = Ok (Some (255%N :: str ".pdf")).
Proof. vm_compute. reflexivity. Qed.

Example bad_base64 :
  browser_extract
    (Some (str "filename=" ++ [34]%N ++ str "=?utf-8?B?@@@?=.pdf" ++ [34]%N))
  = Ok (Some (str "@@@.pdf")).
Proof. vm_compute. reflexivity. Qed.

Example base64_word :
  browser_extract
    (Some (str "filename=" ++ [34]%N ++ str "=?UTF-8?B?4oKsLnBkZg==?="
           ++ [34]%N))
  = Ok (Some (8364%N :: str ".pdf")).
Proof. vm_compute. reflexivity. Qed.

Example quote_left_open :
  browser_extract (Some (str "filename=" ++ [34]%N ++ str "a.pdf"))
  = Ok (Some (str "a.pdf")).
Proof. vm_compute. reflexivity. Qed.

Example continuation_without_part_0 :
  browser_extract (Some (str "filename*1=x.pdf; filename=a.pdf"))
  = Ok (Some (str "a.pdf")).
Proof. vm_compute. reflexivity. Qed.

(** Without [TextDecoder] and [atob] at all. *)
Example no_TextDecoder :
  extractFilenameFromHeader (fun _ _ => None) (fun _ => None)
    (Some (str "filename*=UTF-8''%e2%82%ac%20rates.pdf"))
  = Ok (Some (8364%N :: str " rates.pdf")).
Proof. vm_compute. reflexivity. Qed.

(** * Further properties of the code *)

Section Further.

Variable TextDecoder_decode : jsstring -> jsstring -> option jsstring.
Variable atob : jsstring -> option jsstring.

(** X1. [needsEncodingFixup] is never set again once a call has begun:
    each of the nested helpers ends with the flag as it found it, or
    cleared, and [rfc2616unquote] leaves it as it found it. *)
Theorem X1_flag_never_set (encoding value contentDisposition : jsstring) :
  clears_only (textdecode TextDecoder_decode encoding value)
  /\ clears_only (fixupEncoding TextDecoder_decode value)
  /\ clears_only (rfc5987decode TextDecoder_decode value)
  /\ clears_only (rfc2047decode TextDecoder_decode atob value)
  /\ clears_only (rfc2231getparam TextDecoder_decode contentDisposition)
  /\ keeps_flag (rfc2616unquote value).
Proof.
  repeat split.
  - apply textdecode_clears_only.
  - apply fixupEncoding_clears_only.
  - apply rfc5987decode_clears_only.
  - apply rfc2047decode_clears_only.
  - apply rfc2231getparam_clears_only.
  - apply rfc2616unquote_keeps_flag.
Qed.

(** X2. What [extractFilenameFromHeader] returns for a header, when it
    is not null, is the very string
    [getFilenameFromContentDispositionHeader] returned, and it returns
    it whenever that string ends in [.pdf]. *)
Theorem X2_extract_is_the_filename (contentDisposition filename : jsstring) :
  extractFilenameFromHeader TextDecoder_decode atob (Some contentDisposition)
  = Ok (Some filename)
  <-> call (getFilenameFromContentDispositionHeader
              TextDecoder_decode atob contentDisposition) = Ok filename
      /\ ends_with_pdf filename.
Proof.
  unfold extractFilenameFromHeader.
  destruct contentDisposition as [|c cd].
  - cbn [truthy]. split; [done |]. intros [H Hpdf]. exfalso.
    vm_compute in H. injection H as <-.
    destruct Hpdf as (stem & ext & Hl & He). symmetry in Hl.
    apply app_eq_nil in Hl as [-> ->]. done.
  - cbn [truthy].
    destruct (call _) as [name|e]; [| split; [done | by intros [? _]]].
    destruct (test pdf_suffix name) eqn:Hpdf.
    + apply pdf_suffix_spec in Hpdf. split; [by intros [= ->] |].
      by intros [[= ->] _].
    + split; [done |]. intros [[= ->] H%pdf_suffix_spec]. congruence.
Qed.

(** X3. Without a continuation parameter of index 0 nothing is
    reassembled: [rfc2231getparam] returns the empty string, whatever
    parts of other indices the header holds. *)
Theorem X3_no_part_0 (contentDisposition : jsstring) (f : bool) :
  (N.of_nat (length (continuation_parts contentDisposition))
   < 4294967295)%N ->
  Forall (fun p => part_index p <> 0%N) (continuation_parts contentDisposition) ->
  rfc2231getparam TextDecoder_decode contentDisposition f = (Ok [], f).
Proof.
  intros Hlen Hall. rewrite rfc2231getparam_reassemble by done.
  set (ps := continuation_parts contentDisposition) in *.
  assert (Hz : count_zero ps = 0).
  { unfold count_zero. clear Hlen. induction Hall as [|p ps' Hp _ IH]; [done |].
    rewrite filter_cons. by destruct (decide (part_index p = 0%N)). }
  rewrite until_second_zero_seen by done.
  unfold reassemble.
  assert (contiguous_from ps 0 (length ps) = []) as ->; [| done].
  destruct (length ps); [done |]. cbn [contiguous_from].
  unfold first_with_index.
  assert (List.find (fun p => (part_index p =? 0)%N) ps = None) as ->; [| done].
  clear Hlen Hz. induction Hall as [|p ps' Hp _ IH]; [done |].
  cbn [List.find]. by rewrite (proj2 (N.eqb_neq _ _) Hp).
Qed.

(** X4. The recovery of [textdecode] is a UTF-8 decoder: when the
    decoder of a label [utf8] or [utf-8] throws (or is not there), a
    value of bytes is decoded as UTF-8, the flag cleared; bytes that are
    not UTF-8 come back as they are, the flag as it was. A byte order
    mark is kept like any other character. *)
Theorem X4_recovery_is_utf8 (encoding value : jsstring) (f : bool) :
  is_utf8_label encoding ->
  value <> [] ->
  Forall (fun c => (c <= 255)%N) value ->
  TextDecoder_decode encoding value = None ->
  textdecode TextDecoder_decode encoding value f
  = match Browser.utf8_from value 0 0 0 with
    | Some decoded => (Ok decoded, false)
    | None => (Ok value, f)
    end.
Proof.
  intros Hlabel Hne Hall Hthrows. unfold textdecode.
  assert (truthy encoding = true) as ->.
  { destruct encoding; [| done]. by destruct Hlabel. }
  assert (test bytes_only value = true) as -> by by apply bytes_only_spec.
  apply utf8_label_spec in Hlabel.
  cbn [negb]. unfold try_catch, bind, throwing. rewrite Hthrows, Hlabel. cbn.
  unfold decodeURIComponent. rewrite decode_escape by done.
  by destruct (Browser.utf8_from value 0 0 0).
Qed.

(** X5. [rfc5987decode] cuts an extended value at its first two
    apostrophes: the charset before the first decodes what comes after
    the second, and the language between them is dropped; with one
    apostrophe only, what comes after it is decoded; with none, the
    value is returned as it is. *)
Theorem X5_rfc5987decode (charset language value : jsstring) (f : bool) :
  Forall (fun c => c <> 39%N) charset ->
  (Forall (fun c => c <> 39%N) language ->
   rfc5987decode TextDecoder_decode
     (charset ++ 39%N :: language ++ 39%N :: value) f
   = textdecode TextDecoder_decode charset value f)
  /\ (Forall (fun c => c <> 39%N) value ->
      rfc5987decode TextDecoder_decode (charset ++ 39%N :: value) f
      = textdecode TextDecoder_decode charset value f)
  /\ rfc5987decode TextDecoder_decode charset f = (Ok charset, f).
Proof.
  intros Hcharset. unfold rfc5987decode. split; [| split].
  - intros Hlang. rewrite indexOf_app by done.
    rewrite take_app_length, drop_after.
    unfold replace_first. rewrite language_tag_found by done.
    unfold bind, ret. cbn [index endIndex take app].
    by rewrite drop_after.
  - intros Hvalue. rewrite indexOf_app by done.
    rewrite take_app_length, drop_after.
    unfold replace_first. by rewrite language_tag_none.
  - by rewrite indexOf_none.
Qed.

(** X6. [rfc2047decode] changes nothing in a value that nowhere holds
    [?=], the end of an encoded word. *)
Theorem X6_no_encoded_word (value : jsstring) (f : bool) :
  ~ holds (str "?=") value ->
  rfc2047decode TextDecoder_decode atob value f = (Ok value, f).
Proof.
  intros Hno. unfold rfc2047decode. destruct (_ || _); [done |].
  rewrite replace_all_none; [done |].
  rewrite exec_0. apply search_none. intros j _.
  destruct (match_at encoded_word (0 + j) (drop j value)) eqn:E; [| done].
  exfalso. apply encoded_word_found in E as (before & after & E).
  apply Hno. exists (take j value ++ before), after.
  rewrite <- (take_drop j value) at 1. rewrite E. by rewrite <- app_assoc.
Qed.

(** X7. A header that nowhere holds the word [filename], in any case
    of its letters, gives the empty filename, and
    [extractFilenameFromHeader] gives null. *)
Theorem X7_no_filename (contentDisposition : jsstring) (f : bool) :
  ~ mentions (str "filename") contentDisposition ->
  getFilenameFromContentDispositionHeader TextDecoder_decode atob
    contentDisposition f = (Ok [], true)
  /\ extractFilenameFromHeader TextDecoder_decode atob
       (Some contentDisposition) = Ok None.
Proof.
  intros Hno.
  assert (Hnone : forall attr,
             (forall s k e, rmatch true attr s k = Some e ->
                            lower <$> take 8 (rest s) = str "filename") ->
             exec (toParamRegExp attr) contentDisposition 0 = None).
  { intros attr Hattr.
    destruct (exec _ contentDisposition 0) eqn:E; [| done].
    by apply (param_mentions _ Hattr) in E. }
  assert (Hget : forall f0,
             getFilenameFromContentDispositionHeader TextDecoder_decode atob
               contentDisposition f0 = (Ok [], true)).
  { intros f0.
    rewrite (getFilename_continuation _ _ _ _ [] true).
    - cbn [truthy]. unfold plain_form.
      by rewrite (Hnone _ lit_filename_found).
    - apply (Hnone _ filename_star_found).
    - apply no_parts_reassemble, no_continuation.
      apply (Hnone _ filename_continuation_found). }
  split; [apply Hget |].
  unfold extractFilenameFromHeader, call. rewrite Hget.
  by destruct (truthy contentDisposition).
Qed.

(** X8. [rfc2616unquote] undoes the quoting of RFC 2616: from a
    quoted-string, with a backslash before each double quote and each
    backslash of the text, it gives the text back, and drops whatever
    follows the closing quote; this for a text that does not end in a
    backslash. *)
Theorem X8_unquote_quoted_string (s junk : jsstring) (f : bool) :
  last s <> Some 92%N ->
  rfc2616unquote (quoted_string s ++ junk) f = (Ok s, f).
Proof.
  intros Hlast. unfold quoted_string, rfc2616unquote. cbn [app].
  change (dquote =? dquote)%N with true. cbv iota. fold (unquote_from (((quoted_text s ++ [dquote]) ++ junk)) []).
  rewrite <- app_assoc. cbn [app].
  pose proof (unquote_walk (dquote :: junk) []
                (fun seg f0 Hseg _ => unquote_from_quote junk seg f0 Hseg)
                s [] f (Forall_nil_2 _)) as H.
  cbn [app rev quoted_text fmap list_fmap concat] in H.
  rewrite app_nil_r in H. apply H. done.
Qed.

(** X9. The closing quote may be missing: [rfc2616unquote] gives the
    text back all the same, whatever the text. *)
Theorem X9_unquote_without_closing_quote (s : jsstring) (f : bool) :
  rfc2616unquote (dquote :: quoted_text s) f = (Ok s, f).
Proof.
  unfold rfc2616unquote.
  change (dquote =? dquote)%N with true. cbv iota.
  fold (unquote_from (quoted_text s) []).
  pose proof (unquote_walk [] []
                (fun seg f0 Hseg _ => unquote_from_end seg f0 Hseg)
                s [] f (Forall_nil_2 _)) as H.
  cbn [app rev quoted_text fmap list_fmap concat] in H.
  rewrite !app_nil_r in H. apply H. done.
Qed.

(** X10. A text that ends in a backslash does not come back: the
    backslash that escapes it and the closing quote are read as an
    escaped quote, and the text is returned with a double quote after
    it. *)
Theorem X10_unquote_backslash_at_the_end (s : jsstring) (f : bool) :
  rfc2616unquote (quoted_string (s ++ [92%N])) f
  = (Ok (s ++ [92%N; dquote]), f).
Proof.
  unfold quoted_string, rfc2616unquote.
  change (dquote =? dquote)%N with true. cbv iota.
  fold (unquote_from (quoted_text (s ++ [92%N]) ++ [dquote]) []).
  rewrite quoted_text_app, <- app_assoc.
  change (quoted_text [92%N] ++ [dquote]) with [92; 92; 34]%N.
  pose proof (unquote_walk [92; 92; 34]%N [92; 34]%N
                (fun seg f0 Hseg _ => unquote_from_backslash seg f0 Hseg)
                s [] f (Forall_nil_2 _)) as H.
  cbn [app rev quoted_text fmap list_fmap concat] in H.
  apply H. done.
Qed.

(** X11. An encoded word of encoding [B] or [b] at the start of a value
    is replaced by its text, decoded as base64 (left as it is when
    [atob] throws) and then by its charset; what follows the word is
    kept when no other word ends in it. *)
Theorem X11_encoded_word_B (charset text tail : jsstring) (encoding : N)
        (f : bool) :
  Forall (fun x => word_or_hyphen x = true) charset ->
  encoding = 66%N \/ encoding = 98%N ->
  Forall (fun x => x <> 63%N) text ->
  ~ holds (str "?=") tail ->
  Forall (fun c => ~ control_or_high_unit c) (text ++ tail) ->
  rfc2047decode TextDecoder_decode atob
    (encoded_word_of charset encoding text ++ tail) f
  = (let* text := try_catch (throwing (atob text)) (ret text) in
     let* decoded := textdecode TextDecoder_decode charset text in
     ret (decoded ++ tail)) f.
Proof.
  intros Hcs Henc Htext Htail Hrest.
  assert (Hin : encoding ∈ [81; 113; 66; 98]%N).
  { rewrite !elem_of_cons. tauto. }
  unfold rfc2047decode. rewrite encoded_word_goes_on by done.
  rewrite replace_encoded_word by done.
  unfold decode_word.
  match goal with
  | |- context [group ?m 1] =>
      change (group m 1) with (Some charset);
      change (group m 2) with (Some [encoding]);
      change (group m 3) with (Some text)
  end.
  cbn [defined]. do 3 rewrite bind_assoc, bind_ret_l.
  assert ((bool_decide ([encoding] = str "q")
           || bool_decide ([encoding] = str "Q")) = false) as ->.
  { by destruct Henc as [-> | ->]. }
  by rewrite bind_assoc.
Qed.

(** X12. An encoded word of encoding [Q] or [q] that holds the Q
    encoding of a string of bytes is replaced by those bytes, decoded
    by its charset. *)
Theorem X12_encoded_word_Q (charset bytes tail : jsstring) (encoding : N)
        (f : bool) :
  Forall (fun x => word_or_hyphen x = true) charset ->
  encoding = 81%N \/ encoding = 113%N ->
  Forall (fun c => (c <= 255)%N) bytes ->
  ~ holds (str "?=") tail ->
  Forall (fun c => ~ control_or_high_unit c) tail ->
  rfc2047decode TextDecoder_decode atob
    (encoded_word_of charset encoding (q_encode bytes) ++ tail) f
  = (let* decoded := textdecode TextDecoder_decode charset bytes in
     ret (decoded ++ tail)) f.
Proof.
  intros Hcs Henc Hbytes Htail Hrest.
  assert (Hin : encoding ∈ [81; 113; 66; 98]%N).
  { rewrite !elem_of_cons. tauto. }
  pose proof (q_encode_chars bytes Hbytes) as Hq.
  assert (Htext : Forall (fun x => x <> 63%N) (q_encode bytes)).
  { eapply Forall_impl; [exact Hq |]. by intros c [_ ?]. }
  unfold rfc2047decode. rewrite encoded_word_goes_on; [| done | done |].
  - rewrite replace_encoded_word by done.
    unfold decode_word.
    match goal with
    | |- context [group ?m 1] =>
        change (group m 1) with (Some charset);
        change (group m 2) with (Some [encoding]);
        change (group m 3) with (Some (q_encode bytes))
    end.
    cbn [defined]. do 3 rewrite bind_assoc, bind_ret_l.
    assert ((bool_decide ([encoding] = str "q")
             || bool_decide ([encoding] = str "Q")) = true) as ->.
    { by destruct Henc as [-> | ->]. }
    destruct (q_decode_steps bytes Hbytes) as (mid & H1 & H2).
    rewrite !bind_assoc. unfold bind at 1.
    rewrite (replace_all_substitute _ _ _ underscore_none underscore_some).
    rewrite H1 by lia. rewrite !bind_assoc. unfold bind at 1.
    rewrite (replace_all_substitute _ _ _ hex_escape_none hex_escape_some).
    rewrite H2 by lia. done.
  - apply Forall_app. split; [| done].
    eapply Forall_impl; [exact Hq |]. intros c [? _].
    unfold control_or_high_unit, high. lia.
Qed.

(** X13. A header with a disposition type (no [;] and no [=] in it), a
    [;], white space or none, the name [filename] in any case of its
    letters, [=] and a token gives that token: printable ASCII without
    [;], not begun by a double quote or by [=?]. What follows the token
    starts with a [;] or white space and nowhere names [filename*],
    the parameter of the two forms that are tried first. *)
Theorem X13_plain_token (before spaces name token post : jsstring) (f : bool) :
  Forall not_separator before ->
  Forall (fun c => is_space c = true) spaces ->
  lower <$> name = str "filename" ->
  token <> [] -> Forall token_char token ->
  head token <> Some dquote -> take 2 token <> str "=?" ->
  ends_token post -> ~ mentions (str "filename*") post ->
  getFilenameFromContentDispositionHeader TextDecoder_decode atob
    (before ++ 59%N :: spaces ++ name ++ 61%N :: token ++ post) f
  = (Ok token, true)
  /\ (ends_with_pdf token ->
      extractFilenameFromHeader TextDecoder_decode atob
        (Some (before ++ 59%N :: spaces ++ name ++ 61%N :: token ++ post))
      = Ok (Some token)).
Proof.
  intros Hbefore Hspaces Hname Hne Htoken Hq Hword Hpost Hno.
  assert (Hget : forall f0,
             getFilenameFromContentDispositionHeader TextDecoder_decode atob
               (before ++ 59%N :: spaces ++ name ++ 61%N :: token ++ post) f0
             = (Ok token, true));
    [| split; [apply Hget | intros Hpdf; by eapply extract_pdf]].
  intros f0.
  destruct token as [|v token']; [done |].
  inversion Htoken as [|? ? Hv Htoken']; subst.
  rewrite (getFilename_plain _ _ _ _ _ _ _
             (spaces ++ name ++ 61%N :: v :: token') post).
  - unfold bind. rewrite unquote_token by done.
    rewrite rfc2047decode_other by done.
    apply fixupEncoding_no_high. by apply no_high_token.
  - done.
  - done.
  - done.
  - exists v, token'. split; [done | by apply token_char_not_space].
  - apply value_token; try done. intros [= ->]. by apply Hq.
  - by rewrite <- !app_assoc.
  - rewrite !Forall_app. split; [by apply is_space_no_semicolon |].
    split; [by apply name_no_semicolon |].
    apply Forall_cons. split; [done |].
    eapply Forall_impl; [exact Htoken |]. by intros c [_ ?].
  - done.
Qed.

(** X14. With a quoted string for the value, the text between the
    quotes is the filename: a text without double quote, backslash or
    code unit in 0x80-0xFF, not begun by [=?]. From the opening quote
    on the header nowhere names [filename*]: the patterns of the two
    forms that are tried first do not know of quotes. *)
Theorem X14_plain_quoted (before spaces name text post : jsstring) (f : bool) :
  Forall not_separator before ->
  Forall (fun c => is_space c = true) spaces ->
  lower <$> name = str "filename" ->
  text <> [] ->
  Forall (fun c => c <> 34%N /\ c <> 92%N) text ->
  Forall (fun c => ~ high c) text ->
  take 2 text <> str "=?" ->
  ~ mentions (str "filename*") (quoted_string text ++ post) ->
  getFilenameFromContentDispositionHeader TextDecoder_decode atob
    (before ++ 59%N :: spaces ++ name ++ 61%N :: quoted_string text ++ post) f
  = (Ok text, true)
  /\ (ends_with_pdf text ->
      extractFilenameFromHeader TextDecoder_decode atob
        (Some (before ++ 59%N :: spaces ++ name ++ 61%N ::
                 quoted_string text ++ post))
      = Ok (Some text)).
Proof.
  intros Hbefore Hspaces Hname Hne Htext Hhigh Hword Hno.
  assert (Hget : forall f0,
             getFilenameFromContentDispositionHeader TextDecoder_decode atob
               (before ++ 59%N :: spaces ++ name ++ 61%N ::
                  quoted_string text ++ post) f0
             = (Ok text, true));
    [| split; [apply Hget | intros Hpdf; by eapply extract_pdf]].
  intros f0.
  destruct text as [|x text']; [done |].
  rewrite (getFilename_plain _ _ _ _ _ _ _
             (spaces ++ name ++ [61%N]) (quoted_string (x :: text') ++ post)).
  - unfold bind.
    rewrite <- (app_nil_r (quoted_string _)), unquote_quoted_string.
    + rewrite rfc2047decode_other by done.
      by apply fixupEncoding_no_high.
    + intros Hl. apply last_Some_elem_of in Hl.
      rewrite Forall_forall in Htext. by destruct (Htext _ Hl).
  - done.
  - done.
  - done.
  - by exists dquote, (quoted_text (x :: text') ++ [dquote]).
  - by apply value_quoted.
  - rewrite <- !app_assoc. done.
  - rewrite !Forall_app. split; [by apply is_space_no_semicolon |].
    split; [by apply name_no_semicolon |]. by repeat constructor.
  - done.
Qed.

(** X15. A header whose first parameter is [filename*] with an
    extended value, a charset, a language and percent-escaped bytes
    between apostrophes, gives those bytes decoded by the charset, and
    then what RFC 2047 decoding and Encoding Fixup make of the
    result. *)
Theorem X15_extended_value (before spaces name charset language bytes post
                             : jsstring) (f : bool) :
  Forall not_separator before ->
  Forall (fun c => is_space c = true) spaces ->
  lower <$> name = str "filename" ->
  Forall (fun c => word_or_hyphen c = true) charset ->
  Forall (fun c => word_or_hyphen c = true) language ->
  Forall (fun c => (c <= 255)%N) bytes ->
  ends_token post ->
  getFilenameFromContentDispositionHeader TextDecoder_decode atob
    (before ++ 59%N :: spaces ++ (name ++ [42%N]) ++ 61%N ::
       (charset ++ 39%N :: language ++ 39%N :: escape bytes) ++ post) f
  = (let* filename := textdecode TextDecoder_decode charset bytes in
     let* filename := rfc2047decode TextDecoder_decode atob filename in
     fixupEncoding TextDecoder_decode filename) true.
Proof.
  intros Hbefore Hspaces Hname Hcs Hlang Hbytes Hpost.
  set (value := charset ++ 39%N :: language ++ 39%N :: escape bytes).
  rewrite (getFilename_extended _ _ _
             (Match (length before)
                    (length before
                     + length (59%N :: spaces ++ (name ++ [42%N]) ++ 61%N :: value))
                    [Some (59%N :: spaces ++ (name ++ [42%N]) ++ 61%N :: value);
                     Some value])).
  - by apply extended_form_decoded.
  - apply param_present; [apply only_filename_star | done |].
    apply extended_at; try done. by apply extended_value_is_token.
Qed.

(** X16. The scan of [rfc2231getparam] finds the continuation
    parameters as they are written, in their order: for a header of a
    disposition type and parameters [; filename*n=value] or
    [; filename*n*=value], one after the other, the parts are those
    parameters, each with the number its digits write, its mark and its
    value. What follows the last one nowhere names [filename*]. *)
Theorem X16_scan_finds_the_parameters (before post : jsstring)
        (parameters : list Continuation) :
  Forall not_separator before ->
  parameters <> [] ->
  Forall well_written parameters ->
  ends_token post ->
  ~ mentions (str "filename*") post ->
  continuation_parts (before ++ concat (written <$> parameters) ++ post)
  = part_written <$> parameters.
Proof.
  intros Hbefore Hne Hall Hpost Hno. by apply parts_written.
Qed.

(** X17. Continuation parameters are put together by their indices,
    not by their places in the header: for a header of parameters
    [; filename*n=token] that carry the indices 0, 1, ... each once, in
    any order, the filename is the tokens one after the other in the
    order of the indices. The tokens together do not begin with [=?];
    the bound is that of a JavaScript array. *)
Theorem X17_continuations_by_index (before post : jsstring)
        (parameters sorted : list Continuation) (f : bool) :
  Forall not_separator before ->
  Forall well_written parameters ->
  Forall (fun par => extended par = false /\ is_token (value_of par))
         parameters ->
  Permutation sorted parameters ->
  sorted <> [] ->
  in_order (part_written <$> sorted) ->
  take 2 (concat (value_of <$> sorted)) <> str "=?" ->
  ends_token post ->
  ~ mentions (str "filename*") post ->
  (N.of_nat (length parameters) < 4294967295)%N ->
  getFilenameFromContentDispositionHeader TextDecoder_decode atob
    (before ++ concat (written <$> parameters) ++ post) f
  = (Ok (concat (value_of <$> sorted)), true).
Proof.
  intros Hbefore Hall Hplain Hperm Hne Horder Hword Hpost Hno Hlen.
  assert (Hne' : parameters <> []).
  { intros ->. by apply Permutation_nil_r in Hperm. }
  pose proof (Permutation_Forall (Permutation_sym Hperm) Hplain) as Hsorted.
  set (header := before ++ concat (written <$> parameters) ++ post).
  assert (Hparts : continuation_parts header = part_written <$> parameters)
    by by apply parts_written.
  assert (Hstar : exec (toParamRegExp filename_star) header 0 = None).
  { rewrite exec_0. apply search_none. intros j _. cbn [Nat.add].
    destruct (Nat.lt_ge_cases j (length before)) as [Hj|Hj].
    - unfold header. destruct parameters as [|par todo]; [done |].
      cbn [fmap list_fmap concat]. unfold written at 1. cbn [app].
      by apply before_no_match; [apply only_filename_star | |].
    - unfold header. rewrite drop_app_ge by done.
      replace j with (length before + (j - length before)) at 1 by lia.
      apply no_star_in_written; [done |].
      apply Forall_and. split; [done |].
      eapply Forall_impl; [exact Hplain |]. by intros par [_ ?]. }
  rewrite (getFilename_continuation _ _ _ _
             (concat (value_of <$> sorted)) true Hstar).
  - assert (truthy (concat (value_of <$> sorted)) = true) as ->.
    { destruct sorted as [|par rest]; [done |].
      inversion Hsorted as [|? ? (_ & Hv & _) _]; subst.
      cbn [fmap list_fmap concat]. by destruct (value_of par). }
    unfold continuation_form, bind. rewrite rfc2047decode_other by done.
    apply fixupEncoding_no_high. apply Forall_concat, Forall_fmap.
    eapply Forall_impl; [exact Hsorted |].
    intros par (_ & _ & Htoken & _). by apply no_high_token.
  - rewrite rfc2231getparam_reassemble
      by (by rewrite Hparts, length_fmap).
    rewrite Hparts, until_second_zero_id.
    + unfold reassemble. rewrite length_fmap, <- (Permutation_length Hperm).
      change 0%N with (N.of_nat 0).
      rewrite (contiguous_in_order _ (part_written <$> sorted))
        by (by apply fmap_Permutation || done
            || (rewrite length_fmap; simpl; lia)).
      rewrite drop_0, <- (length_fmap part_written sorted), firstn_all.
      unfold bind. by rewrite decode_plain_parts.
    + rewrite <- (count_zero_Permutation (part_written <$> sorted))
        by by apply fmap_Permutation.
      by apply count_zero_in_order.
Qed.

(** X18. An extended parameter wins over a plain one that stands
    before it: with [; filename=token] first and [; filename*=] with an
    extended value after it, the filename is that of the extended
    value, as when it stands alone. *)
Theorem X18_extended_after_plain
        (before spaces1 name1 token spaces name charset language bytes post
           : jsstring) (f : bool) :
  Forall not_separator before ->
  Forall (fun c => is_space c = true) spaces1 ->
  lower <$> name1 = str "filename" ->
  Forall token_char token ->
  Forall (fun c => is_space c = true) spaces ->
  lower <$> name = str "filename" ->
  Forall (fun c => word_or_hyphen c = true) charset ->
  Forall (fun c => word_or_hyphen c = true) language ->
  Forall (fun c => (c <= 255)%N) bytes ->
  ends_token post ->
  getFilenameFromContentDispositionHeader TextDecoder_decode atob
    (before ++ 59%N :: spaces1 ++ name1 ++ 61%N :: token ++
       59%N :: spaces ++ (name ++ [42%N]) ++ 61%N ::
       (charset ++ 39%N :: language ++ 39%N :: escape bytes) ++ post) f
  = (let* filename := textdecode TextDecoder_decode charset bytes in
     let* filename := rfc2047decode TextDecoder_decode atob filename in
     fixupEncoding TextDecoder_decode filename) true.
Proof.
  intros Hbefore Hspaces1 Hname1 Htoken Hspaces Hname Hcs Hlang Hbytes Hpost.
  set (value := charset ++ 39%N :: language ++ 39%N :: escape bytes).
  set (plain := before ++ 59%N :: spaces1 ++ name1 ++ 61%N :: token).
  rewrite (getFilename_extended _ _ _
             (Match (length plain)
                    (length plain
                     + length (59%N :: spaces ++ (name ++ [42%N]) ++ 61%N :: value))
                    [Some (59%N :: spaces ++ (name ++ [42%N]) ++ 61%N :: value);
                     Some value])).
  - by apply extended_form_decoded.
  - apply param_after_plain;
      [apply only_filename_star | apply needs_star_filename_star | done.. |].
    apply extended_at; try done. by apply extended_value_is_token.
Qed.

(** X19. No failure of a decoding step reaches the caller: for every
    header, missing or not, and whatever [TextDecoder] and [atob] do,
    [extractFilenameFromHeader] returns, and so does
    [getFilenameFromContentDispositionHeader] on every string. The
    exceptions of the decoders and of [decodeURIComponent] are caught,
    no capture is used while it is undefined, [parseInt] gets digits,
    and every loop ends. This on the semantics of the language, where
    a pattern match needs no stack. *)
Theorem X19_no_decoding_error (contentDisposition : option jsstring) :
  (exists r,
      extractFilenameFromHeader TextDecoder_decode atob contentDisposition
      = Ok r)
  /\ (forall cd f, exists filename f',
         getFilenameFromContentDispositionHeader TextDecoder_decode atob
           cd f = (Ok filename, f')).
Proof.
  split; [| intros cd f; apply getFilename_returns].
  destruct contentDisposition as [cd|]; simpl; [| eauto].
  destruct (truthy cd); [| eauto]. unfold call.
  destruct (getFilename_returns TextDecoder_decode atob cd true)
    as (filename & f' & ->). simpl.
  destruct (test pdf_suffix filename); eauto.
Qed.

End Further.

(** ** Those properties on headers, in a browser *)

Lemma X3_witness :
  rfc2231getparam Browser.TextDecoder_decode
    (str "attachment; filename*1=b.pdf; filename*2=c") true = (Ok [], true).
Proof.
  apply X3_no_part_0.
  - vm_compute. done.
  - each ltac:(done).
Defined.

Lemma X4_witness :
  textdecode (fun _ _ => None) (str "UTF-8") [226; 130; 172]%N true
  = (Ok [8364%N], false).
Proof.
  apply (X4_recovery_is_utf8 (fun _ _ => None) (str "UTF-8")
                             [226; 130; 172]%N true).
  - by right.
  - done.
  - each ltac:(lia).
  - done.
Defined.

Lemma X5_witness :
  rfc5987decode Browser.TextDecoder_decode
    (str "UTF-8" ++ 39%N :: str "en" ++ 39%N :: [226; 130; 172]%N) true
  = (Ok [8364%N], false)
  /\ rfc5987decode Browser.TextDecoder_decode
       (str "UTF-8" ++ 39%N :: [226; 130; 172]%N) true
     = (Ok [8364%N], false)
  /\ rfc5987decode Browser.TextDecoder_decode (str "UTF-8") true
     = (Ok (str "UTF-8"), true).
Proof.
  assert (H5 : Forall (fun c => c <> 39%N) (str "UTF-8"))
    by (repeat constructor; done).
  split; [| split].
  - destruct (X5_rfc5987decode Browser.TextDecoder_decode (str "UTF-8")
                (str "en") [226; 130; 172]%N true H5) as (H & _ & _).
    rewrite H; [done |]. each ltac:(done).
  - destruct (X5_rfc5987decode Browser.TextDecoder_decode (str "UTF-8")
                (str "en") [226; 130; 172]%N true H5) as (_ & H & _).
    rewrite H; [done |]. each ltac:(done).
  - by destruct (X5_rfc5987decode Browser.TextDecoder_decode (str "UTF-8")
                   (str "en") [226; 130; 172]%N true H5) as (_ & _ & H).
Defined.

Lemma X6_witness :
  rfc2047decode Browser.TextDecoder_decode Browser.atob
    (str "=?UTF-8?Q?a.pdf") true
  = (Ok (str "=?UTF-8?Q?a.pdf"), true).
Proof. apply X6_no_encoded_word. not_held. Defined.

Lemma X7_witness :
  getFilenameFromContentDispositionHeader Browser.TextDecoder_decode
    Browser.atob (str "inline; name=a.pdf") true = (Ok [], true)
  /\ extractFilenameFromHeader Browser.TextDecoder_decode Browser.atob
       (Some (str "inline; name=a.pdf")) = Ok None.
Proof. apply X7_no_filename. no_mention. Defined.

Lemma X8_witness :
  rfc2616unquote
    (quoted_string (str "a\b " ++ dquote :: str "c" ++ dquote :: str ".pdf")
     ++ str "; size=1") true
  = (Ok (str "a\b " ++ dquote :: str "c" ++ dquote :: str ".pdf"), true).
Proof. apply X8_unquote_quoted_string. by vm_compute. Defined.

Lemma X11_witness :
  rfc2047decode Browser.TextDecoder_decode Browser.atob
    (encoded_word_of (str "UTF-8") 66 (str "4oKs") ++ str ".pdf") true
  = (Ok (8364%N :: str ".pdf"), false).
Proof.
  rewrite X11_encoded_word_B.
  - done.
  - each ltac:(done).
  - by left.
  - each ltac:(done).
  - not_held.
  - each ltac:(unfold control_or_high_unit, high; lia).
Defined.

Lemma X12_witness :
  rfc2047decode Browser.TextDecoder_decode Browser.atob
    (encoded_word_of (str "UTF-8") 81
       (q_encode [114; 195; 169; 115; 117; 109; 195; 169; 32; 49]%N)
     ++ str ".pdf") true
  = (Ok ([114; 233; 115; 117; 109; 233; 32; 49]%N ++ str ".pdf"), false).
Proof.
  rewrite X12_encoded_word_Q.
  - done.
  - each ltac:(done).
  - by left.
  - each ltac:(lia).
  - not_held.
  - each ltac:(unfold control_or_high_unit, high; lia).
Defined.

Lemma X13_witness :
  getFilenameFromContentDispositionHeader Browser.TextDecoder_decode
    Browser.atob
    (str "attachment" ++ 59%N :: str " " ++ str "FileName" ++ 61%N ::
       str "report.pdf" ++ str "; filename=b.pdf") true
  = (Ok (str "report.pdf"), true)
  /\ extractFilenameFromHeader Browser.TextDecoder_decode Browser.atob
       (Some (str "attachment" ++ 59%N :: str " " ++ str "FileName" ++ 61%N ::
                str "report.pdf" ++ str "; filename=b.pdf"))
     = Ok (Some (str "report.pdf")).
Proof.
  destruct (X13_plain_token Browser.TextDecoder_decode Browser.atob
              (str "attachment") (str " ") (str "FileName")
              (str "report.pdf") (str "; filename=b.pdf") true)
    as [H1 H2].
  - each ltac:(done).
  - each ltac:(done).
  - done.
  - done.
  - each ltac:(unfold token_char; lia).
  - done.
  - done.
  - by left.
  - no_mention.
  - split; [exact H1 | apply H2].
    exists (str "report"), (str ".pdf"). split; reflexivity.
Defined.

Lemma X14_witness :
  getFilenameFromContentDispositionHeader Browser.TextDecoder_decode
    Browser.atob
    (str "attachment" ++ 59%N :: str " " ++ str "filename" ++ 61%N ::
       quoted_string (str "my report; v2.PDF") ++ str "; size=3") true
  = (Ok (str "my report; v2.PDF"), true)
  /\ extractFilenameFromHeader Browser.TextDecoder_decode Browser.atob
       (Some (str "attachment" ++ 59%N :: str " " ++ str "filename" ++ 61%N ::
                quoted_string (str "my report; v2.PDF") ++ str "; size=3"))
     = Ok (Some (str "my report; v2.PDF")).
Proof.
  destruct (X14_plain_quoted Browser.TextDecoder_decode Browser.atob
              (str "attachment") (str " ") (str "filename")
              (str "my report; v2.PDF") (str "; size=3") true)
    as [H1 H2].
  - each ltac:(done).
  - each ltac:(done).
  - done.
  - done.
  - each ltac:(done).
  - each ltac:(unfold high; lia).
  - done.
  - no_mention.
  - split; [exact H1 | apply H2].
    exists (str "my report; v2"), (str ".PDF"). split; reflexivity.
Defined.

Lemma X15_witness :
  getFilenameFromContentDispositionHeader Browser.TextDecoder_decode
    Browser.atob
    (str "attachment" ++ 59%N :: str " " ++ (str "filename" ++ [42%N]) ++
       61%N :: (str "UTF-8" ++ 39%N :: str "en" ++ 39%N ::
                  escape ([226; 130; 172]%N ++ str " rates.pdf"))
       ++ str "; filename=rates.pdf") true
  = (Ok (8364%N :: str " rates.pdf"), false).
Proof.
  rewrite X15_extended_value.
  - done.
  - each ltac:(done).
  - each ltac:(done).
  - done.
  - each ltac:(done).
  - each ltac:(done).
  - each ltac:(lia).
  - by left.
Defined.

Ltac is_a_token :=
  split; [done | split; [each ltac:(unfold token_char; lia) | done]].

Ltac is_written value :=
  split; [each ltac:(done) |];
  split; [done |];
  split; [split; [done | split; [each ltac:(done) |
                               split; [done | cbn; lia]]] |];
  value.

Lemma X16_witness :
  continuation_parts
    (str "attachment; filename*0="
     ++ quoted_string (str "a; filename*1=x") ++ str "; FILENAME*1*=b.pdf")
  = [Part 0 false (quoted_string (str "a; filename*1=x"));
     Part 1 true (str "b.pdf")].
Proof.
  apply (X16_scan_finds_the_parameters (str "attachment") []
           [Written (str " ") (str "filename") (str "0") false
                    (quoted_string (str "a; filename*1=x"));
            Written (str " ") (str "FILENAME") (str "1") true (str "b.pdf")]).
  - each ltac:(done).
  - done.
  - apply Forall_cons_2; [| apply Forall_cons_2; [| apply Forall_nil_2]].
    + is_written ltac:(right; exists (str "a; filename*1=x");
                       split; [done | split; [each ltac:(done) | done]]).
    + is_written ltac:(left; is_a_token).
  - done.
  - no_mention.
Defined.

Lemma X17_witness :
  getFilenameFromContentDispositionHeader Browser.TextDecoder_decode
    Browser.atob (str "attachment; filename*1=b.pdf; Filename*0=a") true
  = (Ok (str "ab.pdf"), true).
Proof.
  apply (X17_continuations_by_index Browser.TextDecoder_decode Browser.atob
           (str "attachment") []
           [Written (str " ") (str "filename") (str "1") false (str "b.pdf");
            Written (str " ") (str "Filename") (str "0") false (str "a")]
           [Written (str " ") (str "Filename") (str "0") false (str "a");
            Written (str " ") (str "filename") (str "1") false (str "b.pdf")]).
  - each ltac:(done).
  - apply Forall_cons_2; [| apply Forall_cons_2; [| apply Forall_nil_2]];
      is_written ltac:(left; is_a_token).
  - apply Forall_cons_2; [| apply Forall_cons_2; [| apply Forall_nil_2]];
      (split; [done | is_a_token]).
  - apply perm_swap.
  - done.
  - intros [|[|i]] p; cbn; intros [= <-]; done.
  - done.
  - done.
  - no_mention.
  - vm_compute. done.
Defined.

Lemma X18_witness :
  getFilenameFromContentDispositionHeader Browser.TextDecoder_decode
    Browser.atob
    (str "attachment" ++ 59%N :: str " " ++ str "filename" ++ 61%N ::
       str "rates.pdf" ++ 59%N :: str " " ++ (str "filename" ++ [42%N]) ++
       61%N :: (str "UTF-8" ++ 39%N :: str "en" ++ 39%N ::
                  escape ([226; 130; 172]%N ++ str " rates.pdf"))
       ++ []) true
  = (Ok (8364%N :: str " rates.pdf"), false).
Proof.
  rewrite X18_extended_after_plain.
  - done.
  - each ltac:(done).
  - each ltac:(done).
  - done.
  - each ltac:(unfold token_char; lia).
  - each ltac:(done).
  - done.
  - each ltac:(done).
  - each ltac:(done).
  - each ltac:(lia).
  - done.
Defined.

